(** * NYC taxi ingestion scripts: fetch, stage in an object store, bulk load

    A shallow embedding of the two Python programs of the repository

    - [03-data-warehouse/homework/load-yellow-taxi-data.py]  (module [Homework])
    - [04-analytics-engineering/setup/load_taxi_to_gcs_bq.py] (module [Pipeline])

    Pure helpers ([chunked], [months_from_args], [get_partition_field],
    [get_bq_schema], ...) are Rocq functions.  Code that talks to the local
    file system, the bucket, the HTTP origin or the warehouse is written in a
    state-and-exception monad over an explicit [World]; what the outside
    world answers to each call is read from scripts carried by the world, so
    a statement quantified over all worlds covers every behaviour of the
    collaborators.

    Strings are byte strings; inputs are taken to be ASCII, where Python's
    code-point order, [str.lower], [str.strip] and [int] agree with the
    byte-wise definitions below. *)

From Stdlib Require Import Ascii.
From stdpp Require Import base list strings gmap sorting pretty.

Open Scope string_scope.
Open Scope list_scope.
Open Scope Z_scope.

(** * Python values and builtins *)

(** The subclasses of [Exception] the programs can meet: these are what a
    library call may raise and what [except Exception] catches. *)
Inductive exception : Type :=
  | ValueError (msg : string)
  | OSError (msg : string)
  | NotFound
  | Forbidden
  | TransportError (msg : string).

(** What can unwind the stack: an [Exception], or the [SystemExit] raised by
    [sys.exit], a [BaseException] that [except Exception] lets through. *)
Inductive exn : Type :=
  | Exception (e : exception)
  | SystemExit (code : Z).
Coercion Exception : exception >-> exn.

Inductive result (A : Type) : Type :=
  | Ok (a : A)
  | Raise (e : exn).
Arguments Ok {A} a.
Arguments Raise {A} e.

Definition raises {A} (r : result A) : Prop :=
  match r with Ok _ => False | Raise _ => True end.

Definition raises_ValueError {A} (r : result A) : Prop :=
  match r with Raise (Exception (ValueError _)) => True | _ => False end.

Definition rbind {A B} (r : result A) (k : A → result B) : result B :=
  match r with
  | Ok a => k a
  | Raise e => Raise e
  end.

Notation "'let!' x := e 'in' k" := (rbind e (fun x => k))
  (at level 10, x name, e at level 100, k at level 200, only parsing).

(** ** Characters and strings *)

Definition code (c : ascii) : Z := Z.of_N (N_of_ascii c).

(** ASCII code points for which [str.isspace] holds: TAB, LF, VT, FF, CR,
    FS, GS, RS, US and SPACE. *)
Definition py_isspace (c : ascii) : bool :=
  ((9 <=? code c) && (code c <=? 13)) ||
  ((28 <=? code c) && (code c <=? 32)).

Definition py_isdigit (c : ascii) : bool :=
  (48 <=? code c) && (code c <=? 57).

Definition digit_val (c : ascii) : Z := code c - 48.

Definition lower_char (c : ascii) : ascii :=
  if (65 <=? code c) && (code c <=? 90)
  then ascii_of_N (Z.to_N (code c + 32))
  else c.

(** [s.lower()] *)
Fixpoint str_lower (s : string) : string :=
  match s with
  | EmptyString => EmptyString
  | String c s' => String (lower_char c) (str_lower s')
  end.

Fixpoint str_forall (p : ascii → bool) (s : string) : bool :=
  match s with
  | EmptyString => true
  | String c s' => p c && str_forall p s'
  end.

(** [c in s] for a one-character needle. *)
Fixpoint str_contains (c : ascii) (s : string) : bool :=
  match s with
  | EmptyString => false
  | String d s' => Ascii.eqb d c || str_contains c s'
  end.

Definition str_is_empty (s : string) : bool :=
  match s with EmptyString => true | _ => false end.

Fixpoint lstrip_by (p : ascii → bool) (s : string) : string :=
  match s with
  | EmptyString => EmptyString
  | String c s' => if p c then lstrip_by p s' else s
  end.

Fixpoint rstrip_by (p : ascii → bool) (s : string) : string :=
  match s with
  | EmptyString => EmptyString
  | String c s' =>
      let r := rstrip_by p s' in
      if p c && str_is_empty r then EmptyString else String c r
  end.

Definition strip_by (p : ascii → bool) (s : string) : string :=
  rstrip_by p (lstrip_by p s).

(** [s.strip()] *)
Definition str_strip (s : string) : string := strip_by py_isspace s.

(** [s.strip(chars)] *)
Definition str_strip_chars (chars : string) (s : string) : string :=
  strip_by (fun c => str_contains c chars) s.

Definition cons_head (c : ascii) (parts : list string) : list string :=
  match parts with
  | [] => [String c EmptyString]
  | h :: t => String c h :: t
  end.

(** [s.split(sep, maxsplit)] for a one-character separator; [maxsplit] is
    [None] for Python's default (no limit). *)
Fixpoint str_split (sep : ascii) (maxsplit : option nat) (s : string)
  : list string :=
  match maxsplit with
  | Some O => [s]
  | _ =>
    match s with
    | EmptyString => [EmptyString]
    | String c s' =>
        if Ascii.eqb c sep
        then EmptyString :: str_split sep (pred <$> maxsplit) s'
        else cons_head c (str_split sep maxsplit s')
    end
  end.

(** Digits of an integer literal after the sign: one or more digits, single
    underscores allowed between digits. *)
Fixpoint int_digits (s : string) (acc : Z) (after_digit : bool) : option Z :=
  match s with
  | EmptyString => if after_digit then Some acc else None
  | String c s' =>
      if py_isdigit c then int_digits s' (10 * acc + digit_val c) true
      else if Ascii.eqb c "_" && after_digit then int_digits s' acc false
      else None
  end.

(** The whitespace [int] skips around the digits of an ASCII string: TAB,
    LF, VT, FF, CR and SPACE.  The separators FS, GS, RS and US, which
    [str.strip] removes, are not among them. *)
Definition int_isspace (c : ascii) : bool :=
  ((9 <=? code c) && (code c <=? 13)) || (code c =? 32).

(** [int(s)] in base ten: surrounding whitespace is ignored, one optional
    sign, leading zeros allowed.  The cap that recent interpreters put on
    the number of digits (4300 by default) is not modelled. *)
Definition py_int (s : string) : result Z :=
  let bad := Raise (ValueError "invalid literal for int() with base 10") in
  match strip_by int_isspace s with
  | String "-" d => match int_digits d 0 false with
                    | Some n => Ok (- n)
                    | None => bad
                    end
  | String "+" d => match int_digits d 0 false with
                    | Some n => Ok n
                    | None => bad
                    end
  | d => match int_digits d 0 false with
         | Some n => Ok n
         | None => bad
         end
  end.

(** [str(n)] *)
Definition py_str (n : Z) : string := pretty n.

Fixpoint str_repeat (c : ascii) (n : nat) : string :=
  match n with
  | O => EmptyString
  | S n' => String c (str_repeat c n')
  end.

(** [f"{m:02d}"]: sign first, then zeros up to a total width of two. *)
Definition fmt_02d (m : Z) : string :=
  let sign := if m <? 0 then "-" else "" in
  let digits := pretty (Z.abs_N m) in
  let pad := (2 - String.length sign - String.length digits)%nat in
  sign +:+ str_repeat "0" pad +:+ digits.

(** [os.path.basename] on POSIX: what follows the last slash. *)
Fixpoint basename (p : string) : string :=
  match p with
  | EmptyString => EmptyString
  | String c p' =>
      if Ascii.eqb c "/" then basename p'
      else if str_contains "/" p' then basename p'
      else p
  end.

(** [", ".join(parts)] for a one-character separator. *)
Fixpoint str_join (sep : ascii) (parts : list string) : string :=
  match parts with
  | [] => EmptyString
  | [p] => p
  | p :: rest => p +:+ String sep (str_join sep rest)
  end.

(** ** Lists *)

Definition len {A} (l : list A) : Z := Z.of_nat (length l).

(** [range(start, stop, step)], its elements listed.  The length is the one
    CPython computes; a zero step is a [ValueError]. *)
Definition range_len (start stop step : Z) : nat :=
  if 0 <? step then Z.to_nat ((stop - start + step - 1) `div` step)
  else Z.to_nat ((start - stop - step - 1) `div` (- step)).

Definition range_items (start stop step : Z) : list Z :=
  (fun k => start + Z.of_nat k * step) <$> seq 0 (range_len start stop step).

Definition py_range (start stop step : Z) : result (list Z) :=
  if step =? 0 then Raise (ValueError "range() arg 3 must not be zero")
  else Ok (range_items start stop step).

(** A slice bound brought into [0, len]: negative bounds count from the
    end, everything is clamped. *)
Definition slice_bound (n i : Z) : Z :=
  if i <? 0 then Z.max 0 (i + n) else Z.min i n.

(** [lst[i:j]] *)
Definition slice {A} (lst : list A) (i j : Z) : list A :=
  let lo := slice_bound (len lst) i in
  let hi := slice_bound (len lst) j in
  take (Z.to_nat (hi - lo)) (drop (Z.to_nat lo) lst).

(** [sorted(l)] on strings: Python's sort is a stable merge sort under
    code-point order. *)
Definition sorted (l : list string) : list string := merge_sort String.le l.

(** * Pure helpers of load_taxi_to_gcs_bq.py *)

(** [chunked(lst, size)]: the list of the batches the generator yields.
<<
    for i in range(0, len(lst), size):
        yield lst[i:i + size]
>> *)
Definition chunked {A} (lst : list A) (size : Z) : result (list (list A)) :=
  let! idx := py_range 0 (len lst) size in
  Ok ((fun i => slice lst i (i + size)) <$> idx).

(** The mathematical ceiling of [a / b] for positive [b]. *)
Definition ceil_div (a b : Z) : Z := - ((- a) `div` b).

(** The [k]-th block of width [b] of a list: items [k*b] to [k*b + b - 1]. *)
Definition block {A} (b : nat) (lst : list A) (k : nat) : list A :=
  take b (drop (k * b) lst).

(** [months_from_args(months)]: the loop of the list form, with its
    accumulator [out]. *)
Fixpoint month_tokens (parts : list string) (out : list string)
  : result (list string) :=
  match parts with
  | [] => Ok out
  | p :: rest =>
      let! m := py_int p in
      if (m <? 1) || (12 <? m)
      then Raise (ValueError ("Invalid month: " +:+ p))
      else month_tokens rest (out ++ [fmt_02d m])
  end.

Definition months_from_args (months : string) : result (list string) :=
  let months := str_strip months in
  if str_contains "-" months then
    match str_split "-" (Some 1%nat) months with
    | [start_s; end_s] =>
        let! start := py_int start_s in
        let! end_ := py_int end_s in
        if (start <? 1) || (12 <? end_) || (end_ <? start)
        then Raise (ValueError "Invalid month range. Example: 1-6 or 01-06")
        else Ok (fmt_02d <$> range_items start (end_ + 1) 1)
    | _ => Raise (ValueError "not enough values to unpack")
    end
  else
    let parts :=
      str_strip <$>
        List.filter (fun p => negb (str_is_empty (str_strip p)))
                    (str_split "," None months) in
    month_tokens parts [].

(** * The outside world *)

(** What [blob.upload_from_filename] does with a request: whether the object
    ends up in the bucket, and whether the call raises. *)
Record PutReply : Type := mkPutReply {
  put_stored : bool;
  put_error : option exception;
}.

(** What [urllib.request.urlretrieve] does: a file of some size is written,
    or the call raises, possibly leaving a partial file behind. *)
Inductive FetchReply : Type :=
  | Fetched (size : N)
  | FetchFails (e : exception) (partial : option N).

(** The three pauses of the scripts. *)
Inductive Pause : Type :=
  | DOWNLOAD_SLEEP_SECONDS
  | UPLOAD_SLEEP_SECONDS
  | RETRY_BACKOFF_SECONDS.

(** Calls made to the collaborators, in the order they were made.  Console
    output is not recorded. *)
Inductive Event : Type :=
  | EvExists (bucket key : string) (answer : option bool)
  | EvPut (path bucket key : string) (raised : bool)
  | EvRemove (path : string) (raised : bool)
  | EvFetch (url path : string) (raised : bool)
  | EvSleep (p : Pause)
  | EvInfra (call : string) (raised : bool)
  | EvLoad (uri table partition_field write_disposition : string) (raised : bool).

(** The world a script runs in.  [files] maps the paths of the local files
    to their sizes, [blobs] holds the (bucket, key) pairs of the stored
    objects.  The [*_replies] scripts say what the next calls to each
    collaborator do; [None] (and an exhausted script) is the fault-free
    behaviour.  [schedule] orders the results of each worker pool;
    [bq_client_project] is the project of the credentials and
    [project_buckets] the bucket ids [client.list_buckets()] lists;
    [refused_dataset_ids] holds the dataset ids that the constructor
    [bigquery.Dataset] does not accept. *)
Record World : Type := mkWorld {
  files : gmap string N;
  blobs : gset (string * string);
  exists_replies : list (option exception);
  put_replies : list PutReply;
  remove_replies : list (option exception);
  fetch_replies : list FetchReply;
  infra_replies : list (option exception);
  load_replies : list (option exception);
  schedule : list (list nat);
  bq_client_project : string;
  project_buckets : list string;
  log : list Event;
  refused_dataset_ids : gset string;
}.

Definition set_files (f : gmap string N) (w : World) : World :=
  mkWorld f (blobs w) (exists_replies w) (put_replies w) (remove_replies w)
    (fetch_replies w) (infra_replies w) (load_replies w) (schedule w)
    (bq_client_project w) (project_buckets w) (log w)
    (refused_dataset_ids w).
Definition set_blobs (b : gset (string * string)) (w : World) : World :=
  mkWorld (files w) b (exists_replies w) (put_replies w) (remove_replies w)
    (fetch_replies w) (infra_replies w) (load_replies w) (schedule w)
    (bq_client_project w) (project_buckets w) (log w)
    (refused_dataset_ids w).
Definition set_exists_replies (s : list (option exception)) (w : World) : World :=
  mkWorld (files w) (blobs w) s (put_replies w) (remove_replies w)
    (fetch_replies w) (infra_replies w) (load_replies w) (schedule w)
    (bq_client_project w) (project_buckets w) (log w)
    (refused_dataset_ids w).
Definition set_put_replies (s : list PutReply) (w : World) : World :=
  mkWorld (files w) (blobs w) (exists_replies w) s (remove_replies w)
    (fetch_replies w) (infra_replies w) (load_replies w) (schedule w)
    (bq_client_project w) (project_buckets w) (log w)
    (refused_dataset_ids w).
Definition set_remove_replies (s : list (option exception)) (w : World) : World :=
  mkWorld (files w) (blobs w) (exists_replies w) (put_replies w) s
    (fetch_replies w) (infra_replies w) (load_replies w) (schedule w)
    (bq_client_project w) (project_buckets w) (log w)
    (refused_dataset_ids w).
Definition set_fetch_replies (s : list FetchReply) (w : World) : World :=
  mkWorld (files w) (blobs w) (exists_replies w) (put_replies w)
    (remove_replies w) s (infra_replies w) (load_replies w) (schedule w)
    (bq_client_project w) (project_buckets w) (log w)
    (refused_dataset_ids w).
Definition set_infra_replies (s : list (option exception)) (w : World) : World :=
  mkWorld (files w) (blobs w) (exists_replies w) (put_replies w)
    (remove_replies w) (fetch_replies w) s (load_replies w) (schedule w)
    (bq_client_project w) (project_buckets w) (log w)
    (refused_dataset_ids w).
Definition set_load_replies (s : list (option exception)) (w : World) : World :=
  mkWorld (files w) (blobs w) (exists_replies w) (put_replies w)
    (remove_replies w) (fetch_replies w) (infra_replies w) s (schedule w)
    (bq_client_project w) (project_buckets w) (log w)
    (refused_dataset_ids w).
Definition set_schedule (s : list (list nat)) (w : World) : World :=
  mkWorld (files w) (blobs w) (exists_replies w) (put_replies w)
    (remove_replies w) (fetch_replies w) (infra_replies w) (load_replies w) s
    (bq_client_project w) (project_buckets w) (log w)
    (refused_dataset_ids w).
Definition set_project_buckets (ids : list string) (w : World) : World :=
  mkWorld (files w) (blobs w) (exists_replies w) (put_replies w)
    (remove_replies w) (fetch_replies w) (infra_replies w) (load_replies w)
    (schedule w) (bq_client_project w) ids (log w) (refused_dataset_ids w).
Definition set_refused_dataset_ids (ids : gset string) (w : World) : World :=
  mkWorld (files w) (blobs w) (exists_replies w) (put_replies w)
    (remove_replies w) (fetch_replies w) (infra_replies w) (load_replies w)
    (schedule w) (bq_client_project w) (project_buckets w) (log w) ids.
Definition record (ev : Event) (w : World) : World :=
  mkWorld (files w) (blobs w) (exists_replies w) (put_replies w)
    (remove_replies w) (fetch_replies w) (infra_replies w) (load_replies w)
    (schedule w) (bq_client_project w) (project_buckets w)
    (log w ++ [ev]) (refused_dataset_ids w).

(** A quiet world: nothing stored, nothing scripted. *)
Definition quiet_world : World :=
  mkWorld ∅ ∅ [] [] [] [] [] [] [] "" [] [] ∅.

(** ** The monad of the scripts: state and exceptions *)

Definition M (A : Type) : Type := World → result A * World.

Definition ret {A} (a : A) : M A := fun w => (Ok a, w).
Definition raise {A} (e : exn) : M A := fun w => (Raise e, w).
Definition bind {A B} (m : M A) (k : A → M B) : M B := fun w =>
  match m w with
  | (Ok a, w') => k a w'
  | (Raise e, w') => (Raise e, w')
  end.
Definition lift {A} (r : result A) : M A := fun w => (r, w).

Notation "'let*' x := e 'in' k" := (bind e (fun x => k))
  (at level 10, x name, e at level 100, k at level 200, only parsing).
Notation "e ;; k" := (bind e (fun _ => k))
  (at level 100, k at level 200, right associativity, only parsing).

(** [try: body  except Exception: handler] *)
Definition try_except {A} (body : M A) (handler : exception → M A) : M A :=
  fun w =>
    match body w with
    | (Raise (Exception e), w') => handler e w'
    | r => r
    end.

(** [for x in xs: body(x)] *)
Fixpoint for_each {A} (xs : list A) (body : A → M unit) : M unit :=
  match xs with
  | [] => ret tt
  | x :: rest => body x ;; for_each rest body
  end.

Definition next_reply {A} (dflt : A) (script : list A) : A * list A :=
  match script with
  | [] => (dflt, [])
  | a :: rest => (a, rest)
  end.

(** ** Collaborator calls *)

(** [time.sleep] *)
Definition sleep (p : Pause) : M unit := fun w => (Ok tt, record (EvSleep p) w).

(** [os.path.exists(path)] *)
Definition os_path_exists (path : string) : M bool := fun w =>
  (Ok (bool_decide (is_Some (files w !! path))), w).

(** [os.path.getsize(path)] *)
Definition os_path_getsize (path : string) : M N := fun w =>
  match files w !! path with
  | Some n => (Ok n, w)
  | None => (Raise (OSError "No such file or directory"), w)
  end.

(** [os.remove(path)] *)
Definition os_remove (path : string) : M unit := fun w =>
  let (reply, rest) := next_reply None (remove_replies w) in
  let w := set_remove_replies rest w in
  match reply with
  | Some e => (Raise e, record (EvRemove path true) w)
  | None =>
      match files w !! path with
      | Some _ =>
          (Ok tt, record (EvRemove path false) (set_files (delete path (files w)) w))
      | None =>
          (Raise (OSError "No such file or directory"),
           record (EvRemove path true) w)
      end
  end.

(** [urllib.request.urlretrieve(url, path)] *)
Definition urlretrieve (url path : string) : M unit := fun w =>
  let (reply, rest) := next_reply (Fetched 1) (fetch_replies w) in
  let w := set_fetch_replies rest w in
  match reply with
  | Fetched size =>
      (Ok tt, record (EvFetch url path false)
                (set_files (<[path := size]> (files w)) w))
  | FetchFails e partial =>
      let w := match partial with
               | Some size => set_files (<[path := size]> (files w)) w
               | None => w
               end in
      (Raise e, record (EvFetch url path true) w)
  end.

(** [bucket.blob(blob_name).exists(client)] *)
Definition blob_exists (bucket blob_name : string) : M bool := fun w =>
  let (reply, rest) := next_reply None (exists_replies w) in
  let w := set_exists_replies rest w in
  match reply with
  | Some e => (Raise e, record (EvExists bucket blob_name None) w)
  | None =>
      let b := bool_decide ((bucket, blob_name) ∈ blobs w) in
      (Ok b, record (EvExists bucket blob_name (Some b)) w)
  end.

(** [blob.upload_from_filename(file_path, timeout=600)] *)
Definition upload_from_filename (file_path bucket blob_name : string)
  : M unit := fun w =>
  let (reply, rest) := next_reply (mkPutReply true None) (put_replies w) in
  let w := set_put_replies rest w in
  match files w !! file_path with
  | None =>
      (Raise (OSError "No such file or directory"),
       record (EvPut file_path bucket blob_name true) w)
  | Some _ =>
      let w := if put_stored reply
               then set_blobs ({[ (bucket, blob_name) ]} ∪ blobs w) w
               else w in
      match put_error reply with
      | Some e => (Raise e, record (EvPut file_path bucket blob_name true) w)
      | None => (Ok tt, record (EvPut file_path bucket blob_name false) w)
      end
  end.

(** [bigquery.Dataset(dataset_id)]: the constructor parses the id and
    raises [ValueError] for one it does not accept, without any request.
    Which ids it accepts is the library's business: it is read from the
    world. *)
Definition new_dataset (dataset_id : string) : M unit := fun w =>
  if bool_decide (dataset_id ∈ refused_dataset_ids w)
  then (Raise (ValueError "invalid dataset ID"), w)
  else (Ok tt, w).

(** A call to the bucket or dataset administration API
    ([get_bucket], [create_bucket], [get_dataset], [create_dataset]). *)
Definition infra_call (call : string) : M unit := fun w =>
  let (reply, rest) := next_reply None (infra_replies w) in
  let w := set_infra_replies rest w in
  match reply with
  | Some e => (Raise e, record (EvInfra call true) w)
  | None => (Ok tt, record (EvInfra call false) w)
  end.

(** [bq_client.load_table_from_uri(...)] followed by [load_job.result()]:
    the load job run to its terminal state. *)
Definition run_load_job (uri table partition_field write_disposition : string)
  : M unit := fun w =>
  let (reply, rest) := next_reply None (load_replies w) in
  let w := set_load_replies rest w in
  match reply with
  | Some e =>
      (Raise e, record (EvLoad uri table partition_field write_disposition true) w)
  | None =>
      (Ok tt, record (EvLoad uri table partition_field write_disposition false) w)
  end.

(** ** Worker pools *)

Definition insert_at {A} (k : nat) (x : A) (l : list A) : list A :=
  take k l ++ x :: drop k l.

(** One arrangement of [l] per index script: every script gives a
    permutation and every permutation has a script. *)
Fixpoint shuffle {A} (ks : list nat) (l : list A) : list A :=
  match l with
  | [] => []
  | x :: l' =>
      match ks with
      | [] => x :: shuffle [] l'
      | k :: ks' => insert_at k x (shuffle ks' l')
      end
  end.

(** [ex.submit(task, x) for x in xs]: each task runs to completion, its
    return value or exception is kept in its future.  The tasks of one pool
    work on different files and keys, so they are run here one after the
    other, in submission order. *)
Fixpoint submit_all {A B} (task : A → M B) (xs : list A) : M (list (result B)) :=
  match xs with
  | [] => ret []
  | x :: rest =>
      fun w =>
        let (r, w') := task x w in
        (let* futs := submit_all task rest in ret (r :: futs)) w'
  end.

(** [as_completed(futures)]: the futures in the order they finished. *)
Definition as_completed {A} (futures : list A) : M (list A) := fun w =>
  let (ks, rest) := next_reply [] (schedule w) in
  (Ok (shuffle ks futures), set_schedule rest w).

(** Truth value of an [Optional[str]]. *)
Definition truthy (o : option string) : bool :=
  match o with
  | Some s => negb (str_is_empty s)
  | None => false
  end.

(** The collecting loop of both pools:
<<
    for fut in as_completed(futures):
        x = fut.result()
        if x:
            acc.append(x)
>> *)
Fixpoint collect (futs : list (result (option string))) (acc : list string)
  : result (list string) :=
  match futs with
  | [] => Ok acc
  | fut :: rest =>
      let! x := fut in
      collect rest (match x with
                    | Some s => if truthy x then acc ++ [s] else acc
                    | None => acc
                    end)
  end.

(** * Staging: code common to both programs *)

Definition DOWNLOAD_DIR : string := ".".

(** [os.path.join(a, b)] on POSIX. *)
Definition os_path_join (a b : string) : string :=
  match b with
  | String "/" _ => b
  | _ =>
      if str_is_empty a then b
      else if String.eqb (rstrip_by (fun c => Ascii.eqb c "/") a) a
           then a +:+ "/" +:+ b
           else a +:+ b
  end.

(**
<<
    def safe_remove_local(file_path: str) -> None:
        try:
            if file_path and os.path.exists(file_path):
                os.remove(file_path)
        except Exception as e:
            print(f"[cleanup] Could not delete {file_path}: {e}")
>> *)
Definition safe_remove_local (file_path : string) : M unit :=
  try_except
    (let* present :=
       (if str_is_empty file_path then ret false
        else os_path_exists file_path) in
     if present then os_remove file_path else ret tt)
    (fun e => ret tt).

(** [verify_gcs_upload(bucket, blob_name)] *)
Definition verify_gcs_upload (bucket blob_name : string) : M bool :=
  blob_exists bucket blob_name.

(** The retry loop of [upload_to_gcs], which the two programs share word for
    word but for the values they return: [success] where the code returns
    from inside the loop, [failure] after it. *)
Section upload_loop.
Context {R : Type}.
Variables (success failure : R).
Variables (file_path bucket blob_name : string).

(** One pass through the loop body; [Some v] when it returns [v], [None]
    when control reaches the end of the [try] statement. *)
Definition upload_attempt : M (option R) :=
  try_except
    (let* present := verify_gcs_upload bucket blob_name in
     if present then
       (safe_remove_local file_path ;;
        ret (Some success))
     else
       (upload_from_filename file_path bucket blob_name ;;
        let* verified := verify_gcs_upload bucket blob_name in
        if verified then
          (sleep UPLOAD_SLEEP_SECONDS ;;
           safe_remove_local file_path ;;
           ret (Some success))
        else ret None))
    (fun e => ret None).

(** [for attempt in range(max_retries): ...] over the values of
    [attempt] still to come. *)
Fixpoint upload_attempts (attempts : list Z) : M R :=
  match attempts with
  | [] => ret failure
  | _ :: rest =>
      let* r := upload_attempt in
      match r with
      | Some v => ret v
      | None => (sleep RETRY_BACKOFF_SECONDS ;; upload_attempts rest)
      end
  end.
End upload_loop.

(** * 03-data-warehouse/homework/load-yellow-taxi-data.py *)
Module Homework.
Section script.
(** [BUCKET_NAME = os.getenv("GCP_BUCKET_NAME")], checked non-empty when
    the module is loaded. *)
Variable BUCKET_NAME : string.

Definition BASE_URL : string :=
  "https://d37ci6vzurychx.cloudfront.net/trip-data/yellow_tripdata_2024-".

Definition MONTHS : list string := fmt_02d <$> range_items 1 7 1.

Definition create_bucket (bucket_name : string) : M unit :=
  if str_is_empty bucket_name || str_is_empty (str_strip bucket_name)
  then raise (ValueError "Bucket name is empty/invalid.")
  else fun w =>
    match
      (infra_call "get_bucket" ;;
       infra_call "list_buckets" ;;
       fun w =>
         if bool_decide (bucket_name ∈ project_buckets w)
         then (Ok tt, w)
         else (Raise (SystemExit 1), w)) w
    with
    | (Raise (Exception NotFound), w') => infra_call "create_bucket" w'
    | (Raise (Exception Forbidden), w') => (Raise (SystemExit 1), w')
    | r => r
    end.

Definition download_file (month : string) : M (option string) :=
  let url := BASE_URL +:+ month +:+ ".parquet" in
  let file_path :=
    os_path_join DOWNLOAD_DIR ("yellow_tripdata_2024-" +:+ month +:+ ".parquet") in
  try_except
    (let* present := os_path_exists file_path in
     let* nonempty :=
       (if present
        then (let* n := os_path_getsize file_path in ret (0 <? n)%N)
        else ret false) in
     if nonempty then ret (Some file_path)
     else
       (urlretrieve url file_path ;;
        sleep DOWNLOAD_SLEEP_SECONDS ;;
        ret (Some file_path)))
    (fun e => ret None).

(** [upload_to_gcs(file_path, max_retries=3) -> bool] *)
Definition upload_to_gcs (file_path : string) (max_retries : Z) : M bool :=
  let blob_name := basename file_path in
  upload_attempts true false file_path BUCKET_NAME blob_name
    (range_items 0 max_retries 1).

(** [success += int(ok)] over the finished uploads. *)
Fixpoint tally (futs : list (result bool)) (success : Z) : result Z :=
  match futs with
  | [] => Ok success
  | fut :: rest =>
      let! ok := fut in
      tally rest (success + (if ok then 1 else 0))
  end.

(** The download phase of the script body: the pool, and the loop that
    collects [downloaded_files]. *)
Definition download_all : M (list string) :=
  let* futures := submit_all download_file MONTHS in
  let* finished := as_completed futures in
  lift (collect finished []).

(** The upload phase; its value is the count [success]. *)
Definition upload_all (downloaded_files : list string) : M Z :=
  let* futures :=
    submit_all (fun fp => upload_to_gcs fp 3) downloaded_files in
  let* finished := as_completed futures in
  lift (tally finished 0).

(** The script body under [if __name__ == "__main__"].  Its value is the
    count [success] that the last line prints. *)
Definition main : M Z :=
  create_bucket BUCKET_NAME ;;
  let* downloaded_files := download_all in
  match downloaded_files with
  | [] => raise (SystemExit 1)
  | _ => upload_all downloaded_files
  end.
End script.
End Homework.

(** * 04-analytics-engineering/setup/load_taxi_to_gcs_bq.py *)
Module Pipeline.

Definition get_partition_field (taxi_type : string) : result string :=
  let taxi_type := str_lower taxi_type in
  if String.eqb taxi_type "yellow" then Ok "tpep_dropoff_datetime"
  else if String.eqb taxi_type "green" then Ok "lpep_dropoff_datetime"
  else Raise (ValueError "taxi_type must be 'yellow' or 'green'").

Definition get_base_url (taxi_type : string) (year : Z) : result string :=
  let taxi_type := str_lower taxi_type in
  if negb (String.eqb taxi_type "yellow" || String.eqb taxi_type "green")
  then Raise (ValueError "taxi_type must be 'yellow' or 'green'")
  else Ok ("https://github.com/DataTalksClub/nyc-tlc-data/releases/download/"
           +:+ taxi_type +:+ "/" +:+ taxi_type +:+ "_tripdata_"
           +:+ py_str year +:+ "-").

Definition ensure_bucket (bucket_name : string) : M unit :=
  if str_is_empty bucket_name || str_is_empty (str_strip bucket_name)
  then raise (ValueError "Bucket name is empty/invalid.")
  else fun w =>
    match infra_call "get_bucket" w with
    | (Raise (Exception NotFound), w') => infra_call "create_bucket" w'
    | (Raise (Exception Forbidden), w') => (Raise (SystemExit 1), w')
    | r => r
    end.

(**
<<
    def ensure_bq_dataset(project_id, dataset_id, location="US"):
        dataset_ref = bigquery.Dataset(f"{project_id}.{dataset_id}")
        dataset_ref.location = location
        try:
            bq_client.get_dataset(dataset_ref)
        except NotFound:
            bq_client.create_dataset(dataset_ref)
>>
    The constructor is called before the [try]: what it raises is not
    caught here. *)
Definition ensure_bq_dataset (project_id dataset_id location : string)
  : M unit :=
  new_dataset (project_id +:+ "." +:+ dataset_id) ;;
  fun w =>
    match infra_call "get_dataset" w with
    | (Raise (Exception NotFound), w') => infra_call "create_dataset" w'
    | r => r
    end.

Definition download_file (taxi_type : string) (year : Z) (month : string)
  : M (option string) :=
  let* base_url := lift (get_base_url taxi_type year) in
  let url := base_url +:+ month +:+ ".csv.gz" in
  let filename :=
    taxi_type +:+ "_tripdata_" +:+ py_str year +:+ "-" +:+ month +:+ ".csv.gz" in
  let file_path := os_path_join DOWNLOAD_DIR filename in
  try_except
    (let* present := os_path_exists file_path in
     let* nonempty :=
       (if present
        then (let* n := os_path_getsize file_path in ret (0 <? n)%N)
        else ret false) in
     if nonempty then ret (Some file_path)
     else
       (urlretrieve url file_path ;;
        sleep DOWNLOAD_SLEEP_SECONDS ;;
        ret (Some file_path)))
    (fun e => ret None).

(** The object key [upload_to_gcs] derives from a local path and a
    prefix: [f"{prefix}/{filename}" if prefix else filename]. *)
Definition blob_name_of (file_path gcs_prefix : string) : string :=
  let filename := basename file_path in
  let prefix := str_strip_chars "/" gcs_prefix in
  if str_is_empty prefix then filename else prefix +:+ "/" +:+ filename.

(** [f"gs://{bucket_name}/{blob_name}"] *)
Definition gs_uri (bucket_name blob_name : string) : string :=
  "gs://" +:+ bucket_name +:+ "/" +:+ blob_name.

(** [upload_to_gcs(file_path, bucket_name, gcs_prefix="", max_retries=3)
    -> Optional[str]] *)
Definition upload_to_gcs (file_path bucket_name gcs_prefix : string)
    (max_retries : Z) : M (option string) :=
  let blob_name := blob_name_of file_path gcs_prefix in
  upload_attempts (Some (gs_uri bucket_name blob_name)) None
    file_path bucket_name blob_name (range_items 0 max_retries 1).

(** [bigquery.SchemaField(name, field_type, description=...)] *)
Record SchemaField : Type := mkSchemaField {
  name : string;
  field_type : string;
  description : string;
}.

Definition green_schema : list SchemaField := [
  mkSchemaField "VendorID" "STRING"
    "A code indicating the LPEP provider that provided the record. 1= Creative Mobile Technologies, LLC; 2= VeriFone Inc.";
  mkSchemaField "lpep_pickup_datetime" "TIMESTAMP"
    "The date and time when the meter was engaged";
  mkSchemaField "lpep_dropoff_datetime" "TIMESTAMP"
    "The date and time when the meter was disengaged";
  mkSchemaField "store_and_fwd_flag" "STRING"
    "Y= store and forward trip N= not a store and forward trip";
  mkSchemaField "RatecodeID" "STRING"
    "The final rate code in effect at the end of the trip. 1= Standard rate 2=JFK 3=Newark 4=Nassau or Westchester 5=Negotiated fare 6=Group ride";
  mkSchemaField "PULocationID" "STRING"
    "TLC Taxi Zone in which the taximeter was engaged";
  mkSchemaField "DOLocationID" "STRING"
    "TLC Taxi Zone in which the taximeter was disengaged";
  mkSchemaField "passenger_count" "INT64"
    "The number of passengers in the vehicle. This is a driver-entered value.";
  mkSchemaField "trip_distance" "NUMERIC"
    "The elapsed trip distance in miles reported by the taximeter.";
  mkSchemaField "fare_amount" "NUMERIC"
    "The time-and-distance fare calculated by the meter";
  mkSchemaField "extra" "NUMERIC"
    "Miscellaneous extras and surcharges. Currently, this only includes the $0.50 and $1 rush hour and overnight charges";
  mkSchemaField "mta_tax" "NUMERIC"
    "$0.50 MTA tax that is automatically triggered based on the metered rate in use";
  mkSchemaField "tip_amount" "NUMERIC"
    "Tip amount. This field is automatically populated for credit card tips. Cash tips are not included.";
  mkSchemaField "tolls_amount" "NUMERIC"
    "Total amount of all tolls paid in trip.";
  mkSchemaField "ehail_fee" "NUMERIC" EmptyString;
  mkSchemaField "improvement_surcharge" "NUMERIC"
    "$0.30 improvement surcharge assessed on hailed trips at the flag drop. The improvement surcharge began being levied in 2015.";
  mkSchemaField "total_amount" "NUMERIC"
    "The total amount charged to passengers. Does not include cash tips.";
  mkSchemaField "payment_type" "INT64"
    "1= Credit card 2= Cash 3= No charge 4= Dispute 5= Unknown 6= Voided trip";
  mkSchemaField "trip_type" "STRING"
    "1= Street-hail 2= Dispatch";
  mkSchemaField "congestion_surcharge" "NUMERIC"
    "Congestion surcharge applied to trips in congested zones"
].

Definition yellow_schema : list SchemaField := [
  mkSchemaField "VendorID" "STRING"
    "A code indicating the LPEP provider that provided the record. 1= Creative Mobile Technologies, LLC; 2= VeriFone Inc.";
  mkSchemaField "tpep_pickup_datetime" "TIMESTAMP"
    "The date and time when the meter was engaged";
  mkSchemaField "tpep_dropoff_datetime" "TIMESTAMP"
    "The date and time when the meter was disengaged";
  mkSchemaField "passenger_count" "INT64"
    "The number of passengers in the vehicle. This is a driver-entered value.";
  mkSchemaField "trip_distance" "NUMERIC"
    "The elapsed trip distance in miles reported by the taximeter.";
  mkSchemaField "RatecodeID" "STRING"
    "The final rate code in effect at the end of the trip. 1= Standard rate 2=JFK 3=Newark 4=Nassau or Westchester 5=Negotiated fare 6=Group ride";
  mkSchemaField "store_and_fwd_flag" "STRING"
    "TRUE = store and forward trip, FALSE = not a store and forward trip";
  mkSchemaField "PULocationID" "STRING"
    "TLC Taxi Zone in which the taximeter was engaged";
  mkSchemaField "DOLocationID" "STRING"
    "TLC Taxi Zone in which the taximeter was disengaged";
  mkSchemaField "payment_type" "INT64"
    "1= Credit card 2= Cash 3= No charge 4= Dispute 5= Unknown 6= Voided trip";
  mkSchemaField "fare_amount" "NUMERIC"
    "The time-and-distance fare calculated by the meter";
  mkSchemaField "extra" "NUMERIC"
    "Miscellaneous extras and surcharges.";
  mkSchemaField "mta_tax" "NUMERIC"
    "$0.50 MTA tax that is automatically triggered based on the metered rate in use";
  mkSchemaField "tip_amount" "NUMERIC"
    "Tip amount (credit card only). Cash tips are not included.";
  mkSchemaField "tolls_amount" "NUMERIC"
    "Total amount of all tolls paid in trip.";
  mkSchemaField "improvement_surcharge" "NUMERIC"
    "$0.30 improvement surcharge assessed on hailed trips at the flag drop.";
  mkSchemaField "total_amount" "NUMERIC"
    "The total amount charged to passengers. Does not include cash tips.";
  mkSchemaField "congestion_surcharge" "NUMERIC"
    "Congestion surcharge applied to trips in congested zones"
].

Definition get_bq_schema (taxi_type : string) : result (list SchemaField) :=
  let taxi_type := str_lower taxi_type in
  if String.eqb taxi_type "green" then Ok green_schema
  else if String.eqb taxi_type "yellow" then Ok yellow_schema
  else Raise (ValueError "taxi_type must be 'yellow' or 'green'").

(** [load_csv_to_bq(...)]: one load job, waited for, then the row count of
    the destination table is read back. *)
Definition load_csv_to_bq (project_id dataset_id table_id gcs_uri
    partition_field : string) (schema : list SchemaField)
    (write_disposition : string) : M unit :=
  let full_table := project_id +:+ "." +:+ dataset_id +:+ "." +:+ table_id in
  run_load_job gcs_uri full_table partition_field write_disposition ;;
  infra_call "get_table".

(** The parsed command line. *)
Record Args : Type := mkArgs {
  taxi_type : string;
  year : Z;
  months : string;
  bucket : string;
  gcs_prefix : string;
  bq_project : option string;
  bq_dataset : string;
  bq_location : string;
  write_disposition : string;
}.

(** What [main] has settled when the batch loop starts. *)
Record Config : Type := mkConfig {
  cfg_partition_field : string;
  cfg_schema : list SchemaField;
  cfg_bq_project : string;
  cfg_months : list string;
}.

(** [main], from [args = parser.parse_args()] to the run-config banner. *)
Definition configure (args : Args) : M Config :=
  let bucket_name := bucket args in
  let* partition_field := lift (get_partition_field (taxi_type args)) in
  let* schema := lift (get_bq_schema (taxi_type args)) in
  let* project :=
    (if truthy (bq_project args)
     then ret (default EmptyString (bq_project args))
     else fun w => (Ok (bq_client_project w), w)) in
  let* months := lift (months_from_args (months args)) in
  ensure_bucket bucket_name ;;
  ensure_bq_dataset project (bq_dataset args) (bq_location args) ;;
  ret (mkConfig partition_field schema project months).

(** [for month_batch in chunked(months, size=3): ...] over the batches
    still to come.  [uploaded_uris] is the list of the source;
    [retrieved] is a ghost list of every path a download returned. *)
Fixpoint run_batches (args : Args) (batches : list (list string))
    (retrieved uploaded_uris : list string)
  : M (list string * list string) :=
  match batches with
  | [] => ret (retrieved, uploaded_uris)
  | month_batch :: rest =>
      let* futures :=
        submit_all (download_file (taxi_type args) (year args)) month_batch in
      let* finished := as_completed futures in
      let* downloaded_files := lift (collect finished []) in
      match downloaded_files with
      | [] => run_batches args rest retrieved uploaded_uris
      | _ =>
          let* futures :=
            submit_all
              (fun fp => upload_to_gcs fp (bucket args) (gcs_prefix args) 3)
              downloaded_files in
          let* finished := as_completed futures in
          let* uploaded_uris := lift (collect finished uploaded_uris) in
          run_batches args rest (retrieved ++ downloaded_files) uploaded_uris
      end
  end.

(** [for uri in sorted(uploaded_uris): load_csv_to_bq(...)] *)
Definition load_all (args : Args) (cfg : Config) (uploaded_uris : list string)
  : M unit :=
  let table_id := taxi_type args +:+ "_tripdata" in
  for_each (sorted uploaded_uris) (fun uri =>
    load_csv_to_bq (cfg_bq_project cfg) (bq_dataset args) table_id uri
      (cfg_partition_field cfg) (cfg_schema cfg) (write_disposition args)).

Definition main (args : Args) : M unit :=
  let* cfg := configure args in
  let* batches := lift (chunked (cfg_months cfg) 3) in
  let* staged := run_batches args batches [] [] in
  match staged.2 with
  | [] => raise (SystemExit 1)
  | uploaded_uris => load_all args cfg uploaded_uris
  end.

End Pipeline.

(** * Exit status *)

(** The status the interpreter exits with: [0] when the script runs to its
    end, the argument of [sys.exit], [1] for an uncaught exception. *)
Definition exit_code {A} (r : result A) : Z :=
  match r with
  | Ok _ => 0
  | Raise (SystemExit c) => c
  | Raise (Exception _) => 1
  end.

(** The loads a run issued, read off its log. *)
Definition loads_issued (l : list Event) : list string :=
  omap (fun ev => match ev with
                  | EvLoad uri _ _ _ _ => Some uri
                  | _ => None
                  end) l.

Definition is_put (ev : Event) : bool :=
  match ev with EvPut _ _ _ _ => true | _ => false end.
Definition is_exists (ev : Event) : bool :=
  match ev with EvExists _ _ _ => true | _ => false end.
Definition is_remove (ev : Event) : bool :=
  match ev with EvRemove _ _ => true | _ => false end.
Definition is_backoff (ev : Event) : bool :=
  match ev with EvSleep RETRY_BACKOFF_SECONDS => true | _ => false end.
Definition is_verified (bucket key : string) (ev : Event) : bool :=
  match ev with
  | EvExists b k (Some true) => String.eqb b bucket && String.eqb k key
  | _ => false
  end.

Definition count (p : Event → bool) (l : list Event) : Z :=
  len (List.filter p l).

(** * Vocabulary of the statements *)

(** The value of a string of decimal digits. *)
Fixpoint digits_value (s : string) (acc : Z) : Z :=
  match s with
  | EmptyString => acc
  | String c s' => digits_value s' (10 * acc + digit_val c)
  end.

(** A numeral as the usage text of [--months] writes them: one or more
    decimal digits, so [1] and [01] alike.  Recent interpreters refuse to
    convert more than 4300 digits, so longer strings are left out. *)
Definition is_numeral (s : string) : Prop :=
  s ≠ EmptyString ∧ str_forall py_isdigit s = true ∧
  (String.length s ≤ 4300)%nat.

Definition numeral_value (s : string) : Z := digits_value s 0.

Definition is_month (m : Z) : bool := (1 <=? m) && (m <=? 12).

(** The twelve month tokens [01] ... [12]. *)
Definition month_token (t : string) : Prop :=
  ∃ m, 1 ≤ m ≤ 12 ∧ t = fmt_02d m ∧ String.length t = 2%nat.

Definition range_error : result (list string) :=
  Raise (ValueError "Invalid month range. Example: 1-6 or 01-06").

(** The events a run added to the log. *)
Definition events_since (w w' : World) : list Event :=
  drop (length (log w)) (log w').

(** The existence check answered that [key] is present in [bucket]. *)
Definition verified (bucket key : string) (evs : list Event) : Prop :=
  EvExists bucket key (Some true) ∈ evs.

(** The local file [path] existed before and is gone after. *)
Definition deleted (path : string) (w w' : World) : Prop :=
  is_Some (files w !! path) ∧ files w' !! path = None.

(** What [safe_remove_local] can do to the world: nothing, delete the
    file, or fail to delete it. *)
Inductive cleanup : string → World → World → list Event → Prop :=
  | cleanup_skip path w :
      path = EmptyString ∨ files w !! path = None →
      cleanup path w w []
  | cleanup_done path w rest :
      path ≠ EmptyString → is_Some (files w !! path) →
      next_reply None (remove_replies w) = (None, rest) →
      cleanup path w
        (record (EvRemove path false)
           (set_files (delete path (files w)) (set_remove_replies rest w)))
        [EvRemove path false]
  | cleanup_failed path w e rest :
      path ≠ EmptyString → is_Some (files w !! path) →
      next_reply None (remove_replies w) = (Some e, rest) →
      cleanup path w
        (record (EvRemove path true) (set_remove_replies rest w))
        [EvRemove path true].

(** Whitespace or a comma. *)
Definition blank_char (c : ascii) : bool := py_isspace c || Ascii.eqb c ",".

(** What one pass through the loop body of [upload_to_gcs] guarantees: the
    log grows by one or two existence checks, at most one upload and no
    back-off pause; a pass that does not return leaves the local files alone
    and saw no positive check; a pass that returns saw one, and ends with
    the cleanup of the local file. *)
Definition attempt_post {R} (success : R) (path bucket key : string)
    (w : World) (r : option R) (w' : World) : Prop :=
  ∃ evs,
    log w' = log w ++ evs ∧
    count is_put evs ≤ 1 ∧ 1 ≤ count is_exists evs ≤ 2 ∧
    count is_backoff evs = 0 ∧
    match r with
    | None =>
        ¬ verified bucket key evs ∧ files w' = files w ∧
        count is_remove evs = 0
    | Some v =>
        v = success ∧ verified bucket key evs ∧
        ∃ w1 evs0 evs1,
          evs = evs0 ++ evs1 ∧ count is_remove evs0 = 0 ∧
          files w1 = files w ∧ cleanup path w1 w' evs1
    end ∧
    ((bucket, key) ∈ blobs w →
       count is_put evs = 0 ∧ blobs w' = blobs w ∧
       ((next_reply None (exists_replies w)).1 = None → r ≠ None)).

(** What the retry loop of [upload_to_gcs] guarantees when it is given [n]
    attempts.  The log grows by at most [n] uploads and [2 n] existence
    checks.  Either a check answered that the object is present: the loop
    returned [success] within [n] passes, and the last thing it did was the
    cleanup of the local file; or none did: the loop made all [n] passes,
    each followed by the back-off pause, returned [failure] and left the
    local files alone.  When the object was present from the start nothing
    is uploaded, and an answered first check is enough to succeed. *)
Definition staging_post {R} (success failure : R) (path bucket key : string)
    (n : Z) (w : World) (r : R) (w' : World) : Prop :=
  ∃ evs,
    log w' = log w ++ evs ∧
    count is_put evs ≤ n ∧ count is_exists evs ≤ 2 * n ∧
    ((verified bucket key evs ∧ r = success ∧
      count is_backoff evs + 1 ≤ n ∧
      ∃ w1 evs0 evs1,
        evs = evs0 ++ evs1 ∧ count is_remove evs0 = 0 ∧
        files w1 = files w ∧ cleanup path w1 w' evs1)
     ∨
     (¬ verified bucket key evs ∧ r = failure ∧
      count is_backoff evs = n ∧ files w' = files w ∧
      count is_remove evs = 0 ∧ n ≤ count is_exists evs)) ∧
    ((bucket, key) ∈ blobs w →
       count is_put evs = 0 ∧ blobs w' = blobs w ∧
       (0 < n → (next_reply None (exists_replies w)).1 = None →
        verified bucket key evs)).

(** ** Sample inputs *)

Definition sample_path : string := "./yellow_tripdata_2024-01.csv.gz".
Definition sample_key : string := "yellow_tripdata_2024-01.csv.gz".

(** One downloaded file on disk, and its object already in the bucket. *)
Definition staged_world : World :=
  set_blobs {[ ("bucket", sample_key) ]}
    (set_files {[ sample_path := 1024%N ]} quiet_world).

(** One downloaded file on disk, an empty bucket. *)
Definition fetched_world : World :=
  set_files {[ sample_path := 1024%N ]} quiet_world.

(** ** The staging properties, as the specification words them *)

(** "Staging a WorkItem whose RemoteArtifact already exists performs zero
    transfer calls, still returns the RemoteArtifact, and deletes any local
    copy." *)
Definition idempotent_staging (path bucket prefix : string) (max_retries : Z)
    (w : World) : Prop :=
  let key := Pipeline.blob_name_of path prefix in
  (bucket, key) ∈ blobs w →
  let (r, w') := Pipeline.upload_to_gcs path bucket prefix max_retries w in
  count is_put (events_since w w') = 0 ∧
  r = Ok (Some (Pipeline.gs_uri bucket key)) ∧
  files w' !! path = None.

(** "A LocalArtifact is deleted iff its RemoteArtifact is verified
    present." *)
Definition deleted_iff_verified (path bucket prefix : string) (max_retries : Z)
    (w : World) : Prop :=
  let key := Pipeline.blob_name_of path prefix in
  let (r, w') := Pipeline.upload_to_gcs path bucket prefix max_retries w in
  deleted path w w' ↔ verified bucket key (events_since w w').

(** ** Runs and their logs *)

(** The log of [w'] continues the log of [w]. *)
Definition extends (w w' : World) : Prop := ∃ evs, log w' = log w ++ evs.

(** A computation that only ever appends to the log. *)
Definition grows {A} (m : M A) : Prop := ∀ w, extends w (m w).2.

(** A computation that returns normally or raises an [Exception], never
    [SystemExit]. *)
Definition no_exit {A} (m : M A) : Prop :=
  ∀ w code, (m w).1 ≠ Raise (SystemExit code).

(** A computation that always returns normally. *)
Definition returns {A} (m : M A) : Prop := ∀ w, ∃ a, (m w).1 = Ok a.

(** Some existence check of the run found its object: something was
    staged. *)
Definition staged_in (evs : list Event) : Prop :=
  ∃ bucket key, EvExists bucket key (Some true) ∈ evs.

Definition is_staged (ev : Event) : bool :=
  match ev with
  | EvExists _ _ (Some true) => true
  | _ => false
  end.

Definition no_faults (replies : list (option exception)) : Prop :=
  Forall (fun reply => reply = None) replies.

(** "Process exit signal: non-zero if ... zero were staged", for a script
    [run] started in the world [w]. *)
Definition nonzero_exit_when_nothing_staged {A} (run : M A) (w : World)
  : Prop :=
  let (r, w') := run w in
  ¬ staged_in (events_since w w') → exit_code r ≠ 0.

(** The bucket of the project is there, six months can be fetched, and
    every transfer to the bucket fails. *)
Definition failing_uploads_world : World :=
  set_put_replies
    (replicate 18 (mkPutReply false (Some (TransportError "Connection reset"))))
    (set_project_buckets ["bucket"] quiet_world).

Definition sample_args : Pipeline.Args :=
  Pipeline.mkArgs "yellow" 2024 "1-6" "bucket" "raw/yellow/2024"
    (Some "project") "dataset" "US" "WRITE_APPEND".

Definition blank_args : Pipeline.Args :=
  Pipeline.mkArgs "yellow" 2024 "" "bucket" "" (Some "project")
    "dataset" "US" "WRITE_APPEND".

Definition blank_config : Pipeline.Config :=
  Pipeline.mkConfig "tpep_dropoff_datetime" Pipeline.yellow_schema "project" [].

Definition sample_config : Pipeline.Config :=
  Pipeline.mkConfig "tpep_dropoff_datetime" Pipeline.yellow_schema "project"
    ["01"; "02"; "03"; "04"; "05"; "06"].

(** The values the collecting loop keeps. *)
Definition kept (b : option string) : option string :=
  if truthy b then b else None.

(** The body of the load loop of [main], as a function of the URI. *)
Definition load_with (project dataset table field : string)
    (schema : list Pipeline.SchemaField) (disposition : string)
    (uri : string) : M unit :=
  Pipeline.load_csv_to_bq project dataset table uri field schema disposition.

(** * Further vocabulary *)

(** What a run of the retry loop of [upload_to_gcs] may change besides its
    own file: the bucket only gains objects, and at most the one under
    [key]; a run that returned from inside the loop ([returned]) leaves that
    object in the bucket; with no local file and no object there is nothing
    to stage; no other local file is touched. *)
Definition staging_frame (path bucket key : string) (w w' : World)
    (returned : bool) : Prop :=
  blobs w ⊆ blobs w' ∧
  blobs w' ⊆ {[ (bucket, key) ]} ∪ blobs w ∧
  (returned = true → (bucket, key) ∈ blobs w') ∧
  (files w !! path = None → (bucket, key) ∉ blobs w →
   returned = false ∧ blobs w' = blobs w) ∧
  (∀ p, p ≠ path → files w' !! p = files w !! p).

(** Nothing is scripted to go wrong with the bucket or with removals. *)
Definition staging_quiet (w : World) : Prop :=
  exists_replies w = [] ∧ put_replies w = [] ∧ remove_replies w = [].

(** The local path [download_file] of the pipeline works on:
    [os.path.join(DOWNLOAD_DIR, f"{taxi_type}_tripdata_{year}-{month}.csv.gz")]. *)
Definition download_name (taxi_type : string) (year : Z) (month : string)
  : string :=
  taxi_type +:+ "_tripdata_" +:+ py_str year +:+ "-" +:+ month +:+ ".csv.gz".

Definition download_path (taxi_type : string) (year : Z) (month : string)
  : string :=
  os_path_join DOWNLOAD_DIR (download_name taxi_type year month).

(** The local path of the homework script. *)
Definition homework_path (month : string) : string :=
  os_path_join DOWNLOAD_DIR ("yellow_tripdata_2024-" +:+ month +:+ ".parquet").

(** A kind the pipeline accepts: [yellow] or [green] in any casing. *)
Definition valid_kind (taxi_type : string) : Prop :=
  str_lower taxi_type = "yellow" ∨ str_lower taxi_type = "green".

(** The local file [path] is there and is not empty. *)
Definition on_disk (path : string) (w : World) : Prop :=
  ∃ size, files w !! path = Some size ∧ (0 < size)%N.

(** [w'] is a later state of a run that has only fetched and staged since
    [w]: the bucket has lost no object, and the log has grown by events none
    of which is a load. *)
Definition staging_step (w w' : World) : Prop :=
  blobs w ⊆ blobs w' ∧
  ∃ evs, log w' = log w ++ evs ∧ loads_issued evs = [].

(** A computation that only fetches and stages. *)
Definition stages {A} (m : M A) : Prop := ∀ w, staging_step w (m w).2.

(** The name is empty or blank, as [ensure_bucket] and [create_bucket]
    test it: [not bucket_name or not bucket_name.strip()]. *)
Definition blank_name (bucket_name : string) : Prop :=
  str_is_empty bucket_name || str_is_empty (str_strip bucket_name) = true.

(** An event that, if it is a load, writes to [table], partitioned on
    [field], with the write disposition [disposition]. *)
Definition loads_into (table field disposition : string) (ev : Event)
  : Prop :=
  match ev with
  | EvLoad _ t f d _ => t = table ∧ f = field ∧ d = disposition
  | _ => True
  end.

(** The answer the script keeps for the [n]-th call to the administration
    API, counted from 0: [None] when the call succeeds, which is also what
    happens once the script is exhausted. *)
Definition reply_at (n : nat) (script : list (option exception))
  : option exception :=
  default None (script !! n).

(** The run made a call to [call] of the administration API. *)
Definition called (call : string) (evs : list Event) : Prop :=
  ∃ raised, EvInfra call raised ∈ evs.

(** * Properties *)

(** ** Batching *)

Section chunks.
Context {A : Type}.
Implicit Types (lst : list A) (b n k : nat).

Lemma block_succ b lst k : block b lst (S k) = block b (drop b lst) k.
Proof. unfold block. by rewrite drop_drop. Qed.

Lemma concat_blocks b n : ∀ lst,
  (length lst ≤ n * b)%nat → concat (block b lst <$> seq 0 n) = lst.
Proof.
  induction n as [|n IH]; intros lst Hlen.
  - destruct lst; simpl in *; [done | lia].
  - rewrite <- cons_seq, <- fmap_S_seq. simpl.
    rewrite <- list_fmap_compose.
    rewrite (list_fmap_ext _ (block b (drop b lst)) (seq 0 n))
      by (intros; apply block_succ).
    rewrite IH.
    + unfold block. simpl. rewrite drop_0. apply take_drop.
    + rewrite length_drop. lia.
Qed.

Lemma slice_block lst (b : Z) k :
  0 < b →
  slice lst (Z.of_nat k * b) (Z.of_nat k * b + b) = block (Z.to_nat b) lst k.
Proof.
  intros Hb. unfold slice, slice_bound, block, len.
  assert (Hk : (k * Z.to_nat b)%nat = Z.to_nat (Z.of_nat k * b)) by nia.
  rewrite Hk.
  destruct (Z.ltb_spec (Z.of_nat k * b) 0); [nia|].
  destruct (Z.ltb_spec (Z.of_nat k * b + b) 0); [nia|].
  destruct (Z.le_gt_cases (Z.of_nat k * b) (Z.of_nat (length lst))) as [Hle|Hgt].
  - rewrite (Z.min_l (Z.of_nat k * b)) by lia.
    destruct (Z.le_gt_cases (Z.of_nat k * b + b) (Z.of_nat (length lst))).
    + rewrite Z.min_l by lia. f_equal. lia.
    + rewrite Z.min_r by lia.
      rewrite !take_ge; [done | rewrite length_drop; lia ..].
  - rewrite !Z.min_r by lia.
    rewrite !drop_ge by lia. by rewrite !take_nil.
Qed.
End chunks.

Lemma range_len_chunks (L b : Z) :
  0 ≤ L → 0 < b → Z.of_nat (range_len 0 L b) = ceil_div L b.
Proof.
  intros HL Hb. unfold range_len, ceil_div.
  destruct (Z.ltb_spec 0 b); [|lia].
  rewrite Z2Nat.id by (apply Z.div_pos; lia).
  replace (L - 0 + b - 1) with (L + b - 1) by lia.
  assert (H1 := Z.div_mod (L + b - 1) b ltac:(lia)).
  assert (H2 := Z.mod_pos_bound (L + b - 1) b Hb).
  assert (H3 := Z.div_mod (- L) b ltac:(lia)).
  assert (H4 := Z.mod_pos_bound (- L) b Hb).
  nia.
Qed.

Lemma ceil_div_cover (L b : Z) : 0 < b → L ≤ ceil_div L b * b.
Proof.
  intros Hb. unfold ceil_div.
  assert (H3 := Z.div_mod (- L) b ltac:(lia)).
  assert (H4 := Z.mod_pos_bound (- L) b Hb).
  nia.
Qed.

(** C4. For a positive batch size, [chunked] yields contiguous slices of the
    input in its order: batch [k] is the items from [k * batchSize] up to the
    next multiple, none is empty or longer than [batchSize], their
    concatenation is the input, and there are [ceil(L / batchSize)] of them. *)
Theorem chunked_partition {A} (allItems : list A) (batchSize : Z) :
  0 < batchSize →
  ∃ batches,
    chunked allItems batchSize = Ok batches ∧
    concat batches = allItems ∧
    len batches = ceil_div (len allItems) batchSize ∧
    ∀ k batch, batches !! k = Some batch →
      batch = take (Z.to_nat batchSize) (drop (k * Z.to_nat batchSize) allItems) ∧
      0 < len batch ≤ batchSize.
Proof.
  intros Hb. unfold chunked, py_range.
  destruct (Z.eqb_spec batchSize 0) as [->|_]; [lia|]. simpl.
  eexists; split; [reflexivity|].
  unfold range_items. rewrite <- list_fmap_compose.
  set (n := range_len 0 (len allItems) batchSize).
  assert (Hn : Z.of_nat n = ceil_div (len allItems) batchSize)
    by (apply range_len_chunks; unfold len; lia).
  assert (Hcover := ceil_div_cover (len allItems) batchSize Hb).
  rewrite (list_fmap_ext _ (block (Z.to_nat batchSize) allItems) (seq 0 n)).
  2:{ intros i k _. simpl. rewrite Z.add_0_l. by apply slice_block. }
  split; [|split].
  - apply concat_blocks. unfold len in *. nia.
  - unfold len. by rewrite length_fmap, length_seq.
  - intros k batch Hk.
    apply list_lookup_fmap_Some in Hk as (i & -> & Hi).
    apply lookup_seq in Hi as [-> Hlt]. simpl.
    split; [done|]. unfold block, len.
    rewrite length_take, length_drop.
    assert (Hmin : ceil_div (len allItems) batchSize * batchSize < len allItems + batchSize).
    { unfold ceil_div.
      assert (H3 := Z.div_mod (- len allItems) batchSize ltac:(lia)).
      assert (H4 := Z.mod_pos_bound (- len allItems) batchSize Hb). nia. }
    unfold len in *. nia.
Qed.

Lemma chunked_partition_witness :
  0 < 3 ∧
  ∃ batches,
    chunked ["01"; "02"; "03"; "04"; "05"; "06"; "07"] 3 = Ok batches ∧
    concat batches = ["01"; "02"; "03"; "04"; "05"; "06"; "07"] ∧
    len batches = 3.
Proof.
  split; [lia|].
  destruct (chunked_partition ["01"; "02"; "03"; "04"; "05"; "06"; "07"] 3)
    as (batches & H1 & H2 & H3 & _); [lia|].
  exists batches. split; [exact H1|]. split; [exact H2|]. exact H3.
Defined.

(** ** Partition field and schema *)

Section schema.
Import Pipeline.


Lemma partition_field_cases taxi_type f :
  get_partition_field taxi_type = Ok f →
  (str_lower taxi_type = "yellow" ∧ f = "tpep_dropoff_datetime") ∨
  (str_lower taxi_type = "green" ∧ f = "lpep_dropoff_datetime").
Proof.
  unfold get_partition_field.
  destruct (String.eqb_spec (str_lower taxi_type) "yellow") as [Hy|_].
  - intros [= <-]. by left.
  - destruct (String.eqb_spec (str_lower taxi_type) "green") as [Hg|_].
    + intros [= <-]. by right.
    + discriminate.
Qed.

(** Whatever the casing of the kind, a partition field that is returned is a
    TIMESTAMP column of the schema returned for the same kind. *)
Lemma partition_field_declared taxi_type f :
  get_partition_field taxi_type = Ok f →
  ∃ schema fld,
    get_bq_schema taxi_type = Ok schema ∧
    fld ∈ schema ∧ name fld = f ∧ field_type fld = "TIMESTAMP".
Proof.
  intros [[Hk ->]|[Hk ->]]%partition_field_cases;
    unfold get_bq_schema; rewrite Hk; simpl;
    eexists _, _; (split; [reflexivity|]);
    (split; [apply list_elem_of_lookup_2 with 2%nat; reflexivity|]);
    by split.
Qed.

(** C8. For each of the two dataset kinds, the partition field is the name
    of a column of type TIMESTAMP of the schema of that kind. *)
Theorem partition_field_in_schema (kind : string) :
  kind = "yellow" ∨ kind = "green" →
  ∃ f schema fld,
    get_partition_field kind = Ok f ∧
    get_bq_schema kind = Ok schema ∧
    fld ∈ schema ∧ name fld = f ∧ field_type fld = "TIMESTAMP".
Proof.
  intros Hkind.
  assert (∃ f, get_partition_field kind = Ok f) as [f Hf]
    by (destruct Hkind as [-> | ->]; by eexists).
  destruct (partition_field_declared kind f Hf) as (schema & fld & H).
  by exists f, schema, fld.
Qed.

Lemma partition_field_in_schema_witness :
  ∃ f schema fld,
    get_partition_field "green" = Ok f ∧
    get_bq_schema "green" = Ok schema ∧
    fld ∈ schema ∧ name fld = f ∧ field_type fld = "TIMESTAMP".
Proof. apply (partition_field_in_schema "green"). right; reflexivity. Defined.
End schema.

(** ** Strings *)

Section string_facts.
Implicit Types (s t : string) (c : ascii) (p q : ascii → bool).

Lemma str_forall_app p s t :
  str_forall p (s +:+ t) = str_forall p s && str_forall p t.
Proof. induction s as [|c s IH]; simpl; [done|]. by rewrite IH, andb_assoc. Qed.

Lemma str_forall_impl p q s :
  (∀ c, p c = true → q c = true) →
  str_forall p s = true → str_forall q s = true.
Proof.
  intros Hpq. induction s as [|c s IH]; simpl; [done|].
  intros [Hc Hs]%andb_true_iff. rewrite (Hpq c Hc). simpl. auto.
Qed.

Lemma str_contains_false c p s :
  p c = false → str_forall p s = true → str_contains c s = false.
Proof.
  intros Hc. induction s as [|d s IH]; simpl; [done|].
  intros [Hd Hs]%andb_true_iff. rewrite (IH Hs), orb_false_r.
  destruct (Ascii.eqb_spec d c) as [->|]; [congruence|done].
Qed.

Lemma str_contains_app c s t :
  str_contains c (s +:+ t) = str_contains c s || str_contains c t.
Proof. induction s as [|d s IH]; simpl; [done|]. by rewrite IH, orb_assoc. Qed.

Lemma lstrip_by_forall p q s :
  str_forall q s = true → str_forall q (lstrip_by p s) = true.
Proof.
  induction s as [|c s IH]; simpl; [done|].
  intros H. destruct (p c); [|done].
  apply andb_true_iff in H as [_ H]. auto.
Qed.

Lemma rstrip_by_forall p q s :
  str_forall q s = true → str_forall q (rstrip_by p s) = true.
Proof.
  induction s as [|c s IH]; simpl; [done|].
  intros [Hc Hs]%andb_true_iff.
  destruct (p c && str_is_empty (rstrip_by p s)); simpl; [done|].
  rewrite Hc. simpl. auto.
Qed.

Lemma strip_by_forall p q s :
  str_forall q s = true → str_forall q (strip_by p s) = true.
Proof. intros. by apply rstrip_by_forall, lstrip_by_forall. Qed.

(** A string made of strippable characters strips to nothing. *)
Lemma strip_by_all p s : str_forall p s = true → strip_by p s = EmptyString.
Proof.
  unfold strip_by. induction s as [|c s IH]; simpl; [done|].
  intros [Hc Hs]%andb_true_iff. rewrite Hc. auto.
Qed.

(** A string with no strippable character is left alone. *)
Lemma lstrip_by_none p s :
  str_forall (fun c => negb (p c)) s = true → lstrip_by p s = s.
Proof. destruct s as [|c s]; simpl; [done|]. by destruct (p c). Qed.

Lemma rstrip_by_none p s :
  str_forall (fun c => negb (p c)) s = true → rstrip_by p s = s.
Proof.
  induction s as [|c s IH]; simpl; [done|].
  intros [Hc Hs]%andb_true_iff. rewrite (IH Hs).
  apply negb_true_iff in Hc. by rewrite Hc.
Qed.

Lemma strip_by_none p s :
  str_forall (fun c => negb (p c)) s = true → strip_by p s = s.
Proof.
  intros H. unfold strip_by. rewrite lstrip_by_none by done.
  by apply rstrip_by_none.
Qed.

(** Splitting at a separator that does not occur. *)
Lemma str_split_none sep s :
  str_contains sep s = false → str_split sep None s = [s].
Proof.
  induction s as [|c s IH]; simpl; [done|].
  intros [Hc Hs]%orb_false_iff. rewrite Hc, (IH Hs). done.
Qed.

Lemma str_split_app sep s t :
  str_contains sep s = false →
  str_split sep None (s +:+ String sep t) = s :: str_split sep None t.
Proof.
  induction s as [|c s IH]; simpl.
  - intros _. by rewrite Ascii.eqb_refl.
  - intros [Hc Hs]%orb_false_iff. by rewrite Hc, (IH Hs).
Qed.

Lemma str_split_once sep s t :
  str_contains sep s = false →
  str_split sep (Some 1%nat) (s +:+ String sep t) = [s; t].
Proof.
  induction s as [|c s IH]; simpl.
  - intros _. rewrite Ascii.eqb_refl. by destruct t.
  - intros [Hc Hs]%orb_false_iff. by rewrite Hc, (IH Hs).
Qed.

Lemma str_split_join sep (parts : list string) :
  parts ≠ [] →
  Forall (fun part => str_contains sep part = false) parts →
  str_split sep None (str_join sep parts) = parts.
Proof.
  intros Hne Hparts. induction Hparts as [|part rest Hp Hrest IH]; [done|].
  destruct rest as [|part' rest'].
  - simpl. by apply str_split_none.
  - change (str_join sep (part :: part' :: rest'))
      with (part +:+ String sep (str_join sep (part' :: rest'))).
    rewrite str_split_app by done. f_equal. by apply IH.
Qed.

(** Every piece of a split is free of the separator and inherits what
    holds of all characters. *)
Lemma str_split_pieces sep p s :
  str_forall p s = true →
  Forall (fun part => str_forall (fun c => p c && negb (Ascii.eqb c sep)) part = true)
         (str_split sep None s).
Proof.
  induction s as [|c s IH]; simpl.
  - intros _. by repeat constructor.
  - intros [Hc Hs]%andb_true_iff. specialize (IH Hs).
    destruct (Ascii.eqb c sep) eqn:Hsep.
    + by constructor.
    + destruct (str_split sep None s) as [|h t]; simpl.
      * repeat constructor. simpl. by rewrite Hc, Hsep.
      * inversion_clear IH. constructor; [|done]. simpl.
        by rewrite Hc, Hsep.
Qed.
End string_facts.

(** ** Numerals *)

Lemma int_digits_numeral s : ∀ acc b,
  str_forall py_isdigit s = true →
  int_digits s acc b =
    if str_is_empty s && negb b then None else Some (digits_value s acc).
Proof.
  induction s as [|c s IH]; intros acc b; simpl.
  - intros _. by destruct b.
  - intros [Hc Hs]%andb_true_iff. rewrite Hc, (IH _ _ Hs).
    by rewrite andb_false_r.
Qed.

Lemma digit_not_space c : py_isdigit c = true → py_isspace c = false.
Proof. unfold py_isdigit, py_isspace. lia. Qed.

Lemma numeral_strip s : is_numeral s → str_strip s = s.
Proof.
  intros (_ & Hd & _). apply strip_by_none.
  eapply str_forall_impl; [|exact Hd].
  intros c Hc. by rewrite (digit_not_space c Hc).
Qed.

Lemma digit_not_int_space c : py_isdigit c = true → int_isspace c = false.
Proof. unfold py_isdigit, int_isspace. lia. Qed.

Lemma numeral_int_strip s : is_numeral s → strip_by int_isspace s = s.
Proof.
  intros (_ & Hd & _). apply strip_by_none.
  eapply str_forall_impl; [|exact Hd].
  intros c Hc. by rewrite (digit_not_int_space c Hc).
Qed.

Lemma py_int_numeral s : is_numeral s → py_int s = Ok (numeral_value s).
Proof.
  intros Hs. unfold py_int. rewrite (numeral_int_strip s Hs).
  destruct Hs as (Hne & Hd & _). destruct s as [|c s]; [done|].
  assert (Hgo : int_digits (String c s) 0 false
                = Some (numeral_value (String c s)))
    by (by rewrite int_digits_numeral).
  assert (Hc : py_isdigit c = true) by (simpl in Hd; by apply andb_true_iff in Hd as [? _]).
  destruct c as [[] [] [] [] [] [] [] []];
    try (by vm_compute in Hc); cbv beta iota zeta; by rewrite Hgo.
Qed.

Lemma numeral_no_char c s :
  py_isdigit c = false → is_numeral s → str_contains c s = false.
Proof. intros Hc (_ & Hs & _). by apply (str_contains_false c py_isdigit). Qed.

Lemma range_items_seqZ a b :
  a ≤ b → range_items a (b + 1) 1 = seqZ a (b - a + 1).
Proof.
  intros Hab. unfold range_items, range_len, seqZ. simpl.
  rewrite Z.div_1_r. replace (b + 1 - a + 1 - 1) with (b - a + 1) by lia.
  apply list_fmap_ext. intros _ k _. lia.
Qed.

Lemma fmt_02d_month m :
  1 ≤ m ≤ 12 → String.length (fmt_02d m) = 2%nat ∧ py_int (fmt_02d m) = Ok m.
Proof.
  intros Hm.
  assert (Hcases : m ∈ seqZ 1 12) by (apply elem_of_seqZ; lia).
  vm_compute in Hcases.
  repeat (apply elem_of_cons in Hcases as [->|Hcases]; [by vm_compute|]).
  by apply elem_of_nil in Hcases.
Qed.

Lemma month_token_intro m : 1 ≤ m ≤ 12 → month_token (fmt_02d m).
Proof. intros Hm. exists m. split; [done|]. split; [done|]. by apply fmt_02d_month. Qed.

Lemma months_from_args_range sa sb :
  is_numeral sa → is_numeral sb →
  months_from_args (sa +:+ "-" +:+ sb) =
    let a := numeral_value sa in
    let b := numeral_value sb in
    if (1 <=? a) && (a <=? b) && (b <=? 12)
    then Ok (fmt_02d <$> seqZ a (b - a + 1))
    else range_error.
Proof.
  intros Ha Hb. unfold months_from_args.
  change (sa +:+ "-" +:+ sb) with (sa +:+ String "-" sb).
  assert (Hstrip : str_strip (sa +:+ String "-" sb) = sa +:+ String "-" sb).
  { apply strip_by_none. rewrite str_forall_app. simpl.
    apply andb_true_iff; split.
    - destruct Ha as (_ & Ha & _). eapply str_forall_impl; [|exact Ha].
      intros c Hc. by rewrite (digit_not_space c Hc).
    - destruct Hb as (_ & Hb & _). eapply str_forall_impl; [|exact Hb].
      intros c Hc. by rewrite (digit_not_space c Hc). }
  rewrite Hstrip, str_contains_app. simpl. rewrite orb_true_r.
  rewrite str_split_once by (by apply numeral_no_char).
  rewrite (py_int_numeral sa Ha), (py_int_numeral sb Hb). simpl.
  set (a := numeral_value sa). set (b := numeral_value sb).
  destruct (Z.leb_spec 1 a), (Z.leb_spec a b), (Z.leb_spec b 12),
    (Z.ltb_spec a 1), (Z.ltb_spec 12 b), (Z.ltb_spec b a);
    simpl; try lia; try done.
  by rewrite range_items_seqZ.
Qed.

Lemma month_tokens_numerals parts : ∀ out,
  Forall is_numeral parts →
  if forallb is_month (numeral_value <$> parts)
  then month_tokens parts out
       = Ok (out ++ (fmt_02d <$> (numeral_value <$> parts)))%list
  else raises_ValueError (month_tokens parts out).
Proof.
  induction parts as [|p parts IH]; intros out Hparts; simpl.
  - by rewrite app_nil_r.
  - inversion_clear Hparts as [|? ? Hp Hrest].
    rewrite (py_int_numeral p Hp). simpl. unfold is_month at 1.
    destruct (Z.leb_spec 1 (numeral_value p)), (Z.leb_spec (numeral_value p) 12),
      (Z.ltb_spec (numeral_value p) 1), (Z.ltb_spec 12 (numeral_value p));
      simpl; try lia; try done.
    specialize (IH (out ++ [fmt_02d (numeral_value p)])%list Hrest).
    change (list_fmap string Z numeral_value parts)
      with (numeral_value <$> parts).
    destruct (forallb is_month (numeral_value <$> parts)); [|done].
    by rewrite IH, <- app_assoc.
Qed.

Lemma months_from_args_list parts :
  parts ≠ [] → Forall is_numeral parts →
  if forallb is_month (numeral_value <$> parts)
  then months_from_args (str_join "," parts)
       = Ok (fmt_02d <$> (numeral_value <$> parts))
  else raises_ValueError (months_from_args (str_join "," parts)).
Proof.
  intros Hne Hparts. unfold months_from_args.
  assert (Hchars : str_forall (fun c => py_isdigit c || Ascii.eqb c ",")
                     (str_join "," parts) = true).
  { clear Hne. induction Hparts as [|p rest (_ & Hp & _) Hrest IH]; [done|].
    assert (Hp' : str_forall (fun c => py_isdigit c || Ascii.eqb c ",") p = true).
    { eapply str_forall_impl; [|exact Hp]. by intros c ->. }
    destruct rest as [|p' rest']; [done|].
    change (str_join "," (p :: p' :: rest'))
      with (p +:+ String "," (str_join "," (p' :: rest'))).
    rewrite str_forall_app, Hp'. simpl. exact IH. }
  assert (Hstrip : str_strip (str_join "," parts) = str_join "," parts).
  { apply strip_by_none. eapply str_forall_impl; [|exact Hchars].
    intros c [Hc|Hc]%orb_true_iff.
    - by rewrite (digit_not_space c Hc).
    - by apply Ascii.eqb_eq in Hc as ->. }
  rewrite Hstrip.
  rewrite (str_contains_false "-" _ _ eq_refl Hchars).
  rewrite str_split_join; [|done|].
  2:{ eapply Forall_impl; [exact Hparts|]. intros p Hp. by apply numeral_no_char. }
  assert (Hfilter : List.filter (fun p => negb (str_is_empty (str_strip p))) parts = parts).
  { clear Hne Hchars Hstrip.
    induction Hparts as [|p rest Hp Hrest IH]; [done|]. simpl.
    rewrite (numeral_strip p Hp), IH. destruct Hp as [Hp _]. by destruct p. }
  rewrite Hfilter.
  assert (Hmap : str_strip <$> parts = parts).
  { clear Hne Hchars Hstrip Hfilter.
    induction Hparts as [|p rest Hp Hrest IH]; [done|].
    rewrite fmap_cons. by rewrite (numeral_strip p Hp), IH. }
  rewrite Hmap.
  apply (month_tokens_numerals parts [] Hparts).
Qed.

Lemma month_tokens_ok parts : ∀ out out',
  month_tokens parts out = Ok out' →
  Forall month_token out → Forall month_token out'.
Proof.
  induction parts as [|p parts IH]; intros out out'; simpl.
  - by intros [= <-].
  - destruct (py_int p) as [m|e]; simpl; [|done].
    destruct (Z.ltb_spec m 1); simpl; [done|].
    destruct (Z.ltb_spec 12 m); simpl; [done|].
    intros Hgo Hout. apply (IH _ _ Hgo).
    apply Forall_app; split; [done|].
    constructor; [|done]. apply month_token_intro. lia.
Qed.

Lemma months_from_args_tokens s out :
  months_from_args s = Ok out → Forall month_token out.
Proof.
  unfold months_from_args.
  destruct (str_contains "-" (str_strip s)).
  - destruct (str_split "-" (Some 1%nat) (str_strip s)) as [|sa [|sb [|? ?]]];
      try done.
    destruct (py_int sa) as [a|?]; simpl; [|done].
    destruct (py_int sb) as [b|?]; simpl; [|done].
    destruct (Z.ltb_spec a 1); simpl; [done|].
    destruct (Z.ltb_spec 12 b); simpl; [done|].
    destruct (Z.ltb_spec b a); simpl; [done|].
    intros [= <-]. rewrite range_items_seqZ by done.
    apply Forall_fmap, Forall_forall. intros m Hm%elem_of_seqZ.
    apply month_token_intro. lia.
  - intros Hgo. by apply (month_tokens_ok _ _ _ Hgo).
Qed.

(** C6. A range [a-b] of numerals gives the tokens of the months [a] to [b]
    when [1 <= a <= b <= 12] and raises the range error otherwise; a comma
    list of numerals gives the token of each month when all are in [1, 12]
    and raises [ValueError] otherwise; whatever the input, every token that
    is returned is one of the two-digit tokens [01] to [12]. *)
Theorem months_from_args_forms :
  (∀ sa sb, is_numeral sa → is_numeral sb →
     months_from_args (sa +:+ "-" +:+ sb) =
       let a := numeral_value sa in
       let b := numeral_value sb in
       if (1 <=? a) && (a <=? b) && (b <=? 12)
       then Ok (fmt_02d <$> seqZ a (b - a + 1))
       else range_error) ∧
  (∀ parts, parts ≠ [] → Forall is_numeral parts →
     if forallb is_month (numeral_value <$> parts)
     then months_from_args (str_join "," parts)
          = Ok (fmt_02d <$> (numeral_value <$> parts))
     else raises_ValueError (months_from_args (str_join "," parts))) ∧
  (∀ s out, months_from_args s = Ok out → Forall month_token out).
Proof.
  split; [|split].
  - exact months_from_args_range.
  - exact months_from_args_list.
  - exact months_from_args_tokens.
Qed.

Ltac numeral := split; [discriminate | split; [reflexivity | simpl; lia]].
Ltac numerals :=
  repeat match goal with
         | |- Forall _ (_ :: _) => constructor; [numeral|]
         | |- Forall _ [] => constructor
         end.

Lemma months_from_args_forms_witness :
  months_from_args "1-6" = Ok ["01"; "02"; "03"; "04"; "05"; "06"] ∧
  months_from_args "01-06" = Ok ["01"; "02"; "03"; "04"; "05"; "06"] ∧
  months_from_args "1,2,3" = Ok ["01"; "02"; "03"] ∧
  months_from_args "01,02,03" = Ok ["01"; "02"; "03"] ∧
  months_from_args "0-6" = range_error ∧
  months_from_args "1-13" = range_error ∧
  months_from_args "6-1" = range_error ∧
  raises_ValueError (months_from_args "1,13") ∧
  Forall month_token ["01"; "02"; "03"].
Proof.
  destruct months_from_args_forms as (Hrange & Hlist & Htokens).
  split; [apply (Hrange "1" "6"); numeral|].
  split; [apply (Hrange "01" "06"); numeral|].
  split; [apply (Hlist ["1"; "2"; "3"]);
          [discriminate | numerals]|].
  split; [apply (Hlist ["01"; "02"; "03"]);
          [discriminate | numerals]|].
  split; [apply (Hrange "0" "6"); numeral|].
  split; [apply (Hrange "1" "13"); numeral|].
  split; [apply (Hrange "6" "1"); numeral|].
  split; [apply (Hlist ["1"; "13"]);
          [discriminate | numerals]|].
  apply (Htokens "1,2,3").
  apply (Hlist ["1"; "2"; "3"]); [discriminate | numerals].
Defined.

(** ** The empty period expression *)

Lemma months_from_args_blank s :
  str_forall blank_char s = true → months_from_args s = Ok [].
Proof.
  intros Hs. unfold months_from_args.
  assert (Hstrip : str_forall blank_char (str_strip s) = true)
    by (by apply strip_by_forall).
  rewrite (str_contains_false "-" blank_char _ eq_refl Hstrip).
  assert (Hparts := str_split_pieces "," blank_char _ Hstrip).
  induction Hparts as [|part rest Hpart Hrest IH]; [done|].
  simpl.
  assert (Hempty : str_strip part = EmptyString).
  { apply strip_by_all. eapply str_forall_impl; [|exact Hpart].
    intros c [Hc Hsep]%andb_true_iff. unfold blank_char in Hc.
    apply negb_true_iff in Hsep. rewrite Hsep, orb_false_r in Hc. done. }
  rewrite Hempty. simpl. exact IH.
Qed.

Section empty_run.
Import Pipeline.

Lemma configure_months args w cfg w1 :
  configure args w = (Ok cfg, w1) →
  months_from_args (months args) = Ok (cfg_months cfg).
Proof.
  unfold configure, bind, lift, ret.
  destruct (get_partition_field _); [|done].
  destruct (get_bq_schema _); [|done].
  destruct (if truthy (bq_project args) then _ else _) as [[project|] w0];
    [|done].
  destruct (months_from_args _) as [ms|]; [|done].
  destruct (ensure_bucket _ _) as [[[]|] ?]; [|done].
  destruct (ensure_bq_dataset _ _ _ _) as [[[]|] ?]; [|done].
  by intros [= <- _].
Qed.

(** C9. A period expression made only of whitespace and commas, the empty
    string among them, expands to no month at all; the run then does no
    work after its start-up and leaves through [sys.exit(1)], the exit of
    the run that staged nothing. *)
Theorem blank_months_run (s : string) :
  str_forall blank_char s = true →
  months_from_args s = Ok [] ∧
  ∀ args w, months args = s →
    main args w =
      match configure args w with
      | (Ok _, w1) => (Raise (SystemExit 1), w1)
      | (Raise e, w1) => (Raise e, w1)
      end.
Proof.
  intros Hs. split; [by apply months_from_args_blank|].
  intros args w Hargs. unfold main, bind at 1.
  destruct (configure args w) as [[cfg|e] w1] eqn:Hcfg; [|done].
  apply configure_months in Hcfg.
  rewrite Hargs, (months_from_args_blank s Hs) in Hcfg.
  injection Hcfg as <-. done.
Qed.
End empty_run.

Lemma blank_months_run_witness :
  months_from_args "" = Ok [] ∧
  months_from_args " , ," = Ok [] ∧
  exit_code (Pipeline.main blank_args quiet_world).1 = 1.
Proof.
  split; [apply (blank_months_run ""); reflexivity|].
  split; [apply (blank_months_run " , ,"); reflexivity|].
  destruct (blank_months_run "" eq_refl) as [_ Hrun].
  rewrite (Hrun blank_args quiet_world eq_refl). reflexivity.
Defined.

(** ** Staging *)

Section cleanup.
Implicit Types (w : World) (path : string).

Lemma safe_remove_local_cleanup path w :
  ∃ w' evs, safe_remove_local path w = (Ok tt, w') ∧ cleanup path w w' evs.
Proof.
  unfold safe_remove_local, try_except, bind, ret, os_path_exists, os_remove.
  destruct path as [|c path']; simpl.
  { eexists _, _. split; [done|]. constructor. by left. }
  set (path := String c path').
  destruct (files w !! path) as [n|] eqn:Hfile; simpl.
  2:{ eexists _, _. split; [done|]. constructor. by right. }
  destruct (next_reply None (remove_replies w)) as [[e|] rest] eqn:Hreply;
    simpl.
  - eexists _, _. split; [done|]. by eapply cleanup_failed.
  - rewrite Hfile. eexists _, _. split; [done|]. by eapply cleanup_done.
Qed.

Lemma cleanup_graph path w w' evs :
  cleanup path w w' evs → safe_remove_local path w = (Ok tt, w').
Proof.
  unfold safe_remove_local, try_except, bind, ret, os_path_exists, os_remove.
  destruct 1 as [path w [->|Hnone]|path w rest Hne [n Hn] Hreply
                |path w e rest Hne [n Hn] Hreply].
  - done.
  - destruct path; [done|]. simpl. by rewrite Hnone.
  - destruct path; [done|]. simpl. rewrite Hn. simpl.
    rewrite Hreply. simpl. by rewrite Hn.
  - destruct path; [done|]. simpl. rewrite Hn. simpl.
    rewrite Hreply. done.
Qed.

Lemma cleanup_log path w w' evs :
  cleanup path w w' evs → log w' = log w ++ evs.
Proof. destruct 1; simpl; by rewrite ?app_nil_r. Qed.

Lemma cleanup_store path w w' evs :
  cleanup path w w' evs →
  blobs w' = blobs w ∧ exists_replies w' = exists_replies w ∧
  put_replies w' = put_replies w.
Proof. by destruct 1. Qed.

Lemma cleanup_files path w w' evs :
  cleanup path w w' evs →
  (files w' = files w ∨ files w' = delete path (files w)) ∧
  (files w' !! path = None ∨ EvRemove path true ∈ evs ∨ path = EmptyString).
Proof.
  destruct 1 as [path w [->|Hnone]| |]; simpl.
  - split; [by left|]. by right; right.
  - split; [by left|]. by left.
  - split; [by right|]. left. apply lookup_delete_eq.
  - split; [by left|]. right; left. by apply list_elem_of_singleton.
Qed.

Lemma cleanup_events path w w' evs :
  cleanup path w w' evs →
  evs = [] ∨ evs = [EvRemove path false] ∨ evs = [EvRemove path true].
Proof. destruct 1; auto. Qed.
End cleanup.

Lemma count_app p evs1 evs2 :
  count p (evs1 ++ evs2) = count p evs1 + count p evs2.
Proof. unfold count, len. rewrite List.filter_app, length_app. lia. Qed.

Lemma count_nonneg p evs : 0 ≤ count p evs.
Proof. unfold count, len. lia. Qed.

Lemma verified_app bucket key evs1 evs2 :
  verified bucket key (evs1 ++ evs2) ↔
  verified bucket key evs1 ∨ verified bucket key evs2.
Proof. unfold verified. apply elem_of_app. Qed.

Lemma events_since_app w w' evs :
  log w' = log w ++ evs → events_since w w' = evs.
Proof. intros H. unfold events_since. rewrite H. apply drop_app_length. Qed.

Lemma len_range_items n : len (range_items 0 n 1) = Z.max 0 n.
Proof.
  unfold len, range_items, range_len. simpl.
  rewrite length_fmap, length_seq, Z.div_1_r. lia.
Qed.

Section staging.
Context {R : Type}.
Variables (success failure : R).
Variables (path bucket key : string).

Lemma not_verified_cons ev evs :
  ev ≠ EvExists bucket key (Some true) →
  ¬ verified bucket key evs → ¬ verified bucket key (ev :: evs).
Proof.
  unfold verified. intros Hne Hevs [Heq|?]%elem_of_cons; [congruence|auto].
Qed.

Lemma not_verified_nil : ¬ verified bucket key [].
Proof. unfold verified. apply not_elem_of_nil. Qed.

Local Ltac side :=
  simpl;
  first
    [ done
    | by rewrite <- ?app_assoc
    | by repeat (apply not_verified_cons; [done|]); apply not_verified_nil
    | by vm_compute ].

Lemma upload_attempt_post w :
  ∃ r w', upload_attempt success path bucket key w = (Ok r, w') ∧
          attempt_post success path bucket key w r w'.
Proof.
  unfold upload_attempt, try_except, bind, ret, verify_gcs_upload,
    blob_exists, upload_from_filename, sleep, attempt_post.
  destruct (next_reply None (exists_replies w)) as [[e|] rest] eqn:Hcheck;
    simpl.
  { (* the first check raises *)
    eexists _, _. split; [done|]. exists [EvExists bucket key None].
    repeat split; side. }
  destruct (decide ((bucket, key) ∈ blobs w)) as [Hin|Hout].
  { (* the object is there already *)
    rewrite bool_decide_eq_true_2 by done. simpl.
    match goal with
    | |- context [safe_remove_local path ?w1] =>
        destruct (safe_remove_local_cleanup path w1)
          as (w' & evs & -> & Hclean)
    end.
    eexists _, _. split; [done|].
    exists (EvExists bucket key (Some true) :: evs).
    assert (Hlog := cleanup_log _ _ _ _ Hclean). simpl in Hlog.
    assert (Hevs := cleanup_events _ _ _ _ Hclean).
    destruct (cleanup_store _ _ _ _ Hclean) as (Hblobs & _ & _).
    split; [by rewrite Hlog, <- app_assoc|].
    split; [destruct Hevs as [->|[->| ->]]; by vm_compute|].
    split; [destruct Hevs as [->|[->| ->]]; by vm_compute|].
    split; [destruct Hevs as [->|[->| ->]]; by vm_compute|].
    split.
    - split; [done|]. split; [apply list_elem_of_here|].
      eexists _, [EvExists bucket key (Some true)], evs.
      split; [done|]. split; [done|]. split; [|exact Hclean]. done.
    - intros _. split; [destruct Hevs as [->|[->| ->]]; by vm_compute|].
      split; [exact Hblobs|done]. }
  rewrite bool_decide_eq_false_2 by done. simpl.
  destruct (next_reply {| put_stored := true; put_error := None |}
              (put_replies w)) as [[stored err] prest] eqn:Hput; simpl.
  destruct (files w !! path) as [size|] eqn:Hfile; simpl.
  2:{ (* nothing to upload *)
      eexists _, _. split; [done|].
      exists [EvExists bucket key (Some false); EvPut path bucket key true].
      repeat split; side. }
  destruct err as [e|]; simpl.
  { (* the transfer raises *)
    eexists _, _. split; [done|].
    exists [EvExists bucket key (Some false); EvPut path bucket key true].
    destruct stored; simpl; repeat split; side. }
  destruct stored; simpl;
    destruct (next_reply None rest) as [[e|] rest'] eqn:Hverify; simpl.
  - (* stored, but the verification raises *)
    eexists _, _. split; [done|].
    exists [EvExists bucket key (Some false); EvPut path bucket key false;
            EvExists bucket key None].
    repeat split; side.
  - (* stored and verified *)
    rewrite bool_decide_eq_true_2 by set_solver. simpl.
    match goal with
    | |- context [safe_remove_local path ?w1] =>
        destruct (safe_remove_local_cleanup path w1)
          as (w' & evs & -> & Hclean)
    end.
    eexists _, _. split; [done|].
    exists ([EvExists bucket key (Some false); EvPut path bucket key false;
             EvExists bucket key (Some true); EvSleep UPLOAD_SLEEP_SECONDS]
            ++ evs).
    assert (Hlog := cleanup_log _ _ _ _ Hclean). simpl in Hlog.
    assert (Hevs := cleanup_events _ _ _ _ Hclean).
    split; [by rewrite Hlog, <- !app_assoc|].
    split; [destruct Hevs as [->|[->| ->]]; by vm_compute|].
    split; [destruct Hevs as [->|[->| ->]]; by vm_compute|].
    split; [destruct Hevs as [->|[->| ->]]; by vm_compute|].
    split; [|done].
    split; [done|].
    split; [unfold verified; simpl; rewrite !elem_of_cons; auto|].
    eexists _, _, evs.
    split; [done|]. split; [done|]. split; [|exact Hclean]. done.
  - (* not stored, and the verification raises *)
    eexists _, _. split; [done|].
    exists [EvExists bucket key (Some false); EvPut path bucket key false;
            EvExists bucket key None].
    repeat split; side.
  - (* the upload left nothing behind *)
    rewrite bool_decide_eq_false_2 by done. simpl.
    eexists _, _. split; [done|].
    exists [EvExists bucket key (Some false); EvPut path bucket key false;
            EvExists bucket key (Some false)].
    repeat split; side.
Qed.

(** The remove script plays no part in what a pass returns, and a pass
    that does not return has not read it. *)
Lemma upload_attempt_remove_replies rs w r w' :
  upload_attempt success path bucket key w = (Ok r, w') →
  ∃ w2, upload_attempt success path bucket key (set_remove_replies rs w)
          = (Ok r, w2) ∧
        (r = None → w2 = set_remove_replies rs w').
Proof.
  unfold upload_attempt, try_except, bind, ret, verify_gcs_upload,
    blob_exists, upload_from_filename, sleep.
  simpl.
  destruct (next_reply None (exists_replies w)) as [[e|] rest] eqn:Hcheck;
    simpl.
  { intros [= <- <-]. by eexists. }
  destruct (decide ((bucket, key) ∈ blobs w)) as [Hin|Hout].
  { rewrite !bool_decide_eq_true_2 by done. simpl.
    repeat match goal with
    | |- context [safe_remove_local path ?w1] =>
        destruct (safe_remove_local_cleanup path w1)
          as (? & ? & -> & _)
    end.
    intros [= <- <-]. by eexists. }
  rewrite !bool_decide_eq_false_2 by done. simpl.
  destruct (next_reply {| put_stored := true; put_error := None |}
              (put_replies w)) as [[stored err] prest] eqn:Hput; simpl.
  destruct (files w !! path) as [size|] eqn:Hfile; simpl.
  2:{ intros [= <- <-]. by eexists. }
  destruct err as [e|]; simpl.
  { destruct stored; simpl; intros [= <- <-]; by eexists. }
  destruct stored; simpl;
    destruct (next_reply None rest) as [[e|] rest'] eqn:Hverify; simpl.
  - intros [= <- <-]. by eexists.
  - rewrite !bool_decide_eq_true_2 by set_solver. simpl.
    repeat match goal with
    | |- context [safe_remove_local path ?w1] =>
        destruct (safe_remove_local_cleanup path w1)
          as (? & ? & -> & _)
    end.
    intros [= <- <-]. by eexists.
  - intros [= <- <-]. by eexists.
  - rewrite !bool_decide_eq_false_2 by done. simpl.
    intros [= <- <-]. by eexists.
Qed.

Lemma upload_attempts_remove_replies rs attempts : ∀ w,
  (upload_attempts success failure path bucket key attempts
     (set_remove_replies rs w)).1
  = (upload_attempts success failure path bucket key attempts w).1.
Proof.
  induction attempts as [|attempt rest IH]; intros w; [done|].
  cbn [upload_attempts]. unfold bind at 1 3.
  destruct (upload_attempt_post w) as (r & w1 & Hrun & _).
  destruct (upload_attempt_remove_replies rs w r w1 Hrun) as (w2 & Hrun2 & Hw2).
  rewrite Hrun, Hrun2. destruct r as [v|]; [done|].
  rewrite (Hw2 eq_refl). unfold bind, sleep.
  exact (IH (record (EvSleep RETRY_BACKOFF_SECONDS) w1)).
Qed.

Lemma upload_attempts_post attempts : ∀ w,
  ∃ r w', upload_attempts success failure path bucket key attempts w
            = (Ok r, w') ∧
          staging_post success failure path bucket key (len attempts) w r w'.
Proof.
  induction attempts as [|attempt rest IH]; intros w.
  - exists failure, w. split; [done|]. exists []. simpl.
    rewrite app_nil_r. split; [done|]. split; [done|]. split; [done|].
    split; [|done]. right. repeat split; try done. apply not_verified_nil.
  - cbn [upload_attempts]. unfold bind at 1.
    destruct (upload_attempt_post w) as (r & w1 & -> & Hpost).
    destruct Hpost as
      (evs & Hlog & Hput & [Hex1 Hex2] & Hback & Hcase & Hpresent).
    assert (Hlen : len (attempt :: rest) = len rest + 1)
      by (unfold len; simpl; lia).
    assert (0 ≤ len rest) by (unfold len; lia).
    rewrite Hlen.
    destruct r as [v|].
    + (* this pass returned *)
      destruct Hcase as (-> & Hver & Hclean).
      exists success, w1. split; [done|]. exists evs.
      split; [done|]. split; [lia|]. split; [lia|].
      split; [left; repeat split; [done | lia | done]|].
      intros Hin. destruct (Hpresent Hin) as (? & ? & _).
      split; [done|]. split; [done|]. by intros _ _.
    + (* this pass failed: back off and go on *)
      destruct Hcase as (Hnot & Hfiles & Hrm).
      unfold bind, sleep.
      destruct (IH (record (EvSleep RETRY_BACKOFF_SECONDS) w1))
        as (r & w2 & -> & evs2 & Hlog2 & Hput2 & Hex & Hcase2 & Hpresent2).
      exists r, w2. split; [done|].
      exists (evs ++ EvSleep RETRY_BACKOFF_SECONDS :: evs2).
      simpl in Hlog2. rewrite Hlog, <- !app_assoc in Hlog2.
      split; [done|].
      rewrite !count_app.
      change (EvSleep RETRY_BACKOFF_SECONDS :: evs2)
        with ([EvSleep RETRY_BACKOFF_SECONDS] ++ evs2).
      rewrite !count_app.
      change (count is_put [EvSleep RETRY_BACKOFF_SECONDS]) with 0.
      change (count is_exists [EvSleep RETRY_BACKOFF_SECONDS]) with 0.
      change (count is_backoff [EvSleep RETRY_BACKOFF_SECONDS]) with 1.
      change (count is_remove [EvSleep RETRY_BACKOFF_SECONDS]) with 0.
      split; [lia|]. split; [lia|].
      assert (Hsleep : ¬ verified bucket key [EvSleep RETRY_BACKOFF_SECONDS])
        by (apply not_verified_cons; [done | apply not_verified_nil]).
      split.
      * destruct Hcase2 as
          [(Hver & -> & Hb & wc & evs0 & evs1 & -> & Hrm0 & Hf & Hclean)
          |(Hnot2 & -> & Hb & Hf & Hrm2 & Hex3)].
        -- left. split; [rewrite !verified_app in *; tauto|].
           split; [done|]. split; [lia|].
           exists wc, (evs ++ [EvSleep RETRY_BACKOFF_SECONDS] ++ evs0), evs1.
           split; [by rewrite <- !app_assoc|].
           split; [rewrite !count_app; simpl in *;
                   change (count is_remove [EvSleep RETRY_BACKOFF_SECONDS])
                     with 0; lia|].
           split; [|done]. simpl in Hf. congruence.
        -- right. split; [rewrite !verified_app; tauto|].
           split; [done|]. split; [lia|].
           split; [simpl in Hf; congruence|]. split; lia.
      * intros Hin. destruct (Hpresent Hin) as (Hput0 & Hblobs & Hanswer).
        assert (Hin2 : (bucket, key)
                       ∈ blobs (record (EvSleep RETRY_BACKOFF_SECONDS) w1))
          by (simpl; by rewrite Hblobs).
        destruct (Hpresent2 Hin2) as (Hput3 & Hblobs2 & _).
        split; [lia|]. split; [simpl in Hblobs2; congruence|].
        intros _ Hreply. by destruct (Hanswer Hreply).
Qed.

(** The guarantees of the loop, spelled out on the events of the run. *)
Lemma upload_attempts_facts attempts w :
  ∃ r w',
    upload_attempts success failure path bucket key attempts w = (Ok r, w') ∧
    let evs := events_since w w' in
    let n := len attempts in
    log w' = log w ++ evs ∧
    count is_exists evs ≤ 2 * n ∧ count is_put evs ≤ n ∧
    (verified bucket key evs ∨ ¬ verified bucket key evs) ∧
    (verified bucket key evs →
       r = success ∧ count is_backoff evs + 1 ≤ n ∧
       ∃ w1, files w1 = files w ∧
             safe_remove_local path w1 = (Ok tt, w') ∧
             (files w' !! path = None ∨ EvRemove path true ∈ evs ∨
              path = EmptyString)) ∧
    (¬ verified bucket key evs →
       r = failure ∧ count is_backoff evs = n ∧
       files w' = files w ∧ count is_remove evs = 0) ∧
    ((bucket, key) ∈ blobs w →
       count is_put evs = 0 ∧ blobs w' = blobs w ∧
       (0 < n → (next_reply None (exists_replies w)).1 = None →
        verified bucket key evs)).
Proof.
  destruct (upload_attempts_post attempts w)
    as (r & w' & Hrun & evs & Hlog & Hput & Hex & Hcase & Hpresent).
  exists r, w'. split; [done|]. simpl.
  rewrite (events_since_app _ _ _ Hlog).
  split; [done|]. split; [done|]. split; [done|].
  split; [destruct Hcase as [(? & _)|(? & _)]; auto|].
  split; [|split; [|done]].
  - intros Hver.
    destruct Hcase as [(_ & -> & Hb & w1 & evs0 & evs1 & -> & _ & Hf & Hclean)
                      |(Hnot & _)]; [|done].
    split; [done|]. split; [done|]. exists w1. split; [done|].
    split; [by eapply cleanup_graph|].
    destruct (cleanup_files _ _ _ _ Hclean) as [_ [?|[?|?]]]; auto.
    right; left. apply elem_of_app. by right.
  - intros Hnot.
    destruct Hcase as [(Hver & _)|(_ & -> & Hb & Hf & Hrm & _)]; [done|].
    done.
Qed.
End staging.

(** *** [upload_to_gcs] of the pipeline *)

Section pipeline_staging.
Import Pipeline.
Implicit Types (path bucket prefix : string) (w : World).

Lemma upload_to_gcs_facts path bucket prefix max_retries w :
  ∃ r w',
    upload_to_gcs path bucket prefix max_retries w = (Ok r, w') ∧
    let evs := events_since w w' in
    let key := blob_name_of path prefix in
    let n := Z.max 0 max_retries in
    log w' = log w ++ evs ∧
    count is_exists evs ≤ 2 * n ∧ count is_put evs ≤ n ∧
    (verified bucket key evs ∨ ¬ verified bucket key evs) ∧
    (verified bucket key evs →
       r = Some (gs_uri bucket key) ∧ count is_backoff evs + 1 ≤ n ∧
       ∃ w1, files w1 = files w ∧
             safe_remove_local path w1 = (Ok tt, w') ∧
             (files w' !! path = None ∨ EvRemove path true ∈ evs ∨
              path = EmptyString)) ∧
    (¬ verified bucket key evs →
       r = None ∧ count is_backoff evs = n ∧
       files w' = files w ∧ count is_remove evs = 0) ∧
    ((bucket, key) ∈ blobs w →
       count is_put evs = 0 ∧ blobs w' = blobs w ∧
       (0 < n → (next_reply None (exists_replies w)).1 = None →
        verified bucket key evs)).
Proof.
  unfold upload_to_gcs. rewrite <- len_range_items.
  apply upload_attempts_facts.
Qed.

(** C2. With [max_retries >= 0], [upload_to_gcs] returns, without raising,
    after at most [max_retries] passes: at most that many uploads, twice as
    many existence checks, and one back-off pause per failed pass.  It
    returns [None] exactly when no check found the object; all
    [max_retries] passes were then made and the local files are as they
    were, no removal having been tried. *)
Theorem staging_retry_bound path bucket prefix max_retries w :
  0 ≤ max_retries →
  ∃ r w',
    upload_to_gcs path bucket prefix max_retries w = (Ok r, w') ∧
    let evs := events_since w w' in
    let key := blob_name_of path prefix in
    log w' = log w ++ evs ∧
    count is_exists evs ≤ 2 * max_retries ∧
    count is_put evs ≤ max_retries ∧
    count is_backoff evs + (match r with Some _ => 1 | None => 0 end)
      ≤ max_retries ∧
    (r = None ↔ ¬ verified bucket key evs) ∧
    (r = None →
       count is_backoff evs = max_retries ∧
       files w' = files w ∧ count is_remove evs = 0).
Proof.
  intros Hn.
  destruct (upload_to_gcs_facts path bucket prefix max_retries w)
    as (r & w' & Hrun & Hfacts).
  exists r, w'. split; [done|]. simpl in *.
  rewrite Z.max_r in Hfacts by done.
  destruct Hfacts as (Hlog & Hex & Hput & Hdec & Hyes & Hno & _).
  split; [done|]. split; [done|]. split; [done|].
  destruct Hdec as [Hver|Hnot].
  - destruct (Hyes Hver) as (-> & Hb & _).
    split; [done|]. split; [|done]. split; [done|]. by intros [].
  - destruct (Hno Hnot) as (-> & Hb & Hf & Hrm).
    split; [lia|]. split; [done|]. done.
Qed.

Lemma staging_retry_bound_witness :
  ∃ r w',
    upload_to_gcs sample_path "bucket" "raw/yellow/2024/" 3 fetched_world
      = (Ok r, w') ∧
    count is_put (events_since fetched_world w') ≤ 3.
Proof.
  destruct (staging_retry_bound sample_path "bucket" "raw/yellow/2024/" 3
              fetched_world) as (r & w' & Hrun & _ & _ & Hput & _); [lia|].
  exists r, w'. exact (conj Hrun Hput).
Defined.
End pipeline_staging.


(** ** An object that is already in the bucket *)

Lemma next_reply_at (script : list (option exception)) :
  next_reply None script = (reply_at 0 script, drop 1 script).
Proof. by destruct script. Qed.

Lemma reply_at_drop i (script : list (option exception)) :
  reply_at i (drop 1 script) = reply_at (S i) script.
Proof. unfold reply_at. by rewrite lookup_drop. Qed.

Section staging_present.
Context {R : Type}.
Variables (success failure : R) (path bucket key : string).

(** One pass when the object is there: it returns as soon as the existence
    check answers, and only uses up that check when it raises. *)
Lemma upload_attempt_present w :
  (bucket, key) ∈ blobs w →
  ∃ r w',
    upload_attempt success path bucket key w = (Ok r, w') ∧
    blobs w' = blobs w ∧
    match reply_at 0 (exists_replies w) with
    | None => r = Some success
    | Some _ => r = None ∧ exists_replies w' = drop 1 (exists_replies w)
    end.
Proof.
  intros Hin.
  unfold upload_attempt, try_except, bind at 1, verify_gcs_upload, blob_exists.
  rewrite next_reply_at.
  destruct (reply_at 0 (exists_replies w)) as [e|].
  - eexists _, _. split; [reflexivity|]. by simpl.
  - cbn [set_exists_replies blobs]. rewrite bool_decide_eq_true_2 by done.
    unfold bind, ret.
    match goal with
    | |- context [safe_remove_local path ?w1] =>
        destruct (safe_remove_local_cleanup path w1)
          as (w' & evs & -> & Hclean)
    end.
    destruct (cleanup_store _ _ _ _ Hclean) as (Hblobs & _).
    eexists _, _. split; [reflexivity|]. by split.
Qed.

(** The loop when the object is there: it returns from inside exactly when
    one of the checks it has a pass for answers. *)
Lemma upload_attempts_present attempts : ∀ w,
  (bucket, key) ∈ blobs w →
  ∃ r w' (returned : bool),
    upload_attempts success failure path bucket key attempts w = (Ok r, w') ∧
    r = (if returned then success else failure) ∧
    (returned = true ↔
     ∃ i, (i < length attempts)%nat ∧ reply_at i (exists_replies w) = None).
Proof.
  induction attempts as [|attempt rest IH]; intros w Hin.
  - exists failure, w, false. split; [done|]. split; [done|].
    split; [done|]. intros (i & Hi & _). simpl in Hi. lia.
  - cbn [upload_attempts]. unfold bind at 1.
    destruct (upload_attempt_present w Hin) as (r1 & w1 & -> & Hblobs & Hcase).
    destruct (reply_at 0 (exists_replies w)) as [e|] eqn:Hfirst.
    + destruct Hcase as [-> Hscript]. unfold bind, sleep.
      destruct (IH (record (EvSleep RETRY_BACKOFF_SECONDS) w1))
        as (r & w2 & returned & -> & Hr & Hiff).
      { simpl. by rewrite Hblobs. }
      exists r, w2, returned. split; [done|]. split; [done|].
      rewrite Hiff. simpl. rewrite Hscript. split.
      * intros (i & Hi & Hreply). exists (S i).
        split; [lia|]. by rewrite <- reply_at_drop.
      * intros ([|i] & Hi & Hreply); [congruence|].
        exists i. split; [lia|]. by rewrite reply_at_drop.
    + subst r1. exists success, w1, true. split; [done|]. split; [done|].
      split; [|done]. intros _. exists 0%nat. split; [simpl; lia | done].
Qed.
End staging_present.

Lemma length_range_items n :
  length (range_items 0 n 1) = Z.to_nat n.
Proof.
  assert (H := len_range_items n). unfold len in H. lia.
Qed.

Section staging_claims.
Import Pipeline.
Implicit Types (path bucket prefix : string) (w : World).

(** Every existence check can raise: with the object in the bucket and the
    default three attempts, three checks that raise make [upload_to_gcs]
    give up, return [None] and keep the local copy.  And the removal of the
    local copy can fail: the URI is returned and the copy is still there. *)
Lemma idempotent_staging_checks_raise :
  ¬ idempotent_staging sample_path "bucket" "" 3
      (set_exists_replies
         (replicate 3 (Some (TransportError "Connection reset")))
         staged_world) ∧
  ¬ idempotent_staging sample_path "bucket" "" 3
      (set_remove_replies [Some (OSError "Permission denied")] staged_world).
Proof.
  split.
  - unfold idempotent_staging. intros H.
    set (w := set_exists_replies _ staged_world) in *.
    assert (Hin : ("bucket", blob_name_of sample_path "") ∈ blobs w)
      by (vm_compute; reflexivity).
    specialize (H Hin).
    destruct (upload_to_gcs sample_path "bucket" "" 3 w) as [r w'] eqn:Hrun.
    destruct H as (_ & -> & _). by vm_compute in Hrun.
  - unfold idempotent_staging. intros H.
    set (w := set_remove_replies _ staged_world) in *.
    assert (Hin : ("bucket", blob_name_of sample_path "") ∈ blobs w)
      by (vm_compute; reflexivity).
    specialize (H Hin).
    destruct (upload_to_gcs sample_path "bucket" "" 3 w) as [r w'] eqn:Hrun.
    destruct H as (_ & _ & Hgone).
    apply (f_equal snd) in Hrun. simpl in Hrun. subst w'.
    by vm_compute in Hgone.
Qed.

(** C1. When the object is already in the bucket, [upload_to_gcs] uploads
    nothing and leaves the bucket as it is, whatever [max_retries] and
    whatever fails.  It returns the [gs://] URI of the key (the homework
    script: [True]) exactly when one of the existence checks it has an
    attempt for answers, that is, does not raise: the first, or a later one
    after the earlier ones raised.  Its last act is then
    [safe_remove_local] on the local path, after which the file is gone
    unless the removal itself failed.  When every one of these checks
    raises, or no attempt is allowed, it returns [None] ([False]) and the
    local files are as they were. *)
Theorem staging_skips_upload path bucket max_retries w :
  (∀ prefix,
     (bucket, blob_name_of path prefix) ∈ blobs w →
     ∃ r w',
       upload_to_gcs path bucket prefix max_retries w = (Ok r, w') ∧
       let evs := events_since w w' in
       let uri := gs_uri bucket (blob_name_of path prefix) in
       count is_put evs = 0 ∧ blobs w' = blobs w ∧
       (r = Some uri ↔
        ∃ i : nat, Z.of_nat i < max_retries ∧
                   reply_at i (exists_replies w) = None) ∧
       (r = None ↔
        ∀ i : nat, Z.of_nat i < max_retries →
                   reply_at i (exists_replies w) ≠ None) ∧
       (r = Some uri →
        ∃ w1, files w1 = files w ∧
              safe_remove_local path w1 = (Ok tt, w') ∧
              (files w' !! path = None ∨ EvRemove path true ∈ evs ∨
               path = EmptyString)) ∧
       (r = None → files w' = files w)) ∧
  ((bucket, basename path) ∈ blobs w →
   ∃ ok w',
     Homework.upload_to_gcs bucket path max_retries w = (Ok ok, w') ∧
     let evs := events_since w w' in
     count is_put evs = 0 ∧ blobs w' = blobs w ∧
     (ok = true ↔
      ∃ i : nat, Z.of_nat i < max_retries ∧
                 reply_at i (exists_replies w) = None) ∧
     (ok = false ↔
      ∀ i : nat, Z.of_nat i < max_retries →
                 reply_at i (exists_replies w) ≠ None) ∧
     (ok = true →
      ∃ w1, files w1 = files w ∧
            safe_remove_local path w1 = (Ok tt, w') ∧
            (files w' !! path = None ∨ EvRemove path true ∈ evs ∨
             path = EmptyString)) ∧
     (ok = false → files w' = files w)).
Proof.
  split.
  - intros prefix Hin.
    destruct (upload_to_gcs_facts path bucket prefix max_retries w)
      as (r & w' & Hrun & Hfacts).
    exists r, w'. split; [done|]. simpl in *.
    destruct Hfacts as (_ & _ & _ & Hdec & Hyes & Hno & Hpresent).
    destruct (Hpresent Hin) as (Hput & Hblobs & _).
    split; [done|]. split; [done|].
    unfold upload_to_gcs in Hrun.
    destruct (upload_attempts_present
                (Some (gs_uri bucket (blob_name_of path prefix))) None
                path bucket (blob_name_of path prefix)
                (range_items 0 max_retries 1) w Hin)
      as (r2 & w2 & returned & Hrun2 & Hr & Hiff).
    rewrite Hrun in Hrun2. injection Hrun2 as <- <-.
    rewrite length_range_items in Hiff.
    assert (Hbudget : ∀ i : nat, (i < Z.to_nat max_retries)%nat ↔
                                 Z.of_nat i < max_retries) by lia.
    split; [|split; [|split]].
    + rewrite Hr. destruct returned.
      * split; [intros _|done].
        destruct Hiff as [(i & Hi & Hreply) _]; [done|].
        exists i. by rewrite <- Hbudget.
      * split; [done|]. intros (i & Hi & Hreply).
        destruct Hiff as [_ Habs]. discriminate Habs.
        exists i. by rewrite Hbudget.
    + rewrite Hr. destruct returned.
      * split; [done|]. intros Hall.
        destruct Hiff as [(i & Hi & Hreply) _]; [done|].
        destruct (Hall i); [by apply Hbudget | done].
      * split; [intros _|done]. intros i Hi Hreply.
        destruct Hiff as [_ Habs]. discriminate Habs.
        exists i. by rewrite Hbudget.
    + intros ->. destruct Hdec as [Hver|Hnot].
      * by destruct (Hyes Hver) as (_ & _ & ?).
      * by destruct (Hno Hnot).
    + intros ->. destruct Hdec as [Hver|Hnot].
      * by destruct (Hyes Hver).
      * by destruct (Hno Hnot) as (_ & _ & ? & _).
  - intros Hin. unfold Homework.upload_to_gcs.
    destruct (upload_attempts_facts true false path bucket (basename path)
                (range_items 0 max_retries 1) w)
      as (ok & w' & Hrun & Hfacts).
    exists ok, w'. split; [done|]. simpl in *.
    rewrite len_range_items in Hfacts.
    destruct Hfacts as (_ & _ & _ & Hdec & Hyes & Hno & Hpresent).
    destruct (Hpresent Hin) as (Hput & Hblobs & _).
    split; [done|]. split; [done|].
    destruct (upload_attempts_present true false path bucket (basename path)
                (range_items 0 max_retries 1) w Hin)
      as (r2 & w2 & returned & Hrun2 & Hr & Hiff).
    rewrite Hrun in Hrun2. injection Hrun2 as <- <-.
    rewrite length_range_items in Hiff.
    assert (Hbudget : ∀ i : nat, (i < Z.to_nat max_retries)%nat ↔
                                 Z.of_nat i < max_retries) by lia.
    split; [|split; [|split]].
    + rewrite Hr. destruct returned.
      * split; [intros _|done].
        destruct Hiff as [(i & Hi & Hreply) _]; [done|].
        exists i. by rewrite <- Hbudget.
      * split; [done|]. intros (i & Hi & Hreply).
        destruct Hiff as [_ Habs]. discriminate Habs.
        exists i. by rewrite Hbudget.
    + rewrite Hr. destruct returned.
      * split; [done|]. intros Hall.
        destruct Hiff as [(i & Hi & Hreply) _]; [done|].
        destruct (Hall i); [by apply Hbudget | done].
      * split; [intros _|done]. intros i Hi Hreply.
        destruct Hiff as [_ Habs]. discriminate Habs.
        exists i. by rewrite Hbudget.
    + intros ->. destruct Hdec as [Hver|Hnot].
      * by destruct (Hyes Hver) as (_ & _ & ?).
      * by destruct (Hno Hnot).
    + intros ->. destruct Hdec as [Hver|Hnot].
      * by destruct (Hyes Hver).
      * by destruct (Hno Hnot) as (_ & _ & ? & _).
Qed.

(** The first check raises, the second answers: the URI is returned, nothing
    is uploaded and the local copy is removed. *)
Lemma staging_skips_upload_witness :
  let w := set_exists_replies [Some (TransportError "Connection reset")]
             staged_world in
  ∃ r w',
    upload_to_gcs sample_path "bucket" "" 3 w = (Ok r, w') ∧
    count is_put (events_since w w') = 0 ∧
    r = Some "gs://bucket/yellow_tripdata_2024-01.csv.gz" ∧
    files w' !! sample_path = None.
Proof.
  intros w.
  assert (Hin : ("bucket", blob_name_of sample_path "") ∈ blobs w)
    by (vm_compute; reflexivity).
  destruct (staging_skips_upload sample_path "bucket" 3 w) as [Hstage _].
  destruct (Hstage "" Hin) as (r & w' & Hrun & Hput & _ & Hreturn & _).
  destruct Hreturn as [_ Hreturn].
  assert (Hr : r = Some (gs_uri "bucket" (blob_name_of sample_path ""))).
  { apply Hreturn. exists 1%nat. split; [lia | reflexivity]. }
  exists r, w'.
  split; [exact Hrun|]. split; [exact Hput|]. split; [exact Hr|].
  apply (f_equal snd) in Hrun. simpl in Hrun. rewrite <- Hrun.
  by vm_compute.
Defined.

(** The removal of the local file can fail: the object is verified present,
    the URI is returned, and the file is still there. *)
Lemma deleted_iff_verified_failing_delete :
  ¬ deleted_iff_verified sample_path "bucket" "" 3
      (set_remove_replies [Some (OSError "Permission denied")] staged_world).
Proof.
  unfold deleted_iff_verified.
  set (w := set_remove_replies _ staged_world).
  destruct (upload_to_gcs sample_path "bucket" "" 3 w) as [r w'] eqn:Hrun.
  apply (f_equal snd) in Hrun. simpl in Hrun. subst w'.
  intros [_ Hdeleted].
  destruct Hdeleted as [_ Hgone].
  - unfold verified. vm_compute. apply list_elem_of_here.
  - by vm_compute in Hgone.
Qed.

(** C3. A run of [upload_to_gcs] returns the URI exactly when an existence
    check, before or after an upload, found the object.  When one did, the
    run ends with [safe_remove_local] on the local path and the file is gone
    afterwards unless the removal failed; when none did, the local files are
    untouched and no removal was tried.  So a file that has gone was
    verified, and for an existing file whose removal does not fail, deleted
    and verified coincide.  A pass of the loop that does not return, because
    a check or the transfer raised or the verification failed, leaves the
    local files as they were. *)
Theorem deletion_follows_verification path bucket prefix max_retries w :
  (∃ r w',
     upload_to_gcs path bucket prefix max_retries w = (Ok r, w') ∧
     let evs := events_since w w' in
     let key := blob_name_of path prefix in
     (verified bucket key evs ↔ r = Some (gs_uri bucket key)) ∧
     (verified bucket key evs →
        ∃ w1, files w1 = files w ∧
              safe_remove_local path w1 = (Ok tt, w') ∧
              (files w' !! path = None ∨ EvRemove path true ∈ evs ∨
               path = EmptyString)) ∧
     (¬ verified bucket key evs →
        files w' = files w ∧ count is_remove evs = 0) ∧
     (deleted path w w' → verified bucket key evs) ∧
     (is_Some (files w !! path) → path ≠ EmptyString →
      EvRemove path true ∉ evs →
      (deleted path w w' ↔ verified bucket key evs))) ∧
  (∀ w0 w1,
     upload_attempt (Some (gs_uri bucket (blob_name_of path prefix)))
       path bucket (blob_name_of path prefix) w0 = (Ok None, w1) →
     files w1 = files w0).
Proof.
  split.
  - destruct (upload_to_gcs_facts path bucket prefix max_retries w)
      as (r & w' & Hrun & Hfacts).
    exists r, w'. split; [done|]. simpl in *.
    destruct Hfacts as (_ & _ & _ & Hdec & Hyes & Hno & _).
    assert (Hgone : deleted path w w' →
                    verified bucket (blob_name_of path prefix)
                      (events_since w w')).
    { intros [[n Hn] Hnone]. destruct Hdec as [?|Hnot]; [done|].
      destruct (Hno Hnot) as (_ & _ & Hfiles & _). congruence. }
    split; [|split; [|split; [|split]]].
    + split.
      * intros Hver. by destruct (Hyes Hver).
      * intros ->. destruct Hdec as [?|Hnot]; [done|].
        by destruct (Hno Hnot).
    + intros Hver. by destruct (Hyes Hver) as (_ & _ & ?).
    + intros Hnot. by destruct (Hno Hnot) as (_ & _ & ? & ?).
    + done.
    + intros Hfile Hpath Hok. split; [done|]. intros Hver.
      destruct (Hyes Hver) as (_ & _ & w1 & _ & _ & [?|[?|?]]); done.
  - intros w0 w1 Hrun.
    destruct (upload_attempt_post
                (Some (gs_uri bucket (blob_name_of path prefix)))
                path bucket (blob_name_of path prefix) w0)
      as (r & w2 & Hrun2 & evs & _ & _ & _ & _ & Hcase & _).
    rewrite Hrun in Hrun2. injection Hrun2 as <- <-.
    by destruct Hcase as (_ & ? & _).
Qed.

Lemma deletion_follows_verification_witness :
  ∃ r w',
    upload_to_gcs sample_path "bucket" "" 3 fetched_world = (Ok r, w') ∧
    (deleted sample_path fetched_world w' ↔
     verified "bucket" sample_key (events_since fetched_world w')).
Proof.
  destruct (deletion_follows_verification sample_path "bucket" "" 3
              fetched_world) as [(r & w' & Hrun & _ & _ & _ & _ & Hiff) _].
  exists r, w'. split; [exact Hrun|].
  apply Hiff.
  - exists 1024%N. vm_compute. reflexivity.
  - discriminate.
  - apply (f_equal snd) in Hrun. simpl in Hrun. rewrite <- Hrun.
    vm_compute. intros Hin.
    repeat (apply elem_of_cons in Hin as [Hin|Hin]; [discriminate|]).
    by apply elem_of_nil in Hin.
Defined.

(** C10. [safe_remove_local] returns normally on every path and in every
    world: it does nothing for the empty path or a missing file, removes the
    file, or absorbs the failure of the removal.  What [upload_to_gcs]
    returns therefore does not depend on how removals go, in either
    program. *)
Theorem cleanup_never_raises :
  (∀ path w, ∃ w' evs,
     safe_remove_local path w = (Ok tt, w') ∧ cleanup path w w' evs) ∧
  (∀ path bucket prefix max_retries w rs,
     (upload_to_gcs path bucket prefix max_retries
        (set_remove_replies rs w)).1
     = (upload_to_gcs path bucket prefix max_retries w).1) ∧
  (∀ bucket path max_retries w rs,
     (Homework.upload_to_gcs bucket path max_retries
        (set_remove_replies rs w)).1
     = (Homework.upload_to_gcs bucket path max_retries w).1).
Proof.
  split; [exact safe_remove_local_cleanup|]. split.
  - intros. apply upload_attempts_remove_replies.
  - intros. apply upload_attempts_remove_replies.
Qed.
End staging_claims.

(** ** Load order *)

Lemma sorted_Permutation l : sorted l ≡ₚ l.
Proof. apply merge_sort_Permutation. Qed.

Lemma sorted_Sorted l : Sorted String.le (sorted l).
Proof. apply (Sorted_merge_sort String.le). Qed.

(** The order in which the URIs were collected does not matter. *)
Lemma sorted_order_independent l l' : l' ≡ₚ l → sorted l' = sorted l.
Proof.
  intros Hperm. apply (Sorted_unique String.le); [apply sorted_Sorted ..|].
  by rewrite !sorted_Permutation.
Qed.

Lemma loads_issued_app evs1 evs2 :
  loads_issued (evs1 ++ evs2) = loads_issued evs1 ++ loads_issued evs2.
Proof. apply omap_app. Qed.

Section loader.
Import Pipeline.
Variables (project dataset table field : string).
Variables (schema : list SchemaField) (disposition : string).

Local Abbreviation load :=
  (load_with project dataset table field schema disposition).

Lemma load_csv_to_bq_run uri w :
  ∃ r w' evs,
    load uri w = (r, w') ∧ log w' = log w ++ evs ∧
    loads_issued evs = [uri] ∧
    (r = Ok tt ∨ ∃ e : exception, r = Raise e) ∧
    (no_faults (load_replies w) → no_faults (infra_replies w) →
     r = Ok tt ∧ no_faults (load_replies w') ∧ no_faults (infra_replies w')).
Proof.
  unfold load_with, load_csv_to_bq, bind, run_load_job, infra_call.
  destruct (load_replies w) as [|[e|] lrest] eqn:Hl; simpl;
    try (destruct (infra_replies w) as [|[e'|] irest] eqn:Hi; simpl);
    eexists _, _, _.
  all: (split; [reflexivity|]); simpl.
  all: (split; [rewrite <- ?app_assoc; reflexivity|]).
  all: (split; [reflexivity|]).
  all: (split; [first [by left | right; by eexists]|]).
  all: unfold no_faults; intros Hload Hinfra.
  all: try (by apply Forall_cons_1 in Hload as [? _]).
  all: try (by apply Forall_cons_1 in Hinfra as [? _]).
  all: try (apply Forall_cons_1 in Hload as [_ Hload]).
  all: try (apply Forall_cons_1 in Hinfra as [_ Hinfra]).
  all: by repeat split.
Qed.

Lemma load_loop_run uris : ∀ w,
  ∃ r w' evs,
    for_each uris load w = (r, w') ∧ log w' = log w ++ evs ∧
    loads_issued evs `prefix_of` uris ∧
    (r = Ok tt → loads_issued evs = uris) ∧
    (r = Ok tt ∨ ∃ e : exception, r = Raise e) ∧
    (no_faults (load_replies w) → no_faults (infra_replies w) → r = Ok tt).
Proof.
  induction uris as [|uri rest IH]; intros w.
  - exists (Ok tt), w, []. rewrite app_nil_r. repeat split; auto.
  - cbn [for_each]. unfold bind at 1.
    destruct (load_csv_to_bq_run uri w)
      as (r & w1 & evs & -> & Hlog & Hloads & Hr & Hquiet).
    destruct Hr as [->|[e ->]].
    + destruct (IH w1) as (r & w2 & evs2 & -> & Hlog2 & Hpre & Hall & Hr & Hq).
      exists r, w2, (evs ++ evs2).
      rewrite loads_issued_app, Hloads. split; [done|].
      split; [by rewrite Hlog2, Hlog, app_assoc|].
      split; [by apply prefix_cons|].
      split; [intros Hok; simpl; by rewrite Hall|].
      split; [done|].
      intros Hl Hi. destruct (Hquiet Hl Hi) as (_ & ? & ?). auto.
    + exists (Raise e), w1, evs. rewrite Hloads.
      split; [done|]. split; [done|].
      split; [by apply prefix_cons, prefix_nil|].
      split; [done|]. split; [eauto|].
      intros Hl Hi. by destruct (Hquiet Hl Hi) as (? & _).
Qed.
End loader.

Section load_order.
Import Pipeline.

Lemma load_all_run args cfg uploaded_uris w :
  ∃ r w',
    load_all args cfg uploaded_uris w = (r, w') ∧
    extends w w' ∧
    let loads := loads_issued (events_since w w') in
    loads `prefix_of` sorted uploaded_uris ∧
    (r = Ok tt → loads = sorted uploaded_uris) ∧
    (r = Ok tt ∨ ∃ e : exception, r = Raise e) ∧
    (no_faults (load_replies w) → no_faults (infra_replies w) → r = Ok tt).
Proof.
  unfold load_all.
  edestruct (load_loop_run) as (r & w' & evs & Hrun & Hlog & Hfacts).
  exists r, w'. split; [exact Hrun|]. split; [by exists evs|]. simpl.
  rewrite (events_since_app _ _ _ Hlog). exact Hfacts.
Qed.

(** C5. The loader walks the staged URIs in ascending order: the list it
    iterates over is sorted and is a rearrangement of the staged list, so
    each URI is there once for each time it was staged, and it is the same
    list whatever the order in which staging finished.  The loads issued
    follow that list from its start: all of it when no load fails (which is
    what happens when nothing is scripted to fail), a prefix of it when a
    load fails and ends the run.  The staged set b, a, c is loaded as
    a, b, c. *)
Theorem load_order args cfg uploaded_uris w :
  sorted uploaded_uris ≡ₚ uploaded_uris ∧
  Sorted String.le (sorted uploaded_uris) ∧
  (∀ uris', uris' ≡ₚ uploaded_uris → sorted uris' = sorted uploaded_uris) ∧
  sorted ["b"; "a"; "c"] = ["a"; "b"; "c"] ∧
  ∃ r w',
    load_all args cfg uploaded_uris w = (r, w') ∧
    let loads := loads_issued (events_since w w') in
    loads `prefix_of` sorted uploaded_uris ∧
    (r = Ok tt → loads = sorted uploaded_uris) ∧
    (no_faults (load_replies w) → no_faults (infra_replies w) →
     r = Ok tt ∧ loads = sorted uploaded_uris).
Proof.
  split; [apply sorted_Permutation|].
  split; [apply sorted_Sorted|].
  split; [intros; by apply sorted_order_independent|].
  split; [by vm_compute|].
  destruct (load_all_run args cfg uploaded_uris w)
    as (r & w' & Hrun & _ & Hpre & Hall & _ & Hquiet).
  exists r, w'. split; [done|]. simpl in *.
  split; [done|]. split; [done|].
  intros Hl Hi. split; auto.
Qed.

Lemma load_order_witness :
  ∃ w',
    load_all sample_args sample_config ["b"; "a"; "c"] quiet_world
      = (Ok tt, w') ∧
    loads_issued (events_since quiet_world w') = ["a"; "b"; "c"].
Proof.
  destruct (load_order sample_args sample_config ["b"; "a"; "c"] quiet_world)
    as (_ & _ & _ & Hsorted & r & w' & Hrun & _ & _ & Hquiet).
  destruct Hquiet as [-> Hloads]; [constructor ..|].
  exists w'. split; [exact Hrun|]. by rewrite Hloads.
Defined.
End load_order.

(** ** Logs only grow *)

Global Instance extends_preorder : PreOrder extends.
Proof.
  split.
  - intros w. exists []. by rewrite app_nil_r.
  - intros w1 w2 w3 [evs1 H1] [evs2 H2]. exists (evs1 ++ evs2).
    by rewrite H2, H1, app_assoc.
Qed.

Lemma events_since_trans w w1 w2 :
  extends w w1 → extends w1 w2 →
  events_since w w2 = events_since w w1 ++ events_since w1 w2.
Proof.
  intros [evs1 H1] [evs2 H2].
  rewrite (events_since_app _ _ _ H1), (events_since_app _ _ _ H2).
  apply events_since_app. by rewrite H2, H1, app_assoc.
Qed.

Lemma staged_in_app evs1 evs2 :
  staged_in (evs1 ++ evs2) ↔ staged_in evs1 ∨ staged_in evs2.
Proof.
  unfold staged_in. split.
  - intros (b & k & [?|?]%elem_of_app); eauto.
  - intros [(b & k & ?)|(b & k & ?)]; exists b, k; apply elem_of_app; auto.
Qed.

(** What was staged in a part of a run was staged in the run. *)
Lemma staged_in_mono w w1 w2 w3 :
  extends w w1 → extends w1 w2 → extends w2 w3 →
  staged_in (events_since w1 w2) → staged_in (events_since w w3).
Proof.
  intros H01 H12 H23 Hstaged.
  rewrite (events_since_trans w w2 w3), (events_since_trans w w1 w2);
    [|done|done|by etrans|done].
  rewrite !staged_in_app. auto.
Qed.

Create HintDb grows discriminated.

Section grows.
Context {A B : Type}.

Lemma grows_ret (a : A) : grows (ret a).
Proof. intros w. reflexivity. Qed.

Lemma grows_raise (e : exn) : grows (raise (A:=A) e).
Proof. intros w. reflexivity. Qed.

Lemma grows_lift (r : result A) : grows (lift r).
Proof. intros w. reflexivity. Qed.

Lemma grows_bind (m : M A) (k : A → M B) :
  grows m → (∀ a, grows (k a)) → grows (bind m k).
Proof.
  intros Hm Hk w. unfold bind. specialize (Hm w).
  destruct (m w) as [[a|e] w1]; [|done].
  etrans; [exact Hm|]. apply Hk.
Qed.

Lemma grows_try_except (body : M A) (handler : exception → M A) :
  grows body → (∀ e, grows (handler e)) → grows (try_except body handler).
Proof.
  intros Hbody Hhandler w. unfold try_except. specialize (Hbody w).
  destruct (body w) as [[a|[e|c]] w1]; [done| |done].
  etrans; [exact Hbody|]. apply Hhandler.
Qed.

Lemma grows_if (b : bool) (m1 m2 : M A) :
  grows m1 → grows m2 → grows (if b then m1 else m2).
Proof. by destruct b. Qed.
End grows.

Local Ltac appended :=
  intros w; unfold extends; simpl;
  repeat match goal with
         | |- context [next_reply ?d ?s] => destruct (next_reply d s)
         | |- context [match ?x with _ => _ end] => destruct x
         end;
  simpl; first [ by exists [] ; rewrite app_nil_r | by eexists [_] ].

Lemma grows_sleep p : grows (sleep p).
Proof. unfold sleep. appended. Qed.

Lemma grows_os_path_exists path : grows (os_path_exists path).
Proof. unfold os_path_exists. appended. Qed.

Lemma grows_os_path_getsize path : grows (os_path_getsize path).
Proof. unfold os_path_getsize. appended. Qed.

Lemma grows_os_remove path : grows (os_remove path).
Proof. unfold os_remove. appended. Qed.

Lemma grows_urlretrieve url path : grows (urlretrieve url path).
Proof. unfold urlretrieve. appended. Qed.

Lemma grows_blob_exists bucket key : grows (blob_exists bucket key).
Proof. unfold blob_exists. appended. Qed.

Lemma grows_upload_from_filename path bucket key :
  grows (upload_from_filename path bucket key).
Proof. unfold upload_from_filename. appended. Qed.

Lemma grows_infra_call call : grows (infra_call call).
Proof. unfold infra_call. appended. Qed.

Lemma grows_run_load_job uri table field disposition :
  grows (run_load_job uri table field disposition).
Proof. unfold run_load_job. appended. Qed.

Lemma grows_as_completed {A} (futures : list A) : grows (as_completed futures).
Proof. unfold as_completed. appended. Qed.

Global Hint Resolve grows_ret grows_raise grows_lift grows_sleep
  grows_os_path_exists grows_os_path_getsize grows_os_remove
  grows_urlretrieve grows_blob_exists grows_upload_from_filename
  grows_infra_call grows_run_load_job grows_as_completed : grows.

Ltac grows_step :=
  first
    [ apply grows_bind; [|intros ?]
    | apply grows_try_except; [|intros ?]
    | apply grows_if
    | match goal with
      | |- grows (match ?x with _ => _ end) => destruct x
      end
    | solve [auto with grows] ].

Ltac grows := repeat grows_step.

Lemma grows_safe_remove_local path : grows (safe_remove_local path).
Proof. unfold safe_remove_local. grows. Qed.
Global Hint Resolve grows_safe_remove_local : grows.

Lemma grows_upload_attempt {R} (success : R) path bucket key :
  grows (upload_attempt success path bucket key).
Proof. unfold upload_attempt, verify_gcs_upload. grows. Qed.
Global Hint Resolve grows_upload_attempt : grows.

Lemma grows_upload_attempts {R} (success failure : R) path bucket key attempts :
  grows (upload_attempts success failure path bucket key attempts).
Proof. induction attempts; cbn [upload_attempts]; grows. Qed.
Global Hint Resolve grows_upload_attempts : grows.

Lemma grows_for_each {A} (xs : list A) (body : A → M unit) :
  (∀ x, grows (body x)) → grows (for_each xs body).
Proof. intros Hbody. induction xs; cbn [for_each]; grows. Qed.

Lemma grows_submit_all {A B} (task : A → M B) (xs : list A) :
  (∀ x, grows (task x)) → grows (submit_all task xs).
Proof.
  intros Htask. induction xs as [|x rest IH]; cbn [submit_all]; [grows|].
  intros w. specialize (Htask x w). destruct (task x w) as [r w1].
  etrans; [exact Htask|].
  assert (Hrest : grows (bind (submit_all task rest) (fun futs => ret (r :: futs))))
    by grows.
  apply Hrest.
Qed.

(** ** Worker pools *)

Lemma shuffle_Permutation {A} ks : ∀ l : list A, shuffle ks l ≡ₚ l.
Proof.
  intros l. revert ks. induction l as [|x l IH]; intros ks; [done|].
  destruct ks as [|k ks]; simpl; [by rewrite IH|].
  unfold insert_at. rewrite <- Permutation_middle, take_drop.
  by rewrite IH.
Qed.

Lemma shuffle_fmap {A B} (f : A → B) ks : ∀ l,
  shuffle ks (f <$> l) = f <$> shuffle ks l.
Proof.
  intros l. revert ks. induction l as [|x l IH]; intros ks; [done|].
  destruct ks as [|k ks]; simpl; [by rewrite IH|].
  unfold insert_at.
  by rewrite IH, fmap_app, fmap_cons, fmap_take, fmap_drop.
Qed.

Lemma as_completed_run {A} (futures : list A) w :
  ∃ ks w',
    as_completed futures w = (Ok (shuffle ks futures), w') ∧
    log w' = log w.
Proof.
  unfold as_completed. destruct (next_reply [] (schedule w)) as [ks rest].
  by exists ks, (set_schedule rest w).
Qed.

Section pool.
Context {A B : Type}.
Variable task : A → M B.
Hypothesis task_grows : ∀ x, grows (task x).
Hypothesis task_returns : ∀ x, returns (task x).

(** Every future of the pool holds the value its task returned somewhere
    in the course of the pool's run. *)
Lemma submit_all_run xs : ∀ w,
  ∃ bs w',
    submit_all task xs w = (Ok (Ok <$> bs), w') ∧ extends w w' ∧
    Forall2 (fun x b => ∃ w0 w1,
               extends w w0 ∧ extends w0 w1 ∧ extends w1 w' ∧
               task x w0 = (Ok b, w1)) xs bs.
Proof.
  induction xs as [|x rest IH]; intros w.
  - exists [], w. by repeat split.
  - cbn [submit_all].
    assert (Hgrow := task_grows x w).
    destruct (task_returns x w) as [b Hb].
    destruct (task x w) as [r w1] eqn:Hrun. simpl in Hb, Hgrow. subst r.
    destruct (IH w1) as (bs & w' & Hrest & Hext & Hall).
    exists (b :: bs), w'. unfold bind, ret. rewrite Hrest.
    split; [done|]. split; [by etrans|].
    constructor.
    + exists w, w1. by repeat split.
    + eapply Forall2_impl; [exact Hall|].
      intros x' b' (w0 & w2 & ? & ? & ? & ?).
      exists w0, w2. repeat split; try done. by etrans.
Qed.
End pool.

Lemma collect_run (bs : list (option string)) : ∀ acc,
  collect (Ok <$> bs) acc = Ok (acc ++ omap kept bs).
Proof.
  induction bs as [|b bs IH]; intros acc; simpl.
  - by rewrite app_nil_r.
  - rewrite IH. unfold kept at 2.
    destruct b as [s|]; simpl; [|done].
    destruct (negb (str_is_empty s)); simpl; [|done].
    by rewrite <- app_assoc.
Qed.

Lemma elem_of_kept (s : string) (bs : list (option string)) :
  s ∈ omap kept bs → Some s ∈ bs.
Proof.
  intros (b & Hb & Hkept)%list_elem_of_omap. unfold kept in Hkept.
  destruct (truthy b); [|done]. by subst b.
Qed.

(** The pool-and-collect idiom of both scripts: the value collected is the
    old accumulator followed by the values the tasks returned, in some
    order, those that are [None] or empty left out. *)
Lemma pool_collect {A} (task : A → M (option string)) xs acc w :
  (∀ x, grows (task x)) → (∀ x, returns (task x)) →
  ∃ new w',
    (let* futures := submit_all task xs in
     let* finished := as_completed futures in
     lift (collect finished acc)) w = (Ok (acc ++ new), w') ∧
    extends w w' ∧
    ∀ s, s ∈ new →
      ∃ x w0 w1, x ∈ xs ∧ extends w w0 ∧ extends w0 w1 ∧ extends w1 w' ∧
                 task x w0 = (Ok (Some s), w1).
Proof.
  intros Hgrows Hreturns. unfold bind, lift.
  destruct (submit_all_run task Hgrows Hreturns xs w)
    as (bs & w1 & -> & Hext & Hall).
  destruct (as_completed_run (Ok <$> bs) w1) as (ks & w2 & -> & Hlog).
  rewrite shuffle_fmap, collect_run.
  assert (Hext2 : extends w1 w2) by (exists []; by rewrite app_nil_r).
  exists (omap kept (shuffle ks bs)), w2.
  split; [done|]. split; [by etrans|].
  intros s Hs%elem_of_kept. rewrite shuffle_Permutation in Hs.
  apply list_elem_of_lookup in Hs as [i Hi].
  destruct (Forall2_lookup_r _ _ _ _ _ Hall Hi)
    as (x & Hx & w0 & w3 & ? & ? & ? & ?).
  exists x, w0, w3. repeat split; try done.
  - by eapply list_elem_of_lookup_2.
  - by etrans.
Qed.

(** ** Exit status *)

Lemma not_staged_in evs :
  forallb (fun ev => negb (is_staged ev)) evs = true → ¬ staged_in evs.
Proof.
  intros Hall (bucket & key & Hin).
  rewrite forallb_forall in Hall.
  apply list_elem_of_In in Hin. by specialize (Hall _ Hin).
Qed.

Local Ltac run_download :=
  intros w; unfold try_except, bind, ret, os_path_exists, os_path_getsize,
    urlretrieve, sleep; simpl;
  repeat match goal with
         | |- context [files w !! ?p] => destruct (files w !! p); simpl
         | |- context [N.ltb ?a ?b] => destruct (N.ltb a b); simpl
         | |- context [next_reply ?d ?s] =>
             destruct (next_reply d s) as [[?|? ?] ?]; simpl
         | |- context [match ?p with Some _ => _ | None => _ end] =>
             destruct p; simpl
         end;
  by eexists.

Lemma homework_download_file_returns month :
  returns (Homework.download_file month).
Proof. unfold Homework.download_file. run_download. Qed.

Lemma homework_download_file_grows month :
  grows (Homework.download_file month).
Proof. unfold Homework.download_file. grows. Qed.

Section pipeline_run.
Import Pipeline.

Lemma get_base_url_ok taxi_type f year :
  get_partition_field taxi_type = Ok f →
  ∃ url, get_base_url taxi_type year = Ok url.
Proof.
  intros [[Hk _]|[Hk _]]%partition_field_cases;
    unfold get_base_url; rewrite Hk; by eexists.
Qed.

Lemma download_file_returns taxi_type f year month :
  get_partition_field taxi_type = Ok f →
  returns (download_file taxi_type year month).
Proof.
  intros Hkind. destruct (get_base_url_ok _ _ year Hkind) as [url Hurl].
  unfold download_file, lift. rewrite Hurl. unfold bind at 1.
  run_download.
Qed.

Lemma download_file_grows taxi_type year month :
  grows (download_file taxi_type year month).
Proof. unfold download_file. grows. Qed.

Lemma upload_to_gcs_returns path bucket prefix max_retries :
  returns (upload_to_gcs path bucket prefix max_retries).
Proof.
  intros w.
  destruct (upload_to_gcs_facts path bucket prefix max_retries w)
    as (r & w' & -> & _).
  by exists r.
Qed.

Lemma upload_to_gcs_grows path bucket prefix max_retries :
  grows (upload_to_gcs path bucket prefix max_retries).
Proof. unfold upload_to_gcs. grows. Qed.

(** A URI is returned only after a check found the object. *)
Lemma upload_to_gcs_staged path bucket prefix max_retries w uri w' :
  upload_to_gcs path bucket prefix max_retries w = (Ok (Some uri), w') →
  staged_in (events_since w w').
Proof.
  intros Hrun.
  destruct (upload_to_gcs_facts path bucket prefix max_retries w)
    as (r & w2 & Hrun2 & _ & _ & _ & Hdec & _ & Hno & _).
  rewrite Hrun in Hrun2. injection Hrun2 as <- <-. simpl in *.
  destruct Hdec as [Hver|Hnot]; [by eexists _, _|].
  by destruct (Hno Hnot).
Qed.

(** The batch loop: it returns; it appends to both lists; it stages nothing
    when it retrieves nothing; and every URI it adds was verified. *)
Lemma run_batches_run args f batches :
  get_partition_field (taxi_type args) = Ok f →
  ∀ retrieved uploaded_uris w,
    ∃ fetched staged w',
      run_batches args batches retrieved uploaded_uris w
        = (Ok (retrieved ++ fetched, uploaded_uris ++ staged), w') ∧
      extends w w' ∧
      (fetched = [] → staged = []) ∧
      (staged ≠ [] → staged_in (events_since w w')).
Proof.
  intros Hkind.
  induction batches as [|month_batch rest IH]; intros retrieved uploaded_uris w.
  - exists [], [], w. rewrite !app_nil_r. by repeat split.
  - cbn [run_batches].
    destruct (pool_collect (download_file (taxi_type args) (year args))
                month_batch [] w)
      as (downloaded & w1 & Hdown & Hext1 & _).
    { intros. apply download_file_grows. }
    { intros. by eapply download_file_returns. }
    rewrite app_nil_l in Hdown.
    unfold bind at 1 in Hdown. unfold bind at 1.
    destruct (submit_all _ month_batch w) as [[futs|e] w0]; [|done].
    unfold bind at 1 in Hdown. unfold bind at 1.
    destruct (as_completed futs w0) as [[finished|e] w0']; [|done].
    unfold bind at 1. rewrite Hdown.
    destruct downloaded as [|fp fps].
    + destruct (IH retrieved uploaded_uris w1)
        as (fetched & staged & w' & -> & Hext & Hnone & Hstaged).
      exists fetched, staged, w'. split; [done|]. split; [by etrans|].
      split; [done|]. intros Hne.
      apply (staged_in_mono w w1 w' w');
        [done | done | reflexivity | by apply Hstaged].
    + set (downloaded := fp :: fps).
      destruct (pool_collect
                  (fun fp => upload_to_gcs fp (bucket args) (gcs_prefix args) 3)
                  downloaded uploaded_uris w1)
        as (new & w2 & Hup & Hext2 & Hnew).
      { intros. apply upload_to_gcs_grows. }
      { intros. apply upload_to_gcs_returns. }
      unfold bind at 1 in Hup. unfold bind at 1.
      destruct (submit_all _ downloaded w1) as [[futs2|e] w1']; [|done].
      unfold bind at 1 in Hup. unfold bind at 1.
      destruct (as_completed futs2 w1') as [[finished2|e] w1'']; [|done].
      unfold bind at 1. rewrite Hup.
      destruct (IH (retrieved ++ downloaded) (uploaded_uris ++ new) w2)
        as (fetched & staged & w' & -> & Hext & Hnone & Hstaged).
      exists (downloaded ++ fetched), (new ++ staged), w'.
      rewrite !app_assoc. split; [done|].
      split; [by repeat (etrans; [eassumption|])|].
      split; [intros [Hd _]%app_eq_nil; by subst downloaded|].
      intros Hne.
      destruct new as [|uri new'].
      * apply (staged_in_mono w w2 w' w');
          [by etrans | done | reflexivity | by apply Hstaged].
      * destruct (Hnew uri) as (x & wa & wb & _ & Ha & Hab & Hb & Hrun);
          [apply list_elem_of_here|].
        apply (staged_in_mono w wa wb w');
          [by etrans|done|by etrans|].
        by eapply upload_to_gcs_staged.
Qed.
End pipeline_run.

Section exit_status.
Import Pipeline.

Lemma infra_call_run call w :
  ∃ w', extends w w' ∧
        (infra_call call w = (Ok tt, w') ∨
         ∃ e : exception, infra_call call w = (Raise e, w')).
Proof.
  unfold infra_call. destruct (next_reply None (infra_replies w)) as [[e|] rest].
  - exists (record (EvInfra call true) (set_infra_replies rest w)).
    split; [by exists [EvInfra call true]|]. right. by exists e.
  - exists (record (EvInfra call false) (set_infra_replies rest w)).
    split; [by exists [EvInfra call false]|]. by left.
Qed.

Lemma ensure_bucket_exit bucket_name w e w1 :
  ensure_bucket bucket_name w = (Raise e, w1) →
  exit_code (Raise e : result unit) = 1.
Proof.
  unfold ensure_bucket, raise.
  destruct (_ || _); [by intros [= <- _]|].
  destruct (infra_call_run "get_bucket" w) as (w0 & _ & [->|[e0 ->]]);
    [done|].
  destruct e0; try (by intros [= <- _]).
  destruct (infra_call_run "create_bucket" w0) as (w2 & _ & [->|[e1 ->]]);
    [done | by intros [= <- _]].
Qed.

Lemma new_dataset_run dataset_id w :
  new_dataset dataset_id w = (Ok tt, w) ∨
  ∃ msg, new_dataset dataset_id w = (Raise (ValueError msg), w).
Proof. unfold new_dataset. case_bool_decide; [right; by eexists | by left]. Qed.

Lemma ensure_bq_dataset_exit project dataset location w e w1 :
  ensure_bq_dataset project dataset location w = (Raise e, w1) →
  exit_code (Raise e : result unit) = 1.
Proof.
  unfold ensure_bq_dataset, bind.
  destruct (new_dataset_run (project +:+ "." +:+ dataset) w) as [->|[msg ->]];
    [|by intros [= <- _]].
  destruct (infra_call_run "get_dataset" w) as (w0 & _ & [->|[e0 ->]]);
    [done|].
  destruct e0; try (by intros [= <- _]).
  destruct (infra_call_run "create_dataset" w0) as (w2 & _ & [->|[e1 ->]]);
    [done | by intros [= <- _]].
Qed.

Lemma pure_exit {A} (r : result A) e :
  (∀ code, r ≠ Raise (SystemExit code)) → r = Raise e →
  exit_code (Raise e : result unit) = 1.
Proof. intros Hr ->. destruct e as [e|code]; [done|]. by destruct (Hr code). Qed.

Lemma get_partition_field_no_exit taxi_type code :
  get_partition_field taxi_type ≠ Raise (SystemExit code).
Proof. unfold get_partition_field. by repeat case_match. Qed.

Lemma get_bq_schema_no_exit taxi_type code :
  get_bq_schema taxi_type ≠ Raise (SystemExit code).
Proof. unfold get_bq_schema. by repeat case_match. Qed.

Lemma py_int_no_exit s code : py_int s ≠ Raise (SystemExit code).
Proof. unfold py_int. by repeat case_match. Qed.

Lemma month_tokens_no_exit parts code : ∀ out,
  month_tokens parts out ≠ Raise (SystemExit code).
Proof.
  induction parts as [|p parts IH]; intros out; simpl; [done|].
  destruct (py_int p) eqn:Hp; simpl.
  - case_match; [done | apply IH].
  - intros [= ->]. by eapply py_int_no_exit.
Qed.

Lemma months_from_args_no_exit s code :
  months_from_args s ≠ Raise (SystemExit code).
Proof.
  unfold months_from_args. case_match; [|apply month_tokens_no_exit].
  repeat case_match; try done.
  all: repeat match goal with
              | H : py_int _ = Raise _ |- _ =>
                  intros [= ->]; by eapply py_int_no_exit
              | |- context [py_int ?s] =>
                  let Hs := fresh in destruct (py_int s) eqn:Hs; simpl
              end; try done; by repeat case_match.
Qed.

(** A start-up that fails ends the run with status 1. *)
Lemma configure_exit args w e w1 :
  configure args w = (Raise e, w1) →
  exit_code (Raise e : result unit) = 1.
Proof.
  unfold configure, bind, lift, ret.
  destruct (get_partition_field _) as [f|e0] eqn:Hf.
  2:{ intros [= <- _]. eapply pure_exit; [|exact Hf].
      apply get_partition_field_no_exit. }
  destruct (get_bq_schema _) as [schema|e0] eqn:Hs.
  2:{ intros [= <- _]. eapply pure_exit; [|exact Hs].
      apply get_bq_schema_no_exit. }
  destruct (if truthy (bq_project args) then _ else _) as [[project|e0] w0]
    eqn:Hproject.
  2:{ by destruct (truthy (bq_project args)). }
  destruct (months_from_args _) as [ms|e0] eqn:Hm.
  2:{ intros [= <- _]. eapply pure_exit; [|exact Hm].
      apply months_from_args_no_exit. }
  destruct (ensure_bucket _ w0) as [[[]|e0] w2] eqn:Hbucket.
  2:{ intros [= <- _]. by eapply ensure_bucket_exit. }
  destruct (ensure_bq_dataset _ _ _ w2) as [[[]|e0] w3] eqn:Hdataset.
  2:{ intros [= <- _]. by eapply ensure_bq_dataset_exit. }
  done.
Qed.

Lemma configure_kind args w cfg w1 :
  configure args w = (Ok cfg, w1) →
  ∃ f, get_partition_field (taxi_type args) = Ok f.
Proof.
  unfold configure, bind, lift.
  destruct (get_partition_field _) as [f|]; [|done]. by exists f.
Qed.

Lemma grows_new_dataset dataset_id : grows (new_dataset dataset_id).
Proof. intros w. unfold new_dataset. by case_bool_decide. Qed.

Lemma grows_ensure_bucket bucket_name : grows (ensure_bucket bucket_name).
Proof.
  unfold ensure_bucket. destruct (_ || _); [apply grows_raise|].
  intros w. assert (H1 := grows_infra_call "get_bucket" w).
  destruct (infra_call "get_bucket" w) as [[[]|[e|c]] w1]; simpl in *;
    try done.
  destruct e; try done. simpl.
  etrans; [exact H1|]. apply grows_infra_call.
Qed.

Lemma grows_ensure_bq_dataset project dataset location :
  grows (ensure_bq_dataset project dataset location).
Proof.
  unfold ensure_bq_dataset.
  apply grows_bind; [apply grows_new_dataset|intros _].
  intros w. assert (H1 := grows_infra_call "get_dataset" w).
  destruct (infra_call "get_dataset" w) as [[[]|[e|c]] w1]; simpl in *;
    try done.
  destruct e; try done. simpl.
  etrans; [exact H1|]. apply grows_infra_call.
Qed.

Lemma grows_configure args : grows (configure args).
Proof.
  unfold configure.
  apply grows_bind; [apply grows_lift|intros ?].
  apply grows_bind; [apply grows_lift|intros ?].
  apply grows_bind;
    [destruct (truthy _); [apply grows_ret | intros w; reflexivity]|intros ?].
  apply grows_bind; [apply grows_lift|intros ?].
  apply grows_bind; [apply grows_ensure_bucket|intros ?].
  apply grows_bind; [apply grows_ensure_bq_dataset|intros ?].
  apply grows_ret.
Qed.

Lemma chunked_three {A} (l : list A) : ∃ batches, chunked l 3 = Ok batches.
Proof. unfold chunked, py_range. simpl. by eexists. Qed.

(** [main] in terms of its three phases. *)
Lemma main_phases args w cfg w1 :
  configure args w = (Ok cfg, w1) →
  ∃ batches retrieved uploaded_uris w2,
    chunked (cfg_months cfg) 3 = Ok batches ∧
    run_batches args batches [] [] w1 = (Ok (retrieved, uploaded_uris), w2) ∧
    extends w w1 ∧ extends w1 w2 ∧
    (retrieved = [] → uploaded_uris = []) ∧
    (uploaded_uris ≠ [] → staged_in (events_since w1 w2)) ∧
    main args w =
      match uploaded_uris with
      | [] => (Raise (SystemExit 1), w2)
      | _ => load_all args cfg uploaded_uris w2
      end.
Proof.
  intros Hcfg.
  destruct (configure_kind _ _ _ _ Hcfg) as [f Hkind].
  destruct (chunked_three (cfg_months cfg)) as [batches Hbatches].
  destruct (run_batches_run args f batches Hkind [] [] w1)
    as (retrieved & uploaded & w2 & Hrun & Hext & Hnone & Hstaged).
  rewrite !app_nil_l in Hrun.
  exists batches, retrieved, uploaded, w2.
  split; [done|]. split; [done|].
  split; [replace w1 with (configure args w).2 by (by rewrite Hcfg);
          apply grows_configure|].
  split; [done|]. split; [done|]. split; [done|].
  unfold main, bind at 1. rewrite Hcfg.
  unfold bind at 1, lift. rewrite Hbatches.
  unfold bind at 1. rewrite Hrun. simpl. by destruct uploaded.
Qed.

Lemma pipeline_exit_signal args w :
  nonzero_exit_when_nothing_staged (main args) w.
Proof.
  unfold nonzero_exit_when_nothing_staged.
  destruct (main args w) as [r w'] eqn:Hmain.
  intros Hnothing.
  destruct (configure args w) as [[cfg|e] w1] eqn:Hcfg.
  - destruct (main_phases args w cfg w1 Hcfg)
      as (batches & retrieved & uploaded & w2 & _ & _ & H01 & H12 & _
          & Hstaged & Heq).
    rewrite Heq in Hmain. destruct uploaded as [|uri uris].
    + by injection Hmain as <- _.
    + destruct (load_all_run args cfg (uri :: uris) w2)
        as (r' & w3 & Hload & H23 & _).
      rewrite Hload in Hmain. injection Hmain as -> ->.
      destruct Hnothing.
      apply (staged_in_mono w w1 w2 w'); try done. by apply Hstaged.
  - unfold main, bind in Hmain. rewrite Hcfg in Hmain.
    injection Hmain as <- _.
    by rewrite (configure_exit _ _ _ _ Hcfg).
Qed.

Lemma pipeline_exit_phases args w :
  let r := (main args w).1 in
  (exit_code r = 0 ∨ exit_code r = 1) ∧
  (raises (configure args w).1 → exit_code r = 1) ∧
  ∀ cfg w1, configure args w = (Ok cfg, w1) →
    ∃ batches retrieved uploaded_uris w2,
      chunked (cfg_months cfg) 3 = Ok batches ∧
      run_batches args batches [] [] w1
        = (Ok (retrieved, uploaded_uris), w2) ∧
      (retrieved = [] → uploaded_uris = []) ∧
      (uploaded_uris = [] → exit_code r = 1) ∧
      (uploaded_uris ≠ [] →
       (exit_code r = 0 ↔ (load_all args cfg uploaded_uris w2).1 = Ok tt)).
Proof.
  simpl.
  assert (Hphases : ∀ cfg w1, configure args w = (Ok cfg, w1) →
    ∃ batches retrieved uploaded_uris w2,
      chunked (cfg_months cfg) 3 = Ok batches ∧
      run_batches args batches [] [] w1
        = (Ok (retrieved, uploaded_uris), w2) ∧
      (retrieved = [] → uploaded_uris = []) ∧
      (uploaded_uris = [] → exit_code (main args w).1 = 1) ∧
      (uploaded_uris ≠ [] →
       (exit_code (main args w).1 = 0 ↔
        (load_all args cfg uploaded_uris w2).1 = Ok tt)) ∧
      (exit_code (main args w).1 = 0 ∨ exit_code (main args w).1 = 1)).
  { intros cfg w1 Hcfg.
    destruct (main_phases args w cfg w1 Hcfg)
      as (batches & retrieved & uploaded & w2 & Hb & Hrun & _ & _ & Hnone
          & _ & ->).
    exists batches, retrieved, uploaded, w2.
    split; [done|]. split; [done|]. split; [done|].
    destruct uploaded as [|uri uris]; [by repeat split; auto|].
    destruct (load_all_run args cfg (uri :: uris) w2)
      as (r' & w3 & -> & _ & _ & _ & [->|[e ->]] & _); simpl.
    - by repeat split; auto.
    - by repeat split; auto. }
  destruct (configure args w) as [[cfg|e] w1] eqn:Hcfg.
  - destruct (Hphases cfg w1 eq_refl)
      as (batches & retrieved & uploaded & w2 & ? & ? & ? & ? & ? & Hcode).
    split; [done|]. split; [done|].
    intros cfg' w1' [= <- <-].
    by exists batches, retrieved, uploaded, w2.
  - assert (Hexit : exit_code (main args w).1 = 1).
    { unfold main, bind. rewrite Hcfg. simpl.
      by apply (configure_exit _ _ _ _ Hcfg). }
    split; [by right|]. split; [done|]. done.
Qed.
End exit_status.

Section homework_run.
Variable BUCKET_NAME : string.

Lemma homework_create_bucket_exit bucket_name w e w1 :
  Homework.create_bucket bucket_name w = (Raise e, w1) →
  exit_code (Raise e : result Z) = 1.
Proof.
  unfold Homework.create_bucket, raise, bind.
  destruct (_ || _); [by intros [= <- _]|].
  destruct (infra_call_run "get_bucket" w) as (w0 & _ & [->|[e0 ->]]).
  - destruct (infra_call_run "list_buckets" w0) as (w2 & _ & [->|[e1 ->]]).
    + case_bool_decide; [done | by intros [= <- _]].
    + destruct e1; try (by intros [= <- _]).
      destruct (infra_call_run "create_bucket" w2) as (w3 & _ & [->|[e2 ->]]);
        [done | by intros [= <- _]].
  - destruct e0; try (by intros [= <- _]).
    destruct (infra_call_run "create_bucket" w0) as (w3 & _ & [->|[e2 ->]]);
      [done | by intros [= <- _]].
Qed.

Lemma homework_download_all_returns w :
  ∃ downloaded w', Homework.download_all w = (Ok downloaded, w').
Proof.
  destruct (pool_collect Homework.download_file Homework.MONTHS [] w)
    as (new & w' & Hrun & _).
  - apply homework_download_file_grows.
  - apply homework_download_file_returns.
  - by exists new, w'.
Qed.

Lemma homework_upload_to_gcs_returns path max_retries :
  returns (Homework.upload_to_gcs BUCKET_NAME path max_retries).
Proof.
  intros w. unfold Homework.upload_to_gcs.
  destruct (upload_attempts_facts true false path BUCKET_NAME (basename path)
              (range_items 0 max_retries 1) w) as (r & w' & -> & _).
  by exists r.
Qed.

Lemma homework_upload_to_gcs_grows path max_retries :
  grows (Homework.upload_to_gcs BUCKET_NAME path max_retries).
Proof. unfold Homework.upload_to_gcs. grows. Qed.

Lemma tally_run (oks : list bool) : ∀ success,
  ∃ total, Homework.tally (Ok <$> oks) success = Ok total.
Proof.
  induction oks as [|ok oks IH]; intros success; simpl; [by eexists|].
  apply IH.
Qed.

Lemma homework_upload_all_returns downloaded w :
  ∃ success w', Homework.upload_all BUCKET_NAME downloaded w = (Ok success, w').
Proof.
  unfold Homework.upload_all, bind, lift.
  destruct (submit_all_run (fun fp => Homework.upload_to_gcs BUCKET_NAME fp 3)
              (fun fp => homework_upload_to_gcs_grows fp 3)
              (fun fp => homework_upload_to_gcs_returns fp 3) downloaded w)
    as (oks & w1 & -> & _).
  destruct (as_completed_run (Ok <$> oks) w1) as (ks & w2 & -> & _).
  rewrite shuffle_fmap.
  destruct (tally_run (shuffle ks oks) 0) as [total ->]. by eexists _, _.
Qed.

(** The homework script leaves with status 1 when nothing was downloaded,
    and with status 0 as soon as something was, however the uploads went. *)
Lemma homework_exit_phases w :
  let r := (Homework.main BUCKET_NAME w).1 in
  (exit_code r = 0 ∨ exit_code r = 1) ∧
  (raises (Homework.create_bucket BUCKET_NAME w).1 → exit_code r = 1) ∧
  ∀ w1, Homework.create_bucket BUCKET_NAME w = (Ok tt, w1) →
    ∃ downloaded_files w2,
      Homework.download_all w1 = (Ok downloaded_files, w2) ∧
      (downloaded_files = [] → exit_code r = 1) ∧
      (downloaded_files ≠ [] → exit_code r = 0).
Proof.
  simpl.
  destruct (Homework.create_bucket BUCKET_NAME w) as [[[]|e] w1] eqn:Hcreate.
  2:{ assert (Hmain : Homework.main BUCKET_NAME w = (Raise e, w1))
        by (unfold Homework.main, bind; by rewrite Hcreate).
      assert (Hexit := homework_create_bucket_exit _ _ _ _ Hcreate).
      rewrite Hmain. split; [by right|]. split; [done|]. by intros ? [=]. }
  destruct (homework_download_all_returns w1) as (downloaded & w2 & Hdown).
  destruct downloaded as [|fp fps].
  - assert (Hmain : Homework.main BUCKET_NAME w = (Raise (SystemExit 1), w2))
      by (unfold Homework.main, bind; by rewrite Hcreate, Hdown).
    rewrite Hmain. split; [by right|]. split; [done|].
    intros ? [= <-]. exists [], w2. by repeat split.
  - destruct (homework_upload_all_returns (fp :: fps) w2)
      as (success & w3 & Hup).
    assert (Hmain : Homework.main BUCKET_NAME w = (Ok success, w3))
      by (unfold Homework.main, bind; by rewrite Hcreate, Hdown).
    rewrite Hmain. split; [by left|]. split; [done|].
    intros ? [= <-]. exists (fp :: fps), w2. by repeat split.
Qed.
End homework_run.

(** Six files are downloaded, every upload fails on each of its three
    attempts, the tally printed is 0 of 6, and the script ends normally. *)
Lemma homework_exits_zero_with_nothing_staged :
  ¬ nonzero_exit_when_nothing_staged (Homework.main "bucket")
      failing_uploads_world.
Proof.
  unfold nonzero_exit_when_nothing_staged.
  destruct (Homework.main "bucket" failing_uploads_world) as [r w'] eqn:Hrun.
  assert (Hr : r = (Homework.main "bucket" failing_uploads_world).1)
    by (by rewrite Hrun).
  assert (Hw : w' = (Homework.main "bucket" failing_uploads_world).2)
    by (by rewrite Hrun).
  clear Hrun. intros Hclaim. apply Hclaim.
  - apply not_staged_in. subst w'. by vm_compute.
  - subst r. by vm_compute.
Qed.

(** C7. The pipeline exits with a non-zero status whenever nothing was
    staged.  Its status is 0 or 1: 1 when the start-up fails, 1 when no URI
    was collected, which is the case whenever nothing was retrieved, and
    otherwise 0 exactly when every load succeeds, a failing load ending the
    run with status 1.  The homework script exits with 1 when its bucket
    check fails or nothing was downloaded, and with 0 as soon as one file
    was downloaded, whatever became of the uploads. *)
Theorem exit_status :
  (∀ args w, nonzero_exit_when_nothing_staged (Pipeline.main args) w) ∧
  (∀ args w,
     let r := (Pipeline.main args w).1 in
     (exit_code r = 0 ∨ exit_code r = 1) ∧
     (raises (Pipeline.configure args w).1 → exit_code r = 1) ∧
     ∀ cfg w1, Pipeline.configure args w = (Ok cfg, w1) →
       ∃ batches retrieved uploaded_uris w2,
         chunked (Pipeline.cfg_months cfg) 3 = Ok batches ∧
         Pipeline.run_batches args batches [] [] w1
           = (Ok (retrieved, uploaded_uris), w2) ∧
         (retrieved = [] → uploaded_uris = []) ∧
         (uploaded_uris = [] → exit_code r = 1) ∧
         (uploaded_uris ≠ [] →
          (exit_code r = 0 ↔
           (Pipeline.load_all args cfg uploaded_uris w2).1 = Ok tt))) ∧
  (∀ BUCKET_NAME w,
     let r := (Homework.main BUCKET_NAME w).1 in
     (exit_code r = 0 ∨ exit_code r = 1) ∧
     (raises (Homework.create_bucket BUCKET_NAME w).1 → exit_code r = 1) ∧
     ∀ w1, Homework.create_bucket BUCKET_NAME w = (Ok tt, w1) →
       ∃ downloaded_files w2,
         Homework.download_all w1 = (Ok downloaded_files, w2) ∧
         (downloaded_files = [] → exit_code r = 1) ∧
         (downloaded_files ≠ [] → exit_code r = 0)).
Proof.
  split; [exact pipeline_exit_signal|].
  split; [exact pipeline_exit_phases|].
  exact homework_exit_phases.
Qed.

Lemma exit_status_witness :
  nonzero_exit_when_nothing_staged (Pipeline.main sample_args)
    failing_uploads_world ∧
  exit_code (Pipeline.main blank_args quiet_world).1 = 1 ∧
  exit_code (Homework.main "bucket" quiet_world).1 = 1.
Proof.
  destruct exit_status as (Hsignal & Hpipeline & Hhomework).
  split; [apply Hsignal|]. split.
  - destruct (Hpipeline blank_args quiet_world) as (_ & _ & Hphases).
    destruct (Hphases blank_config
                (Pipeline.configure blank_args quiet_world).2 eq_refl)
      as (batches & retrieved & uploaded & w2 & Hb & Hrun & _ & Hnone & _).
    apply Hnone. vm_compute in Hb. injection Hb as <-.
    unfold Pipeline.run_batches, ret in Hrun. by injection Hrun as _ <- _.
  - destruct (Hhomework "bucket" quiet_world) as (_ & Hraise & _).
    apply Hraise. by vm_compute.
Defined.

(** ** End to end *)

(** Six months, batches of three, nothing fails: six objects are staged, six
    loads are issued in sorted order, and the status is 0. *)
Example end_to_end :
  exit_code (Pipeline.main sample_args quiet_world).1 = 0 ∧
  loads_issued (log (Pipeline.main sample_args quiet_world).2) =
    (fun month => "gs://bucket/raw/yellow/2024/yellow_tripdata_2024-"
                  +:+ month +:+ ".csv.gz")
    <$> ["01"; "02"; "03"; "04"; "05"; "06"].
Proof. split; by vm_compute. Qed.

(** The same run when every upload fails: nothing is staged, nothing is
    loaded, the status is 1. *)
Example all_uploads_fail :
  exit_code (Pipeline.main sample_args failing_uploads_world).1 = 1 ∧
  loads_issued (log (Pipeline.main sample_args failing_uploads_world).2) = [].
Proof. split; by vm_compute. Qed.

(** * Further properties *)

#[local] Set Warnings "-clear-no-such-hyp".

(** ** Staging: what is touched and what is not *)

Lemma cleanup_other_files path w w' evs :
  cleanup path w w' evs → ∀ p, p ≠ path → files w' !! p = files w !! p.
Proof.
  destruct 1; simpl; intros p Hp; try done. by apply lookup_delete_ne.
Qed.

Section staging_frame.
Context {R : Type}.
Variables (success failure : R).
Variables (path bucket key : string).

Local Ltac framed :=
  (split; [by intros ? [=] || by intros ? [= <-]|]);
  (split; [done || by intros [=]|]);
  unfold staging_frame; simpl;
  repeat match goal with |- _ ∧ _ => split end;
  first [ done | set_solver | by intros; split ].

Lemma upload_attempt_frame w :
  ∃ r w',
    upload_attempt success path bucket key w = (Ok r, w') ∧
    (∀ v, r = Some v → v = success) ∧
    (r = None → files w' = files w) ∧
    staging_frame path bucket key w w'
      (match r with Some _ => true | None => false end).
Proof.
  unfold upload_attempt, try_except, bind, ret, verify_gcs_upload,
    blob_exists, upload_from_filename, sleep.
  destruct (next_reply None (exists_replies w)) as [[e|] rest] eqn:Hcheck;
    simpl.
  { eexists _, _. split; [done|]. framed. }
  destruct (decide ((bucket, key) ∈ blobs w)) as [Hin|Hout].
  { rewrite bool_decide_eq_true_2 by done. simpl.
    match goal with
    | |- context [safe_remove_local path ?w1] =>
        destruct (safe_remove_local_cleanup path w1)
          as (w' & evs & -> & Hclean)
    end.
    destruct (cleanup_store _ _ _ _ Hclean) as (Hblobs & _ & _).
    assert (Hothers := cleanup_other_files _ _ _ _ Hclean).
    simpl in Hblobs, Hothers.
    eexists _, _. split; [done|].
    split; [by intros ? [= <-]|]. split; [done|].
    unfold staging_frame. rewrite Hblobs.
    repeat split; try done; clear Hclean Hothers; set_solver. }
  rewrite bool_decide_eq_false_2 by done. simpl.
  destruct (next_reply {| put_stored := true; put_error := None |}
              (put_replies w)) as [[stored err] prest] eqn:Hput; simpl.
  destruct (files w !! path) as [size|] eqn:Hfile; simpl.
  2:{ eexists _, _. split; [done|]. framed. }
  destruct err as [e|]; simpl.
  { eexists _, _. split; [done|]. destruct stored; framed. }
  destruct stored; simpl;
    destruct (next_reply None rest) as [[e|] rest'] eqn:Hverify; simpl.
  - eexists _, _. split; [done|]. framed.
  - rewrite bool_decide_eq_true_2 by set_solver. simpl.
    match goal with
    | |- context [safe_remove_local path ?w1] =>
        destruct (safe_remove_local_cleanup path w1)
          as (w' & evs & -> & Hclean)
    end.
    destruct (cleanup_store _ _ _ _ Hclean) as (Hblobs & _ & _).
    assert (Hothers := cleanup_other_files _ _ _ _ Hclean).
    simpl in Hblobs, Hothers.
    eexists _, _. split; [done|].
    split; [by intros ? [= <-]|]. split; [done|].
    unfold staging_frame. rewrite Hblobs.
    repeat split; try done; clear Hclean Hothers; set_solver.
  - eexists _, _. split; [done|]. framed.
  - rewrite bool_decide_eq_false_2 by done. simpl.
    eexists _, _. split; [done|]. framed.
Qed.

Lemma upload_attempts_frame attempts : ∀ w,
  ∃ r w' (returned : bool),
    upload_attempts success failure path bucket key attempts w = (Ok r, w') ∧
    r = (if returned then success else failure) ∧
    staging_frame path bucket key w w' returned.
Proof.
  induction attempts as [|attempt rest IH]; intros w.
  - exists failure, w, false. split; [done|]. split; [done|].
    unfold staging_frame. repeat split; try done; set_solver.
  - cbn [upload_attempts]. unfold bind at 1.
    destruct (upload_attempt_frame w) as (r & w1 & -> & Hv & Hfiles & Hframe).
    destruct r as [v|].
    + exists v, w1, true. split; [done|]. split; [by apply Hv|]. done.
    + unfold bind, sleep.
      destruct (IH (record (EvSleep RETRY_BACKOFF_SECONDS) w1))
        as (r & w2 & returned & -> & Hr & Hframe2).
      exists r, w2, returned. split; [done|]. split; [done|].
      destruct Hframe as (H1 & H2 & _ & H4 & H5).
      destruct Hframe2 as (G1 & G2 & G3 & G4 & G5). simpl in *.
      specialize (Hfiles eq_refl).
      unfold staging_frame. split; [clear -H1 G1; set_solver|].
      split; [clear -H2 G2; set_solver|].
      split; [done|]. split.
      * intros Hnone Hout. destruct (H4 Hnone Hout) as [_ Hb].
        destruct G4 as [? Hb2]; [congruence | by rewrite Hb |].
        split; [done | congruence].
      * intros p Hp. by rewrite G5, H5.
Qed.
End staging_frame.

Lemma range_items_pos n : 0 < n → ∃ rest, range_items 0 n 1 = 0 :: rest.
Proof.
  intros Hn. unfold range_items, range_len. simpl. rewrite Z.div_1_r.
  destruct (Z.to_nat (n - 0 + 1 - 1)) as [|k] eqn:Hk; [lia|].
  rewrite <- cons_seq. simpl. by eexists.
Qed.

Section staging_extra.
Import Pipeline.
Implicit Types (path bucket prefix : string) (w : World).

Lemma upload_to_gcs_changes path bucket prefix max_retries w :
  ∃ r w',
    upload_to_gcs path bucket prefix max_retries w = (Ok r, w') ∧
    let key := blob_name_of path prefix in
    blobs w ⊆ blobs w' ∧
    blobs w' ⊆ {[ (bucket, key) ]} ∪ blobs w ∧
    (∀ uri, r = Some uri →
       uri = gs_uri bucket key ∧ (bucket, key) ∈ blobs w') ∧
    (∀ p, p ≠ path → files w' !! p = files w !! p).
Proof.
  unfold upload_to_gcs.
  destruct (upload_attempts_frame
              (Some (gs_uri bucket (blob_name_of path prefix))) None
              path bucket (blob_name_of path prefix)
              (range_items 0 max_retries 1) w)
    as (r & w' & returned & Hrun & Hr & H1 & H2 & H3 & _ & H5).
  exists r, w'. split; [done|]. simpl.
  split; [done|]. split; [done|]. split; [|done].
  intros uri ->. destruct returned; [|done].
  injection Hr as ->. auto.
Qed.

(** X1. A URI that [upload_to_gcs] returns is the [gs://] URI of the key,
    and the object is in the bucket when it returns.  The bucket never loses
    an object and gains at most the one under that key; no local file other
    than the one given is touched. *)
Theorem upload_to_gcs_frame path bucket prefix max_retries w :
  ∃ r w',
    upload_to_gcs path bucket prefix max_retries w = (Ok r, w') ∧
    let key := blob_name_of path prefix in
    blobs w ⊆ blobs w' ∧
    blobs w' ⊆ {[ (bucket, key) ]} ∪ blobs w ∧
    (∀ uri, r = Some uri →
       uri = gs_uri bucket key ∧ (bucket, key) ∈ blobs w') ∧
    (∀ p, p ≠ path → files w' !! p = files w !! p).
Proof. apply upload_to_gcs_changes. Qed.

(** X2. A file that is not on disk cannot be staged: when the object is not
    in the bucket either, [upload_to_gcs] returns [None] whatever
    [max_retries] and whatever the collaborators answer, and leaves bucket
    and local files as they were. *)
Theorem upload_to_gcs_missing_file path bucket prefix max_retries w :
  files w !! path = None →
  (bucket, blob_name_of path prefix) ∉ blobs w →
  ∃ w',
    upload_to_gcs path bucket prefix max_retries w = (Ok None, w') ∧
    blobs w' = blobs w ∧ files w' = files w.
Proof.
  intros Hnone Hout.
  destruct (upload_to_gcs_facts path bucket prefix max_retries w)
    as (r & w' & Hrun & _ & _ & _ & Hdec & Hyes & Hno & _).
  unfold upload_to_gcs in Hrun.
  destruct (upload_attempts_frame
              (Some (gs_uri bucket (blob_name_of path prefix))) None
              path bucket (blob_name_of path prefix)
              (range_items 0 max_retries 1) w)
    as (r2 & w2 & returned & Hrun2 & Hr & _ & _ & _ & H4 & _).
  rewrite Hrun in Hrun2. injection Hrun2 as <- <-.
  destruct (H4 Hnone Hout) as [-> Hblobs]. subst r.
  exists w'. split; [done|]. split; [done|]. simpl in *.
  destruct Hdec as [Hver|Hnot]; [by destruct (Hyes Hver)|].
  by destruct (Hno Hnot) as (_ & _ & ? & _).
Qed.

Lemma upload_to_gcs_missing_file_witness :
  ∃ w',
    upload_to_gcs sample_path "bucket" "" 3 quiet_world = (Ok None, w') ∧
    blobs w' = blobs quiet_world ∧ files w' = files quiet_world.
Proof.
  apply (upload_to_gcs_missing_file sample_path "bucket" "" 3 quiet_world).
  - reflexivity.
  - apply not_elem_of_empty.
Defined.

(** X3. Staging again what was staged uploads nothing: after a run that
    returned a URI, a further run with at least one attempt whose first
    existence check answers returns the same URI without any upload. *)
Theorem upload_to_gcs_rerun path bucket prefix max_retries w uri w1
    retries' :
  upload_to_gcs path bucket prefix max_retries w = (Ok (Some uri), w1) →
  0 < retries' →
  (next_reply None (exists_replies w1)).1 = None →
  ∃ w2,
    upload_to_gcs path bucket prefix retries' w1 = (Ok (Some uri), w2) ∧
    count is_put (events_since w1 w2) = 0 ∧ blobs w2 = blobs w1.
Proof.
  intros Hrun Hn Hanswer.
  destruct (upload_to_gcs_changes path bucket prefix max_retries w)
    as (r & w' & Hrun' & _ & _ & Huri & _).
  rewrite Hrun in Hrun'. injection Hrun' as <- <-.
  destruct (Huri uri eq_refl) as [-> Hin].
  destruct (upload_to_gcs_facts path bucket prefix retries' w1)
    as (r2 & w2 & Hrun2 & _ & _ & _ & _ & Hyes & _ & Hpresent).
  simpl in *. destruct (Hpresent Hin) as (Hput & Hblobs & Hver).
  destruct (Hyes (Hver ltac:(lia) Hanswer)) as (-> & _).
  by exists w2.
Qed.

Lemma upload_to_gcs_rerun_witness :
  let w1 := (upload_to_gcs sample_path "bucket" "" 3 fetched_world).2 in
  ∃ w2,
    upload_to_gcs sample_path "bucket" "" 1 w1
      = (Ok (Some "gs://bucket/yellow_tripdata_2024-01.csv.gz"), w2) ∧
    count is_put (events_since w1 w2) = 0 ∧ blobs w2 = blobs w1.
Proof.
  apply (upload_to_gcs_rerun sample_path "bucket" "" 3 fetched_world).
  - rewrite (surjective_pairing
               (upload_to_gcs sample_path "bucket" "" 3 fetched_world)) at 1.
    apply (f_equal (fun r => (r, _))). vm_compute. reflexivity.
  - lia.
  - vm_compute. reflexivity.
Defined.

Lemma blob_exists_answers bucket key w :
  exists_replies w = [] →
  blob_exists bucket key w
    = (Ok (bool_decide ((bucket, key) ∈ blobs w)),
       record (EvExists bucket key
                 (Some (bool_decide ((bucket, key) ∈ blobs w))))
         (set_exists_replies [] w)).
Proof. intros Hex. unfold blob_exists. by rewrite Hex. Qed.

Lemma upload_from_filename_stores path bucket key w size :
  put_replies w = [] → files w !! path = Some size →
  upload_from_filename path bucket key w
    = (Ok tt,
       record (EvPut path bucket key false)
         (set_blobs ({[ (bucket, key) ]} ∪ blobs w) (set_put_replies [] w))).
Proof.
  intros Hput Hfile. unfold upload_from_filename. rewrite Hput.
  cbn [next_reply set_put_replies files]. by rewrite Hfile.
Qed.

Lemma safe_remove_local_removes path w size :
  path ≠ EmptyString → remove_replies w = [] →
  files w !! path = Some size →
  safe_remove_local path w
    = (Ok tt,
       record (EvRemove path false)
         (set_files (delete path (files w)) (set_remove_replies [] w))).
Proof.
  intros Hpath Hrm Hfile.
  unfold safe_remove_local, try_except, bind, os_path_exists, os_remove.
  destruct path as [|c path']; [done|]. cbn [str_is_empty].
  rewrite Hfile, bool_decide_eq_true_2 by (by eexists).
  rewrite Hrm. cbn [next_reply set_remove_replies files]. by rewrite Hfile.
Qed.

(** One pass of the loop in the plain case, with the world it leaves. *)
Lemma upload_attempt_first_pass {R} (success : R) path bucket key w size :
  staging_quiet w →
  files w !! path = Some size → path ≠ EmptyString →
  (bucket, key) ∉ blobs w →
  ∃ w',
    upload_attempt success path bucket key w = (Ok (Some success), w') ∧
    log w' = log w ++
      [EvExists bucket key (Some false); EvPut path bucket key false;
       EvExists bucket key (Some true); EvSleep UPLOAD_SLEEP_SECONDS;
       EvRemove path false] ∧
    files w' = delete path (files w) ∧
    blobs w' = {[ (bucket, key) ]} ∪ blobs w.
Proof.
  intros (Hex & Hput & Hrm) Hfile Hpath Hout.
  unfold upload_attempt, try_except, bind at 1, verify_gcs_upload.
  rewrite blob_exists_answers, bool_decide_eq_false_2 by done.
  unfold bind at 1.
  rewrite (upload_from_filename_stores _ _ _ _ size) by done.
  unfold bind at 1. rewrite blob_exists_answers by done.
  rewrite bool_decide_eq_true_2 by (cbn [record set_blobs blobs]; set_solver).
  unfold bind, sleep.
  rewrite (safe_remove_local_removes _ _ size) by done.
  eexists. split; [reflexivity|]. cbn.
  split; [by rewrite <- !app_assoc | done].
Qed.

(** X4. The plain case: the file is on disk, the object is not in the
    bucket, nothing is scripted to fail and at least one attempt is
    allowed.  Then [upload_to_gcs] makes one pass: check, upload, check,
    pause, removal; it returns the URI, the object is in the bucket and the
    local file is gone. *)
Theorem upload_to_gcs_first_pass path bucket prefix max_retries w size :
  staging_quiet w →
  files w !! path = Some size → path ≠ EmptyString →
  (bucket, blob_name_of path prefix) ∉ blobs w →
  0 < max_retries →
  ∃ w',
    let key := blob_name_of path prefix in
    upload_to_gcs path bucket prefix max_retries w
      = (Ok (Some (gs_uri bucket key)), w') ∧
    events_since w w' =
      [EvExists bucket key (Some false); EvPut path bucket key false;
       EvExists bucket key (Some true); EvSleep UPLOAD_SLEEP_SECONDS;
       EvRemove path false] ∧
    files w' = delete path (files w) ∧
    blobs w' = {[ (bucket, key) ]} ∪ blobs w.
Proof.
  intros Hquiet Hfile Hpath Hout Hn.
  destruct (range_items_pos max_retries Hn) as [rest Hrange].
  destruct (upload_attempt_first_pass
              (Some (gs_uri bucket (blob_name_of path prefix)))
              path bucket (blob_name_of path prefix) w size)
    as (w' & Hrun & Hlog & Hfiles & Hblobs); [done..|].
  exists w'. cbv zeta. unfold upload_to_gcs. rewrite Hrange.
  cbn [upload_attempts]. unfold bind at 1. rewrite Hrun.
  split; [done|]. split; [|done]. by apply events_since_app.
Qed.

Lemma upload_to_gcs_first_pass_witness :
  ∃ w',
    upload_to_gcs sample_path "bucket" "" 3 fetched_world
      = (Ok (Some "gs://bucket/yellow_tripdata_2024-01.csv.gz"), w') ∧
    files w' = delete sample_path (files fetched_world).
Proof.
  destruct (upload_to_gcs_first_pass sample_path "bucket" "" 3 fetched_world
              1024%N) as (w' & Hrun & _ & Hfiles & _).
  - by repeat split.
  - reflexivity.
  - discriminate.
  - apply not_elem_of_empty.
  - lia.
  - exists w'. split; [exact Hrun | exact Hfiles].
Defined.
End staging_extra.

(** ** Retrieval *)

Section download.
Import Pipeline.

Lemma valid_kind_base_url taxi_type year :
  valid_kind taxi_type → ∃ url, get_base_url taxi_type year = Ok url.
Proof.
  intros [Hk|Hk]; unfold get_base_url; rewrite Hk; by eexists.
Qed.

Lemma download_file_skip_aux taxi_type year month w :
  valid_kind taxi_type →
  on_disk (download_path taxi_type year month) w →
  download_file taxi_type year month w
    = (Ok (Some (download_path taxi_type year month)), w).
Proof.
  intros Hkind (size & Hfile & Hsize).
  destruct (valid_kind_base_url taxi_type year Hkind) as [url Hurl].
  unfold download_file, lift, bind at 1. rewrite Hurl.
  fold (download_name taxi_type year month).
  fold (download_path taxi_type year month).
  unfold try_except, bind, ret, os_path_exists, os_path_getsize.
  rewrite Hfile. simpl. rewrite Hfile.
  by apply N.ltb_lt in Hsize as ->.
Qed.

(** X5. A file already on disk with a non-zero size is not fetched again:
    [download_file] returns its path and leaves the world exactly as it
    was, with no request to the origin and no pause, however the file got
    there. *)
Theorem download_file_skip taxi_type year month w :
  valid_kind taxi_type →
  on_disk (download_path taxi_type year month) w →
  download_file taxi_type year month w
    = (Ok (Some (download_path taxi_type year month)), w).
Proof. apply download_file_skip_aux. Qed.

Lemma download_file_skip_witness :
  download_file "yellow" 2024 "01" fetched_world
    = (Ok (Some sample_path), fetched_world).
Proof.
  apply (download_file_skip "yellow" 2024 "01" fetched_world).
  - by left.
  - exists 1024%N. by split.
Defined.

Lemma download_file_fetch_aux taxi_type year month w url :
  get_base_url taxi_type year = Ok url →
  ¬ on_disk (download_path taxi_type year month) w →
  let path := download_path taxi_type year month in
  let target := url +:+ month +:+ ".csv.gz" in
  let (reply, rest) := next_reply (Fetched 1) (fetch_replies w) in
  let w0 := set_fetch_replies rest w in
  download_file taxi_type year month w =
    match reply with
    | Fetched size =>
        (Ok (Some path),
         record (EvSleep DOWNLOAD_SLEEP_SECONDS)
           (record (EvFetch target path false)
              (set_files (<[path := size]> (files w)) w0)))
    | FetchFails e None =>
        (Ok None, record (EvFetch target path true) w0)
    | FetchFails e (Some size) =>
        (Ok None,
         record (EvFetch target path true)
           (set_files (<[path := size]> (files w)) w0))
    end.
Proof.
  intros Hurl Hmissing. simpl.
  unfold download_file, lift, bind at 1. rewrite Hurl.
  fold (download_name taxi_type year month).
  fold (download_path taxi_type year month).
  unfold try_except, bind, ret, os_path_exists, os_path_getsize, urlretrieve,
    sleep.
  destruct (files w !! download_path taxi_type year month) as [size|] eqn:Hf;
    simpl.
  - rewrite Hf. destruct (N.ltb_spec 0 size) as [Hpos|_].
    + destruct Hmissing. by exists size.
    + simpl. destruct (next_reply (Fetched 1) (fetch_replies w))
        as [reply rest].
      by destruct reply as [?|? [?|]].
  - destruct (next_reply (Fetched 1) (fetch_replies w)) as [reply rest].
    by destruct reply as [?|? [?|]].
Qed.

(** X6. When the file is not on disk, or is there but empty,
    [download_file] makes exactly one request and never a second one: if
    the transfer succeeds the file is written, the pause follows and the
    path is returned; if it raises, [None] is returned at once, without a
    pause, and what the transfer left behind stays on disk.  The bucket is
    not touched. *)
Theorem download_file_fetch taxi_type year month w :
  valid_kind taxi_type →
  ¬ on_disk (download_path taxi_type year month) w →
  ∃ r w' url,
    download_file taxi_type year month w = (Ok r, w') ∧
    get_base_url taxi_type year = Ok url ∧
    let path := download_path taxi_type year month in
    let target := url +:+ month +:+ ".csv.gz" in
    blobs w' = blobs w ∧
    (∀ p, p ≠ path → files w' !! p = files w !! p) ∧
    match (next_reply (Fetched 1) (fetch_replies w)).1 with
    | Fetched size =>
        r = Some path ∧ files w' !! path = Some size ∧
        events_since w w' =
          [EvFetch target path false; EvSleep DOWNLOAD_SLEEP_SECONDS]
    | FetchFails e partial =>
        r = None ∧ events_since w w' = [EvFetch target path true] ∧
        files w' !! path =
          match partial with Some size => Some size | None => files w !! path end
    end.
Proof.
  intros Hkind Hmissing.
  destruct (valid_kind_base_url taxi_type year Hkind) as [url Hurl].
  assert (Hrun := download_file_fetch_aux taxi_type year month w url Hurl
                    Hmissing).
  simpl in Hrun.
  destruct (next_reply (Fetched 1) (fetch_replies w)) as [reply rest].
  destruct reply as [size|e [size|]]; rewrite Hrun;
    eexists _, _, url; (split; [reflexivity|]); (split; [done|]); simpl;
    (split; [done|]).
  - split; [intros p Hp; by apply lookup_insert_ne|].
    split; [done|]. split; [apply lookup_insert_eq|].
    apply events_since_app. simpl. by rewrite <- app_assoc.
  - split; [intros p Hp; by apply lookup_insert_ne|].
    split; [done|]. split; [by apply events_since_app|].
    apply lookup_insert_eq.
  - split; [done|]. split; [done|]. split; [by apply events_since_app|done].
Qed.

Lemma download_file_fetch_witness :
  ∃ w',
    download_file "yellow" 2024 "01" quiet_world = (Ok (Some sample_path), w') ∧
    files w' !! sample_path = Some 1%N.
Proof.
  destruct (download_file_fetch "yellow" 2024 "01" quiet_world)
    as (r & w' & url & Hrun & _ & _ & _ & Hreply).
  - by left.
  - by intros (size & [=] & _).
  - simpl in Hreply. destruct Hreply as (-> & Hfile & _). by exists w'.
Defined.

(** X7. What a failed transfer leaves behind is taken for the file: if the
    transfer raises after writing a non-empty partial file, this call
    returns [None], and the next call returns the path of the partial file
    without asking the origin again. *)
Theorem download_file_partial taxi_type year month w e size rest :
  valid_kind taxi_type →
  ¬ on_disk (download_path taxi_type year month) w →
  fetch_replies w = FetchFails e (Some size) :: rest →
  (0 < size)%N →
  ∃ w1,
    download_file taxi_type year month w = (Ok None, w1) ∧
    download_file taxi_type year month w1
      = (Ok (Some (download_path taxi_type year month)), w1) ∧
    files w1 !! download_path taxi_type year month = Some size.
Proof.
  intros Hkind Hmissing Hreply Hsize.
  destruct (valid_kind_base_url taxi_type year Hkind) as [url Hurl].
  assert (Hrun := download_file_fetch_aux taxi_type year month w url Hurl
                    Hmissing).
  simpl in Hrun. rewrite Hreply in Hrun. simpl in Hrun.
  eexists. split; [exact Hrun|].
  assert (Hfile : ∀ ev fs,
            files (record ev (set_files
                     (<[download_path taxi_type year month := size]> (files w))
                     (set_fetch_replies fs w)))
              !! download_path taxi_type year month = Some size)
    by (intros; apply lookup_insert_eq).
  split; [|apply Hfile].
  apply download_file_skip_aux; [done|]. exists size. split; [apply Hfile|done].
Qed.

Lemma download_file_partial_witness :
  ∃ w1,
    download_file "yellow" 2024 "01"
      (set_fetch_replies [FetchFails (TransportError "reset") (Some 7%N)]
         quiet_world) = (Ok None, w1) ∧
    download_file "yellow" 2024 "01" w1 = (Ok (Some sample_path), w1).
Proof.
  destruct (download_file_partial "yellow" 2024 "01"
              (set_fetch_replies [FetchFails (TransportError "reset") (Some 7%N)]
                 quiet_world) (TransportError "reset") 7%N [])
    as (w1 & Hfirst & Hsecond & _).
  - by left.
  - by intros (size & [=] & _).
  - reflexivity.
  - reflexivity.
  - exists w1. by split.
Defined.

(** X8. The kind is checked before anything else: for a kind that is
    neither [yellow] nor [green], [download_file] raises [ValueError] and
    the world is as it was. *)
Theorem download_file_bad_kind taxi_type year month w :
  ¬ valid_kind taxi_type →
  ∃ msg, download_file taxi_type year month w = (Raise (ValueError msg), w).
Proof.
  intros Hkind. unfold download_file, lift, bind at 1, get_base_url.
  destruct (String.eqb_spec (str_lower taxi_type) "yellow") as [Hy|_];
    [destruct Hkind; by left|].
  destruct (String.eqb_spec (str_lower taxi_type) "green") as [Hg|_];
    [destruct Hkind; by right|].
  simpl. by eexists.
Qed.

Lemma download_file_bad_kind_witness :
  ∃ msg,
    download_file "fhv" 2024 "01" quiet_world = (Raise (ValueError msg), quiet_world).
Proof.
  apply (download_file_bad_kind "fhv" 2024 "01" quiet_world).
  by intros [[=]|[=]].
Defined.
End download.

(** ** Dataset kinds *)

Lemma lower_char_idem c : lower_char (lower_char c) = lower_char c.
Proof. destruct c as [[] [] [] [] [] [] [] []]; by vm_compute. Qed.

Lemma str_lower_idem s : str_lower (str_lower s) = str_lower s.
Proof. induction s as [|c s IH]; simpl; [done|]. by rewrite lower_char_idem, IH. Qed.

Section kinds.
Import Pipeline.

(** X9. The three helpers that depend on the dataset kind accept the same
    kinds: each succeeds exactly when the kind, lower-cased, is [yellow] or
    [green], raises [ValueError] otherwise, and gives the same answer for a
    kind and for its lower-case spelling. *)
Theorem kind_helpers_agree taxi_type year :
  ((∃ f, get_partition_field taxi_type = Ok f) ↔ valid_kind taxi_type) ∧
  ((∃ schema, get_bq_schema taxi_type = Ok schema) ↔ valid_kind taxi_type) ∧
  ((∃ url, get_base_url taxi_type year = Ok url) ↔ valid_kind taxi_type) ∧
  (¬ valid_kind taxi_type →
   raises_ValueError (get_partition_field taxi_type) ∧
   raises_ValueError (get_bq_schema taxi_type) ∧
   raises_ValueError (get_base_url taxi_type year)) ∧
  get_partition_field (str_lower taxi_type) = get_partition_field taxi_type ∧
  get_bq_schema (str_lower taxi_type) = get_bq_schema taxi_type ∧
  get_base_url (str_lower taxi_type) year = get_base_url taxi_type year.
Proof.
  unfold valid_kind, get_partition_field, get_bq_schema, get_base_url.
  rewrite !str_lower_idem.
  destruct (String.eqb_spec (str_lower taxi_type) "yellow") as [Hy|Hy];
    destruct (String.eqb_spec (str_lower taxi_type) "green") as [Hg|Hg];
    simpl.
  - congruence.
  - repeat split; eauto; try tauto; by intros [].
  - repeat split; eauto; try tauto; by intros [].
  - repeat split; try done; try tauto; by intros [].
Qed.

Lemma kind_helpers_agree_witness :
  raises_ValueError (get_partition_field "fhv") ∧
  raises_ValueError (get_bq_schema "fhv") ∧
  raises_ValueError (get_base_url "fhv" 2024).
Proof.
  destruct (kind_helpers_agree "fhv" 2024) as (_ & _ & _ & Hbad & _).
  apply Hbad. by intros [[=]|[=]].
Defined.
End kinds.

(** ** Paths, keys and URIs *)

Lemma pretty_N_go_forall (p : ascii → bool) :
  (∀ d, p (pretty_N_char d) = true) →
  ∀ x s, str_forall p s = true → str_forall p (pretty_N_go x s) = true.
Proof.
  intros Hd x. induction (N.lt_wf_0 x) as [x _ IH]. intros s Hs.
  destruct (decide (0 < x)%N) as [Hx|Hx].
  - rewrite pretty_N_go_step by done. apply IH.
    + apply N.div_lt; lia.
    + simpl. by rewrite Hd, Hs.
  - assert (x = 0%N) as -> by lia. by rewrite pretty_N_go_0.
Qed.

Lemma pretty_N_char_no_slash d :
  negb (Ascii.eqb (pretty_N_char d) "/") = true.
Proof. unfold pretty_N_char. by repeat case_match. Qed.

(** [str(n)] is made of digits and, in front, a sign: never a slash. *)
Lemma py_str_no_slash n : str_contains "/" (py_str n) = false.
Proof.
  assert (HN : ∀ x : N, str_forall (fun c => negb (Ascii.eqb c "/"))
                          (pretty x) = true).
  { intros x. unfold pretty, pretty_N. case_decide; [done|].
    by apply pretty_N_go_forall; [apply pretty_N_char_no_slash|]. }
  assert (Hno : ∀ s, str_forall (fun c => negb (Ascii.eqb c "/")) s = true →
                     str_contains "/" s = false).
  { intros s Hs.
    by apply (str_contains_false "/" (fun c => negb (Ascii.eqb c "/"))). }
  unfold py_str, pretty, pretty_Z. destruct n as [|x|x]; [done| |].
  - apply Hno, HN.
  - rewrite str_contains_app. simpl. apply Hno, HN.
Qed.

Lemma lower_char_slash c :
  Ascii.eqb (lower_char c) "/" = Ascii.eqb c "/".
Proof. destruct c as [[] [] [] [] [] [] [] []]; by vm_compute. Qed.

Lemma str_lower_slash s :
  str_contains "/" (str_lower s) = str_contains "/" s.
Proof.
  induction s as [|c s IH]; simpl; [done|]. by rewrite lower_char_slash, IH.
Qed.

Lemma valid_kind_no_slash taxi_type :
  valid_kind taxi_type →
  str_contains "/" taxi_type = false ∧ taxi_type ≠ EmptyString.
Proof.
  intros Hkind. split.
  - rewrite <- str_lower_slash. by destruct Hkind as [-> | ->].
  - intros ->. by destruct Hkind.
Qed.

Lemma basename_no_slash s : str_contains "/" s = false → basename s = s.
Proof.
  destruct s as [|c s]; simpl; [done|].
  intros [Hc Hs]%orb_false_iff. by rewrite Hc, Hs.
Qed.

Lemma str_app_length s t :
  String.length (s +:+ t) = (String.length s + String.length t)%nat.
Proof.
  induction s as [|c s IH]; [done|].
  change (S (String.length (s +:+ t))
          = S (String.length s + String.length t)). by rewrite IH.
Qed.

Lemma str_app_inj_r s1 s2 t : s1 +:+ t = s2 +:+ t → s1 = s2.
Proof.
  revert s2. induction s1 as [|c s1 IH]; intros [|d s2] Heq.
  - done.
  - apply (f_equal String.length) in Heq.
    rewrite !str_app_length in Heq. simpl in Heq. lia.
  - apply (f_equal String.length) in Heq.
    rewrite !str_app_length in Heq. simpl in Heq. lia.
  - change (String c (s1 +:+ t) = String d (s2 +:+ t)) in Heq.
    injection Heq as -> Heq. f_equal. by apply IH.
Qed.

Lemma download_name_no_slash taxi_type year month :
  valid_kind taxi_type → str_contains "/" month = false →
  str_contains "/" (download_name taxi_type year month) = false.
Proof.
  intros [Hkind _]%valid_kind_no_slash Hmonth. unfold download_name.
  rewrite !str_contains_app, Hkind, py_str_no_slash, Hmonth. done.
Qed.

Lemma os_path_join_dot b :
  (∀ rest, b ≠ String "/" rest) → os_path_join "." b = "./" +:+ b.
Proof.
  intros Hb. unfold os_path_join. destruct b as [|c b]; [done|].
  destruct (Ascii.eqb_spec c "/") as [->|Hc]; [by destruct (Hb b)|].
  destruct c as [[] [] [] [] [] [] [] []]; done.
Qed.

Lemma download_path_eq taxi_type year month :
  valid_kind taxi_type →
  download_path taxi_type year month
    = "./" +:+ download_name taxi_type year month.
Proof.
  intros Hkind. destruct (valid_kind_no_slash _ Hkind) as [Hslash Hne].
  apply os_path_join_dot. intros rest. unfold download_name.
  destruct taxi_type as [|c t]; [done|]. simpl in Hslash.
  apply orb_false_iff in Hslash as [Hc _].
  change (String c (t +:+ "_tripdata_" +:+ py_str year +:+ "-" +:+ month
                      +:+ ".csv.gz") ≠ String "/" rest).
  intros [= -> _]. done.
Qed.

Section keys.
Import Pipeline.

Lemma blob_name_of_download taxi_type year month :
  valid_kind taxi_type → str_contains "/" month = false →
  basename (download_path taxi_type year month)
    = download_name taxi_type year month.
Proof.
  intros Hkind Hmonth. rewrite download_path_eq by done.
  assert (Hname := download_name_no_slash taxi_type year month Hkind Hmonth).
  change ("./" +:+ download_name taxi_type year month)
    with (String "." (String "/" (download_name taxi_type year month))).
  cbn [basename str_contains]. simpl.
  by apply basename_no_slash.
Qed.

(** X10. The items of a run do not share resources: for one kind and year,
    two different months (tokens without a slash, as [months_from_args]
    returns them) get different local paths, different object keys under any
    prefix and different URIs; with no prefix the key of an item is its file
    name. *)
Theorem items_do_not_collide taxi_type year month1 month2 bucket prefix :
  valid_kind taxi_type →
  str_contains "/" month1 = false → str_contains "/" month2 = false →
  month1 ≠ month2 →
  let path1 := download_path taxi_type year month1 in
  let path2 := download_path taxi_type year month2 in
  path1 ≠ path2 ∧
  blob_name_of path1 prefix ≠ blob_name_of path2 prefix ∧
  gs_uri bucket (blob_name_of path1 prefix)
    ≠ gs_uri bucket (blob_name_of path2 prefix) ∧
  blob_name_of path1 "" = download_name taxi_type year month1.
Proof.
  intros Hkind H1 H2 Hne. simpl.
  assert (Hnames : download_name taxi_type year month1
                   ≠ download_name taxi_type year month2).
  { unfold download_name. intros Heq.
    do 4 apply String.app_inj in Heq. by apply str_app_inj_r in Heq. }
  assert (Hkeys : blob_name_of (download_path taxi_type year month1) prefix
                  ≠ blob_name_of (download_path taxi_type year month2) prefix).
  { unfold blob_name_of. rewrite !blob_name_of_download by done.
    destruct (str_is_empty _); [done|].
    intros Heq. by do 2 apply String.app_inj in Heq. }
  split; [|split; [done|split]].
  - rewrite !download_path_eq by done. intros Heq.
    by apply String.app_inj in Heq.
  - unfold gs_uri. intros Heq. by do 3 apply String.app_inj in Heq.
  - unfold blob_name_of. simpl. by apply blob_name_of_download.
Qed.

Lemma items_do_not_collide_witness :
  download_path "yellow" 2024 "01" ≠ download_path "yellow" 2024 "02" ∧
  blob_name_of (download_path "yellow" 2024 "01") "raw"
    ≠ blob_name_of (download_path "yellow" 2024 "02") "raw".
Proof.
  destruct (items_do_not_collide "yellow" 2024 "01" "02" "bucket" "raw")
    as (Hpaths & Hkeys & _); [by left | done | done | done |].
  by split.
Defined.
End keys.

(** ** Batching and period expressions: the edges *)

Lemma range_len_negative_step stop step :
  0 ≤ stop → step < 0 → range_len 0 stop step = 0%nat.
Proof.
  intros Hstop Hstep. unfold range_len.
  destruct (Z.ltb_spec 0 step); [lia|].
  assert ((0 - stop - step - 1) `div` (- step) < 1)
    by (apply Z.div_lt_upper_bound; lia).
  lia.
Qed.

(** X11. [chunked] off its intended use: a batch size of zero is a
    [ValueError], raised by [range]; a negative batch size yields no batch
    at all, so the items are dropped without an error; an empty list yields
    no batch for any non-zero size. *)
Theorem chunked_edges {A} (lst : list A) (size : Z) :
  (size = 0 → raises_ValueError (chunked lst size)) ∧
  (size < 0 → chunked lst size = Ok []) ∧
  (size ≠ 0 → chunked (@nil A) size = Ok []).
Proof.
  unfold chunked, py_range, range_items. split; [|split].
  - by intros ->.
  - intros Hsize. destruct (Z.eqb_spec size 0); [lia|]. simpl.
    rewrite range_len_negative_step; [done | unfold len; lia | done].
  - intros Hsize. destruct (Z.eqb_spec size 0); [done|]. simpl.
    destruct (Z.lt_ge_cases size 0).
    + by rewrite range_len_negative_step.
    + unfold range_len, len. simpl.
      destruct (Z.ltb_spec 0 size); [|lia].
      rewrite Z.div_small by lia. done.
Qed.

Lemma chunked_edges_witness :
  raises_ValueError (chunked ["01"; "02"] 0) ∧
  chunked ["01"; "02"] (-3) = Ok [] ∧
  chunked (@nil string) 3 = Ok [].
Proof.
  destruct (chunked_edges ["01"; "02"] 0) as (Hzero & _ & _).
  destruct (chunked_edges ["01"; "02"] (-3)) as (_ & Hneg & _).
  destruct (chunked_edges (@nil string) 3) as (_ & _ & Hnil).
  split; [by apply Hzero|]. split; [apply Hneg; lia | apply Hnil; lia].
Defined.

Lemma month_token_numeral t :
  month_token t →
  is_numeral t ∧ is_month (numeral_value t) = true ∧
  fmt_02d (numeral_value t) = t.
Proof.
  intros (m & Hm & -> & _).
  assert (Hcases : m ∈ seqZ 1 12) by (apply elem_of_seqZ; lia).
  vm_compute in Hcases.
  repeat (apply elem_of_cons in Hcases as [->|Hcases];
          [split; [split; [discriminate | split; [reflexivity | simpl; lia]]
                  | by vm_compute]|]).
  by apply elem_of_nil in Hcases.
Qed.

(** X12. The tokens are a fixed point of the parser: whatever
    [months_from_args] returns, joined with commas, is read back as the
    same list. *)
Theorem months_from_args_round_trip s out :
  months_from_args s = Ok out →
  months_from_args (str_join "," out) = Ok out.
Proof.
  intros Htokens%months_from_args_tokens.
  destruct out as [|t out]; [by apply months_from_args_blank|].
  set (tokens := t :: out) in *.
  assert (Hnum : Forall is_numeral tokens).
  { eapply Forall_impl; [exact Htokens|]. by intros ? (? & _)%month_token_numeral. }
  assert (Hall : forallb is_month (numeral_value <$> tokens) = true).
  { clear Hnum. induction Htokens as [|x l Hx _ IH]; [done|]. simpl.
    destruct (month_token_numeral x Hx) as (_ & -> & _). exact IH. }
  assert (Hback : fmt_02d <$> (numeral_value <$> tokens) = tokens).
  { clear Hnum Hall. induction Htokens as [|x l Hx _ IH]; [done|].
    rewrite !fmap_cons, IH.
    by destruct (month_token_numeral x Hx) as (_ & _ & ->). }
  assert (Hlist := months_from_args_list tokens ltac:(done) Hnum).
  rewrite Hall in Hlist. by rewrite Hlist, Hback.
Qed.

Lemma months_from_args_round_trip_witness :
  months_from_args "01,02,03" = Ok ["01"; "02"; "03"].
Proof.
  apply (months_from_args_round_trip "1-3" ["01"; "02"; "03"]).
  by vm_compute.
Defined.

(** X13. A month cannot be negative: an expression whose first character,
    blanks aside, is a dash is read as a range with nothing before the
    dash, and raises [ValueError]. *)
Theorem months_from_args_leading_dash s rest :
  str_strip s = String "-" rest →
  raises_ValueError (months_from_args s).
Proof.
  intros Hstrip. unfold months_from_args. rewrite Hstrip.
  cbn [str_contains]. rewrite Ascii.eqb_refl. simpl.
  destruct (str_split "-" (Some 0%nat) rest) as [|? [|? ?]]; by eexists.
Qed.

Lemma months_from_args_leading_dash_witness :
  raises_ValueError (months_from_args " -1") ∧
  raises_ValueError (months_from_args "-1-6").
Proof.
  split.
  - apply (months_from_args_leading_dash " -1" "1"). reflexivity.
  - apply (months_from_args_leading_dash "-1-6" "1-6"). reflexivity.
Defined.

(** ** The batch loop: what reaches the loader *)

Global Instance staging_step_preorder : PreOrder staging_step.
Proof.
  split.
  - intros w. split; [done|]. exists []. by rewrite app_nil_r.
  - intros w1 w2 w3 [Hb1 (evs1 & H1 & Hl1)] [Hb2 (evs2 & H2 & Hl2)].
    split; [by etrans|]. exists (evs1 ++ evs2).
    split; [by rewrite H2, H1, app_assoc|].
    by rewrite loads_issued_app, Hl1, Hl2.
Qed.

Lemma staging_step_extends w w' : staging_step w w' → extends w w'.
Proof. intros [_ (evs & H & _)]. by exists evs. Qed.

Lemma staging_step_loads w w' :
  staging_step w w' → loads_issued (events_since w w') = [].
Proof. intros [_ (evs & H & Hl)]. by rewrite (events_since_app _ _ _ H). Qed.

Lemma staging_step_schedule s w : staging_step w (set_schedule s w).
Proof. split; [done|]. exists []. by rewrite app_nil_r. Qed.

Create HintDb stages discriminated.

Section stages.
Context {A B : Type}.

Lemma stages_ret (a : A) : stages (ret a).
Proof. intros w. reflexivity. Qed.

Lemma stages_raise (e : exn) : stages (raise (A:=A) e).
Proof. intros w. reflexivity. Qed.

Lemma stages_lift (r : result A) : stages (lift r).
Proof. intros w. reflexivity. Qed.

Lemma stages_bind (m : M A) (k : A → M B) :
  stages m → (∀ a, stages (k a)) → stages (bind m k).
Proof.
  intros Hm Hk w. unfold bind. specialize (Hm w).
  destruct (m w) as [[a|e] w1]; [|done].
  etrans; [exact Hm|]. apply Hk.
Qed.

Lemma stages_try_except (body : M A) (handler : exception → M A) :
  stages body → (∀ e, stages (handler e)) → stages (try_except body handler).
Proof.
  intros Hbody Hhandler w. unfold try_except. specialize (Hbody w).
  destruct (body w) as [[a|[e|c]] w1]; [done| |done].
  etrans; [exact Hbody|]. apply Hhandler.
Qed.

Lemma stages_if (b : bool) (m1 m2 : M A) :
  stages m1 → stages m2 → stages (if b then m1 else m2).
Proof. by destruct b. Qed.
End stages.

Local Ltac staged :=
  intros w; unfold staging_step; simpl;
  repeat match goal with
         | |- context [next_reply ?d ?s] => destruct (next_reply d s)
         | |- context [match ?x with _ => _ end] => destruct x
         end;
  simpl; (split; [set_solver|]);
  first [ exists []; split; [by rewrite app_nil_r | done]
        | eexists [_]; split; reflexivity ].

Lemma stages_sleep p : stages (sleep p).
Proof. unfold sleep. staged. Qed.

Lemma stages_os_path_exists path : stages (os_path_exists path).
Proof. unfold os_path_exists. staged. Qed.

Lemma stages_os_path_getsize path : stages (os_path_getsize path).
Proof. unfold os_path_getsize. staged. Qed.

Lemma stages_os_remove path : stages (os_remove path).
Proof. unfold os_remove. staged. Qed.

Lemma stages_urlretrieve url path : stages (urlretrieve url path).
Proof. unfold urlretrieve. staged. Qed.

Lemma stages_blob_exists bucket key : stages (blob_exists bucket key).
Proof. unfold blob_exists. staged. Qed.

Lemma stages_upload_from_filename path bucket key :
  stages (upload_from_filename path bucket key).
Proof. unfold upload_from_filename. staged. Qed.

Lemma stages_infra_call call : stages (infra_call call).
Proof. unfold infra_call. staged. Qed.

Lemma stages_as_completed {A} (futures : list A) :
  stages (as_completed futures).
Proof. unfold as_completed. staged. Qed.

Global Hint Resolve stages_ret stages_raise stages_lift stages_sleep
  stages_os_path_exists stages_os_path_getsize stages_os_remove
  stages_urlretrieve stages_blob_exists stages_upload_from_filename
  stages_infra_call stages_as_completed : stages.

Ltac stages_step :=
  first
    [ apply stages_bind; [|intros ?]
    | apply stages_try_except; [|intros ?]
    | apply stages_if
    | match goal with
      | |- stages (match ?x with _ => _ end) => destruct x
      end
    | solve [auto with stages] ].

Ltac stages := repeat stages_step.

Lemma stages_safe_remove_local path : stages (safe_remove_local path).
Proof. unfold safe_remove_local. stages. Qed.
Global Hint Resolve stages_safe_remove_local : stages.

Lemma stages_upload_attempt {R} (success : R) path bucket key :
  stages (upload_attempt success path bucket key).
Proof. unfold upload_attempt, verify_gcs_upload. stages. Qed.
Global Hint Resolve stages_upload_attempt : stages.

Lemma stages_upload_attempts {R} (success failure : R) path bucket key
    attempts :
  stages (upload_attempts success failure path bucket key attempts).
Proof. induction attempts; cbn [upload_attempts]; stages. Qed.
Global Hint Resolve stages_upload_attempts : stages.

Lemma length_omap_le {A B} (f : A → option B) (l : list A) :
  (length (omap f l) ≤ length l)%nat.
Proof.
  induction l as [|x l IH]; [done|]. csimpl.
  destruct (f x); simpl; lia.
Qed.

Section submit_rel.
Context {A B : Type}.
Variable task : A → M B.
Context (rel : relation World) `{!PreOrder rel}.
Hypothesis task_rel : ∀ x w, rel w (task x w).2.
Hypothesis task_returns : ∀ x, returns (task x).

(** Every future of the pool holds the value its task returned somewhere
    in the course of the pool's run, for any notion [rel] of "course of
    the run" that the tasks respect. *)
Lemma submit_all_rel xs : ∀ w,
  ∃ bs w',
    submit_all task xs w = (Ok (Ok <$> bs), w') ∧ rel w w' ∧
    Forall2 (fun x b => ∃ w0 w1,
               rel w w0 ∧ rel w1 w' ∧ task x w0 = (Ok b, w1)) xs bs.
Proof.
  induction xs as [|x rest IH]; intros w.
  - exists [], w. by repeat split.
  - cbn [submit_all].
    assert (Hrel := task_rel x w).
    destruct (task_returns x w) as [b Hb].
    destruct (task x w) as [r w1] eqn:Hrun. simpl in Hb, Hrel. subst r.
    destruct (IH w1) as (bs & w' & Hrest & Hext & Hall).
    exists (b :: bs), w'. unfold bind, ret. rewrite Hrest.
    split; [done|]. split; [by etrans|].
    constructor.
    + exists w, w1. by repeat split.
    + eapply Forall2_impl; [exact Hall|].
      intros x' b' (w0 & w2 & ? & ? & ?).
      exists w0, w2. repeat split; try done. by etrans.
Qed.
End submit_rel.

Section pool_rel.
Context {A : Type}.
Variable task : A → M (option string).
Context (rel : relation World) `{!PreOrder rel}.
Hypothesis rel_schedule : ∀ s w, rel w (set_schedule s w).
Hypothesis task_rel : ∀ x w, rel w (task x w).2.
Hypothesis task_returns : ∀ x, returns (task x).

Lemma pool_collect_rel xs acc w :
  ∃ new w',
    (let* futures := submit_all task xs in
     let* finished := as_completed futures in
     lift (collect finished acc)) w = (Ok (acc ++ new), w') ∧
    rel w w' ∧ (length new ≤ length xs)%nat ∧
    ∀ s, s ∈ new →
      ∃ x w0 w1, x ∈ xs ∧ rel w w0 ∧ rel w1 w' ∧
                 task x w0 = (Ok (Some s), w1).
Proof.
  unfold bind, lift.
  destruct (submit_all_rel task rel task_rel task_returns xs w)
    as (bs & w1 & -> & Hext & Hall).
  unfold as_completed.
  destruct (next_reply [] (schedule w1)) as [ks rest].
  rewrite shuffle_fmap, collect_run.
  assert (Hext2 : rel w1 (set_schedule rest w1)) by apply rel_schedule.
  exists (omap kept (shuffle ks bs)), (set_schedule rest w1).
  split; [done|]. split; [by etrans|]. split.
  - etrans; [apply length_omap_le|].
    by rewrite (Permutation_length (shuffle_Permutation ks bs)),
      <- (Forall2_length _ _ _ Hall).
  - intros s Hs%elem_of_kept. rewrite shuffle_Permutation in Hs.
    apply list_elem_of_lookup in Hs as [i Hi].
    destruct (Forall2_lookup_r _ _ _ _ _ Hall Hi)
      as (x & Hx & w0 & w3 & ? & ? & ?).
    exists x, w0, w3. repeat split; try done.
    + by eapply list_elem_of_lookup_2.
    + by etrans.
Qed.
End pool_rel.

Lemma chunked_concat {A} (lst : list A) (size : Z) batches :
  0 < size → chunked lst size = Ok batches → concat batches = lst.
Proof.
  intros Hsize. unfold chunked, py_range.
  destruct (Z.eqb_spec size 0); [lia|]. simpl. intros [= <-].
  unfold range_items. rewrite <- list_fmap_compose.
  assert (Hn := range_len_chunks (len lst) size ltac:(unfold len; lia) Hsize).
  assert (Hcover := ceil_div_cover (len lst) size Hsize).
  rewrite (list_fmap_ext _ (block (Z.to_nat size) lst)
             (seq 0 (range_len 0 (len lst) size))).
  2:{ intros i k _. simpl. rewrite Z.add_0_l. by apply slice_block. }
  apply concat_blocks. unfold len in *. nia.
Qed.

Section batches.
Import Pipeline.

Lemma stages_download_file taxi_type year month :
  stages (download_file taxi_type year month).
Proof. unfold download_file. stages. Qed.

Lemma stages_upload_to_gcs path bucket prefix max_retries :
  stages (upload_to_gcs path bucket prefix max_retries).
Proof. unfold upload_to_gcs. stages. Qed.

Lemma stages_ensure_bucket bucket_name : stages (ensure_bucket bucket_name).
Proof.
  unfold ensure_bucket. destruct (_ || _); [apply stages_raise|].
  intros w. assert (H1 := stages_infra_call "get_bucket" w).
  destruct (infra_call "get_bucket" w) as [[[]|[e|c]] w1]; simpl in *;
    try done.
  destruct e; try done. simpl.
  etrans; [exact H1|]. apply stages_infra_call.
Qed.

Lemma stages_new_dataset dataset_id : stages (new_dataset dataset_id).
Proof. intros w. unfold new_dataset. by case_bool_decide. Qed.

Lemma stages_ensure_bq_dataset project dataset location :
  stages (ensure_bq_dataset project dataset location).
Proof.
  unfold ensure_bq_dataset.
  apply stages_bind; [apply stages_new_dataset|intros _].
  intros w. assert (H1 := stages_infra_call "get_dataset" w).
  destruct (infra_call "get_dataset" w) as [[[]|[e|c]] w1]; simpl in *;
    try done.
  destruct e; try done. simpl.
  etrans; [exact H1|]. apply stages_infra_call.
Qed.

Lemma stages_configure args : stages (configure args).
Proof.
  unfold configure.
  apply stages_bind; [apply stages_lift|intros ?].
  apply stages_bind; [apply stages_lift|intros ?].
  apply stages_bind;
    [destruct (truthy _); [apply stages_ret | intros w; reflexivity]|intros ?].
  apply stages_bind; [apply stages_lift|intros ?].
  apply stages_bind; [apply stages_ensure_bucket|intros ?].
  apply stages_bind; [apply stages_ensure_bq_dataset|intros ?].
  apply stages_ret.
Qed.

Lemma valid_kind_partition_field taxi_type :
  valid_kind taxi_type → ∃ f, get_partition_field taxi_type = Ok f.
Proof.
  intros [Hk|Hk]; unfold get_partition_field; rewrite Hk; by eexists.
Qed.

Lemma download_file_path taxi_type year month w fp w' :
  download_file taxi_type year month w = (Ok (Some fp), w') →
  fp = download_path taxi_type year month.
Proof.
  unfold download_file, lift, bind at 1.
  destruct (get_base_url taxi_type year) as [url|]; [|done].
  fold (download_name taxi_type year month).
  fold (download_path taxi_type year month).
  unfold try_except, bind, ret, os_path_exists, os_path_getsize, urlretrieve,
    sleep.
  destruct (files w !! download_path taxi_type year month) as [size|] eqn:Hf;
    simpl.
  - rewrite Hf. destruct (N.ltb 0 size); simpl; [by intros [= <- _]|].
    destruct (next_reply (Fetched 1) (fetch_replies w)) as [[?|? [?|]] ?];
      simpl; by intros [= <- _].
  - destruct (next_reply (Fetched 1) (fetch_replies w)) as [[?|? [?|]] ?];
      simpl; by intros [= <- _].
Qed.

(** The batch loop, with where its two lists come from. *)
Lemma run_batches_facts args batches :
  valid_kind (taxi_type args) →
  ∀ retrieved uploaded_uris w,
    ∃ fetched staged w',
      run_batches args batches retrieved uploaded_uris w
        = (Ok (retrieved ++ fetched, uploaded_uris ++ staged), w') ∧
      staging_step w w' ∧
      (length staged ≤ length fetched ≤ length (concat batches))%nat ∧
      (∀ fp, fp ∈ fetched →
         ∃ m, m ∈ concat batches ∧
              fp = download_path (taxi_type args) (year args) m) ∧
      (∀ uri, uri ∈ staged →
         ∃ fp, fp ∈ fetched ∧
           uri = gs_uri (bucket args) (blob_name_of fp (gcs_prefix args)) ∧
           (bucket args, blob_name_of fp (gcs_prefix args)) ∈ blobs w').
Proof.
  intros Hkind. destruct (valid_kind_partition_field _ Hkind) as [f Hf].
  induction batches as [|month_batch rest IH]; intros retrieved uploaded_uris w.
  - exists [], [], w. rewrite !app_nil_r. split; [done|].
    split; [reflexivity|]. split; [simpl; lia|].
    split; intros ? []%elem_of_nil.
  - cbn [run_batches].
    destruct (pool_collect_rel (download_file (taxi_type args) (year args))
                staging_step staging_step_schedule
                ltac:(intros; apply stages_download_file)
                ltac:(intros; by eapply download_file_returns)
                month_batch [] w)
      as (downloaded & w1 & Hdown & Hstep1 & Hlen1 & Hfrom1).
    rewrite app_nil_l in Hdown.
    unfold bind at 1 in Hdown. unfold bind at 1.
    destruct (submit_all _ month_batch w) as [[futs|e] w0]; [|done].
    unfold bind at 1 in Hdown. unfold bind at 1.
    destruct (as_completed futs w0) as [[finished|e] w0']; [|done].
    unfold bind at 1. rewrite Hdown.
    assert (Hpaths : ∀ fp, fp ∈ downloaded →
              ∃ m, m ∈ concat (month_batch :: rest) ∧
                   fp = download_path (taxi_type args) (year args) m).
    { intros fp (m & wa & wb & Hm & _ & _ & Hrun)%Hfrom1.
      exists m. split; [simpl; apply elem_of_app; by left|].
      by eapply download_file_path. }
    destruct downloaded as [|fp0 fps].
    + destruct (IH retrieved uploaded_uris w1)
        as (fetched & staged & w' & -> & Hstep & Hlen & Hfetched & Hstaged).
      exists fetched, staged, w'. split; [done|]. split; [by etrans|].
      split; [simpl; rewrite length_app; lia|].
      split; [|done].
      intros fp (m & Hm & ->)%Hfetched.
      exists m. split; [simpl; apply elem_of_app; by right | done].
    + set (downloaded := fp0 :: fps) in *.
      destruct (pool_collect_rel
                  (fun fp => upload_to_gcs fp (bucket args) (gcs_prefix args) 3)
                  staging_step staging_step_schedule
                  ltac:(intros; apply stages_upload_to_gcs)
                  ltac:(intros; apply upload_to_gcs_returns)
                  downloaded uploaded_uris w1)
        as (new & w2 & Hup & Hstep2 & Hlen2 & Hfrom2).
      unfold bind at 1 in Hup. unfold bind at 1.
      destruct (submit_all _ downloaded w1) as [[futs2|e] w1']; [|done].
      unfold bind at 1 in Hup. unfold bind at 1.
      destruct (as_completed futs2 w1') as [[finished2|e] w1'']; [|done].
      unfold bind at 1. rewrite Hup.
      destruct (IH (retrieved ++ downloaded) (uploaded_uris ++ new) w2)
        as (fetched & staged & w' & -> & Hstep & Hlen & Hfetched & Hstaged).
      exists (downloaded ++ fetched), (new ++ staged), w'.
      rewrite !app_assoc. split; [done|].
      split; [by repeat (etrans; [eassumption|])|].
      split; [clear -Hlen Hlen1 Hlen2; subst downloaded; simpl in *;
              rewrite !length_app in *; simpl in *; lia|].
      split.
      * intros fp [Hfp|Hfp]%elem_of_app; [by apply Hpaths|].
        destruct (Hfetched fp Hfp) as (m & Hm & ->).
        exists m. split; [simpl; apply elem_of_app; by right | done].
      * intros uri [Huri|Huri]%elem_of_app.
        -- destruct (Hfrom2 uri Huri) as (fp & wa & wb & Hfp & _ & Hb & Hrun).
           destruct (upload_to_gcs_changes fp (bucket args) (gcs_prefix args)
                       3 wa) as (r & wb' & Hrun' & _ & _ & Hin & _).
           rewrite Hrun in Hrun'. injection Hrun' as <- <-.
           destruct (Hin uri eq_refl) as [-> Hblob].
           exists fp. split; [apply elem_of_app; by left|]. split; [done|].
           destruct Hb as [Hb _]. destruct Hstep as [Hs _].
           by apply Hs, Hb.
        -- destruct (Hstaged uri Huri) as (fp & Hfp & -> & Hblob).
           exists fp. split; [apply elem_of_app; by right | done].
Qed.

(** X14. What the batch loop hands to the loader.  For an accepted kind
    the loop returns; it issues no load; the bucket loses no object; it
    stages at most as many URIs as it retrieved files, and retrieves at
    most one file per month.  Every file retrieved is the local path of a
    month of the batches, and every URI staged is the [gs://] URI of such a
    file, whose object is in the bucket when the loop ends. *)
Theorem run_batches_provenance args batches retrieved uploaded_uris w :
  valid_kind (taxi_type args) →
  ∃ fetched staged w',
    run_batches args batches retrieved uploaded_uris w
      = (Ok (retrieved ++ fetched, uploaded_uris ++ staged), w') ∧
    blobs w ⊆ blobs w' ∧
    loads_issued (events_since w w') = [] ∧
    (length staged ≤ length fetched ≤ length (concat batches))%nat ∧
    (∀ fp, fp ∈ fetched →
       ∃ m, m ∈ concat batches ∧
            fp = download_path (taxi_type args) (year args) m) ∧
    (∀ uri, uri ∈ staged →
       ∃ fp, fp ∈ fetched ∧
         uri = gs_uri (bucket args) (blob_name_of fp (gcs_prefix args)) ∧
         (bucket args, blob_name_of fp (gcs_prefix args)) ∈ blobs w').
Proof.
  intros Hkind.
  destruct (run_batches_facts args batches Hkind retrieved uploaded_uris w)
    as (fetched & staged & w' & Hrun & Hstep & Hfacts).
  exists fetched, staged, w'. split; [done|].
  split; [by destruct Hstep|]. split; [by apply staging_step_loads|]. done.
Qed.

Lemma run_batches_provenance_witness :
  ∃ fetched staged w',
    run_batches sample_args [["01"]] [] [] quiet_world
      = (Ok (fetched, staged), w') ∧
    (length staged ≤ length fetched ≤ 1)%nat.
Proof.
  destruct (run_batches_provenance sample_args [["01"]] [] [] quiet_world)
    as (fetched & staged & w' & Hrun & _ & _ & Hlen & _); [by left|].
  exists fetched, staged, w'. split; [exact Hrun | exact Hlen].
Defined.

Lemma configure_settles args w cfg w1 :
  configure args w = (Ok cfg, w1) →
  valid_kind (taxi_type args) ∧
  get_partition_field (taxi_type args) = Ok (cfg_partition_field cfg) ∧
  months_from_args (months args) = Ok (cfg_months cfg) ∧
  cfg_bq_project cfg =
    (if truthy (bq_project args) then default EmptyString (bq_project args)
     else bq_client_project w).
Proof.
  unfold configure, bind, lift, ret.
  destruct (get_partition_field _) as [f|] eqn:Hf; [|done].
  destruct (get_bq_schema _) as [schema|]; [|done].
  assert (Hkind : valid_kind (taxi_type args)).
  { apply partition_field_cases in Hf as [[Hk _]|[Hk _]]; [by left | by right]. }
  destruct (truthy (bq_project args)).
  all: destruct (months_from_args _) as [ms|]; [|done].
  all: destruct (ensure_bucket _ _) as [[[]|] w2]; [|done].
  all: destruct (ensure_bq_dataset _ _ _ _) as [[[]|] w3]; [|done].
  all: by intros [= <- _].
Qed.

Lemma for_each_blobs {A} (body : A → M unit) xs :
  (∀ x w, blobs (body x w).2 = blobs w) →
  ∀ w, blobs (for_each xs body w).2 = blobs w.
Proof.
  intros Hbody. induction xs as [|x xs IH]; intros w; cbn [for_each]; [done|].
  unfold bind. specialize (Hbody x w).
  destruct (body x w) as [[[]|e] w1]; simpl in *; [by rewrite IH | done].
Qed.

Lemma load_all_blobs args cfg uploaded_uris w :
  blobs (load_all args cfg uploaded_uris w).2 = blobs w.
Proof.
  unfold load_all. apply for_each_blobs. intros uri w0.
  unfold load_csv_to_bq, bind, run_load_job, infra_call.
  destruct (next_reply None (load_replies w0)) as [[?|] ?]; simpl; [done|].
  by destruct (next_reply None (infra_replies w0)) as [[?|] ?].
Qed.

(** X15. [main] loads only what it staged: every URI a run asks the
    warehouse to load is the [gs://] URI, in the bucket and under the prefix
    of the arguments, of the file of one of the requested months, and its
    object is in the bucket when the run ends. *)
Theorem main_loads_staged_objects args w uri :
  uri ∈ loads_issued (events_since w (main args w).2) →
  ∃ ms m,
    months_from_args (months args) = Ok ms ∧ m ∈ ms ∧
    let key := blob_name_of
                 (download_path (taxi_type args) (year args) m)
                 (gcs_prefix args) in
    uri = gs_uri (bucket args) key ∧
    (bucket args, key) ∈ blobs (main args w).2.
Proof.
  assert (Hcfg_step := stages_configure args w).
  destruct (configure args w) as [[cfg|e] w1] eqn:Hcfg; simpl in Hcfg_step.
  2:{ unfold main, bind. rewrite Hcfg. simpl.
      rewrite (staging_step_loads _ _ Hcfg_step). by intros ?%elem_of_nil. }
  destruct (configure_settles _ _ _ _ Hcfg) as (Hkind & _ & Hmonths & _).
  destruct (main_phases args w cfg w1 Hcfg)
    as (batches & retrieved & uploaded & w2 & Hb & Hrun & _ & _ & _ & _ & ->).
  destruct (run_batches_facts args batches Hkind [] [] w1)
    as (fetched & staged & w2' & Hrun' & Hstep & _ & Hfetched & Hstaged).
  rewrite Hrun in Hrun'. injection Hrun' as -> -> <-.
  assert (Hstep02 : staging_step w w2) by (by etrans).
  assert (Hfound : ∀ u, u ∈ staged →
            ∃ ms m, months_from_args (months args) = Ok ms ∧ m ∈ ms ∧
              u = gs_uri (bucket args)
                    (blob_name_of
                       (download_path (taxi_type args) (year args) m)
                       (gcs_prefix args)) ∧
              (bucket args,
               blob_name_of (download_path (taxi_type args) (year args) m)
                 (gcs_prefix args)) ∈ blobs w2).
  { intros u (fp & (m & Hm & ->)%Hfetched & -> & Hblob)%Hstaged.
    exists (cfg_months cfg), m. split; [done|].
    by rewrite (chunked_concat _ 3 batches ltac:(lia) Hb) in Hm. }
  destruct staged as [|u0 us]; simpl.
  { rewrite (staging_step_loads _ _ Hstep02). by intros ?%elem_of_nil. }
  set (staged := u0 :: us) in *.
  assert (Hblobs := load_all_blobs args cfg staged w2).
  destruct (load_all_run args cfg staged w2)
    as (r & w3 & Hload & Hext & Hpre & _).
  rewrite Hload in Hblobs |- *. simpl in *.
  rewrite (events_since_trans w w2 w3), loads_issued_app,
    (staging_step_loads _ _ Hstep02), app_nil_l
    by (done || by apply staging_step_extends).
  intros Huri. rewrite Hblobs. apply Hfound.
  rewrite <- (sorted_Permutation staged).
  destruct Hpre as [tail ->]. apply elem_of_app. by left.
Qed.

Lemma main_loads_staged_objects_witness :
  ∃ ms m,
    months_from_args "1-6" = Ok ms ∧ m ∈ ms ∧
    "gs://bucket/raw/yellow/2024/yellow_tripdata_2024-03.csv.gz"
      = gs_uri "bucket"
          (blob_name_of (download_path "yellow" 2024 m) "raw/yellow/2024").
Proof.
  destruct (main_loads_staged_objects sample_args quiet_world
              "gs://bucket/raw/yellow/2024/yellow_tripdata_2024-03.csv.gz")
    as (ms & m & Hms & Hm & Huri & _).
  - replace (loads_issued (events_since quiet_world
                             (main sample_args quiet_world).2))
      with ["gs://bucket/raw/yellow/2024/yellow_tripdata_2024-01.csv.gz";
            "gs://bucket/raw/yellow/2024/yellow_tripdata_2024-02.csv.gz";
            "gs://bucket/raw/yellow/2024/yellow_tripdata_2024-03.csv.gz";
            "gs://bucket/raw/yellow/2024/yellow_tripdata_2024-04.csv.gz";
            "gs://bucket/raw/yellow/2024/yellow_tripdata_2024-05.csv.gz";
            "gs://bucket/raw/yellow/2024/yellow_tripdata_2024-06.csv.gz"]
      by (vm_compute; reflexivity).
    do 2 apply list_elem_of_further. apply list_elem_of_here.
  - exists ms, m. split; [exact Hms|]. split; [exact Hm | exact Huri].
Defined.
End batches.

(** ** The load phase: where the rows go *)

Lemma loads_issued_nil evs uri table field disposition raised :
  loads_issued evs = [] → EvLoad uri table field disposition raised ∉ evs.
Proof.
  intros Hnil Hin.
  assert (Huri : uri ∈ loads_issued evs).
  { apply list_elem_of_omap. by eexists (EvLoad _ _ _ _ _). }
  rewrite Hnil in Huri. by apply elem_of_nil in Huri.
Qed.

Section load_targets.
Import Pipeline.

Lemma load_loop_targets project dataset table field schema disposition uris :
  ∀ w, ∃ evs,
    log (for_each uris (fun uri =>
           load_csv_to_bq project dataset table uri field schema disposition)
           w).2 = log w ++ evs ∧
    Forall (loads_into (project +:+ "." +:+ dataset +:+ "." +:+ table)
              field disposition) evs.
Proof.
  induction uris as [|uri rest IH]; intros w; cbn [for_each].
  - exists []. by rewrite app_nil_r.
  - unfold bind at 1.
    assert (Hone : ∃ evs,
              log (load_csv_to_bq project dataset table uri field schema
                     disposition w).2 = log w ++ evs ∧
              Forall (loads_into (project +:+ "." +:+ dataset +:+ "." +:+ table)
                        field disposition) evs).
    { unfold load_csv_to_bq, bind, run_load_job, infra_call.
      destruct (next_reply None (load_replies w)) as [[?|] ?]; simpl.
      - eexists [_]. split; [done|]. by repeat constructor.
      - destruct (next_reply None (infra_replies w)) as [[?|] ?]; simpl;
          eexists [_; _]; (split; [by rewrite <- app_assoc|]);
          by repeat constructor. }
    destruct Hone as (evs1 & Hlog1 & Hall1).
    destruct (load_csv_to_bq _ _ _ _ _ _ _ w) as [[[]|e] w1]; simpl in *.
    + destruct (IH w1) as (evs2 & Hlog2 & Hall2).
      exists (evs1 ++ evs2). split; [by rewrite Hlog2, Hlog1, app_assoc|].
      by apply Forall_app.
    + by exists evs1.
Qed.

(** X16. One run writes to one table: every load that [main] issues goes
    to [<project>.<dataset>.<taxi_type>_tripdata], where the project is the
    one given or, when none is given, the project of the warehouse client;
    it is partitioned on the drop-off column of the kind and uses the write
    disposition of the arguments. *)
Theorem main_loads_one_table args w uri table field disposition raised :
  EvLoad uri table field disposition raised
    ∈ events_since w (main args w).2 →
  table = (if truthy (bq_project args)
           then default EmptyString (bq_project args)
           else bq_client_project w)
          +:+ "." +:+ bq_dataset args +:+ "." +:+ taxi_type args
          +:+ "_tripdata" ∧
  get_partition_field (taxi_type args) = Ok field ∧
  disposition = write_disposition args.
Proof.
  assert (Hcfg_step := stages_configure args w).
  destruct (configure args w) as [[cfg|e] w1] eqn:Hcfg; simpl in Hcfg_step.
  2:{ unfold main, bind. rewrite Hcfg. simpl. intros Hin.
      by destruct (loads_issued_nil _ _ _ _ _ _
                     (staging_step_loads _ _ Hcfg_step) Hin). }
  destruct (configure_settles _ _ _ _ Hcfg) as (Hkind & Hfield & _ & Hproject).
  destruct (main_phases args w cfg w1 Hcfg)
    as (batches & retrieved & uploaded & w2 & Hb & Hrun & _ & _ & _ & _ & ->).
  destruct (run_batches_facts args batches Hkind [] [] w1)
    as (fetched & staged & w2' & Hrun' & Hstep & _).
  rewrite Hrun in Hrun'. injection Hrun' as -> -> <-.
  assert (Hstep02 : staging_step w w2) by (by etrans).
  destruct staged as [|u0 us]; simpl.
  { intros Hin.
    by destruct (loads_issued_nil _ _ _ _ _ _
                   (staging_step_loads _ _ Hstep02) Hin). }
  unfold load_all.
  edestruct load_loop_targets as (evs & Hlog & Hall).
  rewrite (events_since_trans w w2), (events_since_app _ _ _ Hlog);
    [|by apply staging_step_extends|by exists evs].
  intros [Hin|Hin]%elem_of_app.
  - by destruct (loads_issued_nil _ _ _ _ _ _
                   (staging_step_loads _ _ Hstep02) Hin).
  - rewrite Forall_forall in Hall. destruct (Hall _ Hin) as (-> & -> & ->).
    by rewrite Hproject.
Qed.

Lemma main_loads_one_table_witness :
  "project.dataset.yellow_tripdata" = "project.dataset.yellow_tripdata" ∧
  get_partition_field "yellow" = Ok "tpep_dropoff_datetime".
Proof.
  destruct (main_loads_one_table sample_args quiet_world
              "gs://bucket/raw/yellow/2024/yellow_tripdata_2024-01.csv.gz"
              "project.dataset.yellow_tripdata" "tpep_dropoff_datetime"
              "WRITE_APPEND" false) as (Htable & Hfield & _).
  - apply list_elem_of_In. vm_compute.
    repeat (first [left; reflexivity | right]).
  - split; [exact Htable | exact Hfield].
Defined.
End load_targets.

(** ** Bucket and dataset checks *)

Lemma called_nil call : ¬ called call [].
Proof. intros [raised []%elem_of_nil]. Qed.

Lemma called_cons call c raised evs :
  called call (EvInfra c raised :: evs) ↔ c = call ∨ called call evs.
Proof.
  unfold called. split.
  - intros [r [[= -> ->]|Hin]%elem_of_cons]; [by left | right; by exists r].
  - intros [->|[r Hin]].
    + exists raised. apply list_elem_of_here.
    + exists r. by apply list_elem_of_further.
Qed.

Section infra.
Import Pipeline.

(** [ensure_bucket] on a name that is not blank, by what the API answers. *)
Lemma ensure_bucket_cases bucket_name w :
  ¬ blank_name bucket_name →
  ∃ evs,
    log (ensure_bucket bucket_name w).2 = log w ++ evs ∧
    blobs (ensure_bucket bucket_name w).2 = blobs w ∧
    files (ensure_bucket bucket_name w).2 = files w ∧
    match reply_at 0 (infra_replies w) with
    | None =>
        (ensure_bucket bucket_name w).1 = Ok tt ∧
        evs = [EvInfra "get_bucket" false]
    | Some NotFound =>
        match reply_at 1 (infra_replies w) with
        | None =>
            (ensure_bucket bucket_name w).1 = Ok tt ∧
            evs = [EvInfra "get_bucket" true; EvInfra "create_bucket" false]
        | Some e =>
            (ensure_bucket bucket_name w).1 = Raise e ∧
            evs = [EvInfra "get_bucket" true; EvInfra "create_bucket" true]
        end
    | Some Forbidden =>
        (ensure_bucket bucket_name w).1 = Raise (SystemExit 1) ∧
        evs = [EvInfra "get_bucket" true]
    | Some e =>
        (ensure_bucket bucket_name w).1 = Raise e ∧
        evs = [EvInfra "get_bucket" true]
    end.
Proof.
  unfold blank_name, ensure_bucket. intros Hname.
  destruct (_ || _); [done|]. unfold infra_call, reply_at.
  destruct (infra_replies w) as [|[[]|] [|[e2|] rest]]; simpl;
    eexists;
    (split; [first [reflexivity | by rewrite <- app_assoc]|]);
    by repeat split.
Qed.

(** X17. [ensure_bucket] only asks: it changes neither the bucket contents
    nor the local files.  A blank name is a [ValueError] before any call.
    Otherwise the run ends with [sys.exit(1)] exactly when [get_bucket]
    answers [Forbidden]; it calls [create_bucket] exactly when [get_bucket]
    answers [NotFound], and whatever that call raises, [Forbidden] included,
    escapes as an exception; it returns exactly when [get_bucket] succeeds
    or the creation does. *)
Theorem ensure_bucket_outcomes bucket_name w :
  let r := (ensure_bucket bucket_name w).1 in
  let w' := (ensure_bucket bucket_name w).2 in
  let first := reply_at 0 (infra_replies w) in
  let second := reply_at 1 (infra_replies w) in
  blobs w' = blobs w ∧ files w' = files w ∧
  (blank_name bucket_name → raises_ValueError r ∧ w' = w) ∧
  (¬ blank_name bucket_name →
   (∀ code, r = Raise (SystemExit code) ↔
            code = 1 ∧ first = Some Forbidden) ∧
   (called "create_bucket" (events_since w w') ↔ first = Some NotFound) ∧
   (r = Ok tt ↔ first = None ∨ (first = Some NotFound ∧ second = None)) ∧
   (first = Some NotFound → ∀ e : exception, second = Some e → r = Raise e)).
Proof.
  cbv zeta.
  destruct (decide (blank_name bucket_name)) as [Hblank|Hname].
  { unfold blank_name in Hblank. unfold ensure_bucket. rewrite Hblank.
    by repeat split. }
  destruct (ensure_bucket_cases bucket_name w Hname)
    as (evs & Hlog & Hblobs & Hfiles & Hcases).
  split; [done|]. split; [done|]. split; [done|]. intros _.
  rewrite (events_since_app _ _ _ Hlog).
  assert (Hnever := called_nil "create_bucket").
  destruct (reply_at 0 (infra_replies w)) as [[]|];
    [| |destruct (reply_at 1 (infra_replies w)) as [e2|]| | |];
    destruct Hcases as [-> ->]; rewrite !called_cons; naive_solver.
Qed.

Lemma ensure_bq_dataset_cases project dataset location w :
  project +:+ "." +:+ dataset ∉ refused_dataset_ids w →
  ∃ evs,
    log (ensure_bq_dataset project dataset location w).2 = log w ++ evs ∧
    blobs (ensure_bq_dataset project dataset location w).2 = blobs w ∧
    files (ensure_bq_dataset project dataset location w).2 = files w ∧
    match reply_at 0 (infra_replies w) with
    | None =>
        (ensure_bq_dataset project dataset location w).1 = Ok tt ∧
        evs = [EvInfra "get_dataset" false]
    | Some NotFound =>
        match reply_at 1 (infra_replies w) with
        | None =>
            (ensure_bq_dataset project dataset location w).1 = Ok tt ∧
            evs = [EvInfra "get_dataset" true; EvInfra "create_dataset" false]
        | Some e =>
            (ensure_bq_dataset project dataset location w).1 = Raise e ∧
            evs = [EvInfra "get_dataset" true; EvInfra "create_dataset" true]
        end
    | Some e =>
        (ensure_bq_dataset project dataset location w).1 = Raise e ∧
        evs = [EvInfra "get_dataset" true]
    end.
Proof.
  intros Hid. unfold ensure_bq_dataset, bind, new_dataset.
  rewrite bool_decide_eq_false_2 by done.
  unfold infra_call, reply_at.
  destruct (infra_replies w) as [|[[]|] [|[e2|] rest]]; simpl;
    eexists;
    (split; [first [reflexivity | by rewrite <- app_assoc]|]);
    by repeat split.
Qed.

(** X18. [ensure_bq_dataset] builds the dataset reference before it asks
    anything: when the constructor does not accept the id
    [<project>.<dataset>], its [ValueError] escapes, no request is made and
    the world is as it was.  Otherwise: a [Forbidden] answer of
    [get_dataset] escapes as that exception, [create_dataset] is called
    exactly when [get_dataset] answers [NotFound], and the function returns
    exactly when [get_dataset] succeeds or the creation does.  Unlike
    [ensure_bucket] it never ends the run with [sys.exit], and it changes
    neither the bucket contents nor the local files. *)
Theorem ensure_bq_dataset_outcomes project dataset location w :
  let r := (ensure_bq_dataset project dataset location w).1 in
  let w' := (ensure_bq_dataset project dataset location w).2 in
  let dataset_id := project +:+ "." +:+ dataset in
  let first := reply_at 0 (infra_replies w) in
  let second := reply_at 1 (infra_replies w) in
  blobs w' = blobs w ∧ files w' = files w ∧
  (∀ code, r ≠ Raise (SystemExit code)) ∧
  (dataset_id ∈ refused_dataset_ids w → raises_ValueError r ∧ w' = w) ∧
  (dataset_id ∉ refused_dataset_ids w →
   (first = Some Forbidden → r = Raise Forbidden) ∧
   (called "create_dataset" (events_since w w') ↔ first = Some NotFound) ∧
   (r = Ok tt ↔ first = None ∨ (first = Some NotFound ∧ second = None))).
Proof.
  cbv zeta.
  destruct (decide (project +:+ "." +:+ dataset ∈ refused_dataset_ids w))
    as [Hbad|Hid].
  { unfold ensure_bq_dataset, bind, new_dataset.
    rewrite bool_decide_eq_true_2 by done. by repeat split. }
  destruct (ensure_bq_dataset_cases project dataset location w Hid)
    as (evs & Hlog & Hblobs & Hfiles & Hcases).
  split; [done|]. split; [done|].
  rewrite (events_since_app _ _ _ Hlog).
  assert (Hnever := called_nil "create_dataset").
  destruct (reply_at 0 (infra_replies w)) as [[]|];
    [| |destruct (reply_at 1 (infra_replies w)) as [e2|]| | |];
    destruct Hcases as [-> ->]; rewrite !called_cons; naive_solver.
Qed.

Lemma ensure_bq_dataset_outcomes_witness :
  raises_ValueError
    (ensure_bq_dataset "project" "a.b" "US"
       (set_refused_dataset_ids {[ "project.a.b" ]} quiet_world)).1.
Proof.
  destruct (ensure_bq_dataset_outcomes "project" "a.b" "US"
              (set_refused_dataset_ids {[ "project.a.b" ]} quiet_world))
    as (_ & _ & _ & Hrefused & _).
  destruct Hrefused as [Hraises _]; [|exact Hraises].
  change ("project.a.b" ∈ ({[ "project.a.b" ]} : gset string)).
  by apply elem_of_singleton_2.
Defined.
End infra.

Section homework_infra.

Lemma homework_create_bucket_cases bucket_name w :
  ¬ blank_name bucket_name →
  let r := (Homework.create_bucket bucket_name w).1 in
  let w' := (Homework.create_bucket bucket_name w).2 in
  ∃ evs,
    log w' = log w ++ evs ∧ blobs w' = blobs w ∧ files w' = files w ∧
    match reply_at 0 (infra_replies w) with
    | None =>
        match reply_at 1 (infra_replies w) with
        | None =>
            r = (if bool_decide (bucket_name ∈ project_buckets w)
                 then Ok tt else Raise (SystemExit 1)) ∧
            evs = [EvInfra "get_bucket" false; EvInfra "list_buckets" false]
        | Some NotFound =>
            match reply_at 2 (infra_replies w) with
            | None =>
                r = Ok tt ∧
                evs = [EvInfra "get_bucket" false; EvInfra "list_buckets" true;
                       EvInfra "create_bucket" false]
            | Some e =>
                r = Raise e ∧
                evs = [EvInfra "get_bucket" false; EvInfra "list_buckets" true;
                       EvInfra "create_bucket" true]
            end
        | Some Forbidden =>
            r = Raise (SystemExit 1) ∧
            evs = [EvInfra "get_bucket" false; EvInfra "list_buckets" true]
        | Some e =>
            r = Raise e ∧
            evs = [EvInfra "get_bucket" false; EvInfra "list_buckets" true]
        end
    | Some NotFound =>
        match reply_at 1 (infra_replies w) with
        | None =>
            r = Ok tt ∧
            evs = [EvInfra "get_bucket" true; EvInfra "create_bucket" false]
        | Some e =>
            r = Raise e ∧
            evs = [EvInfra "get_bucket" true; EvInfra "create_bucket" true]
        end
    | Some Forbidden =>
        r = Raise (SystemExit 1) ∧ evs = [EvInfra "get_bucket" true]
    | Some e => r = Raise e ∧ evs = [EvInfra "get_bucket" true]
    end.
Proof.
  unfold blank_name, Homework.create_bucket. intros Hname.
  destruct (_ || _); [done|]. unfold bind, infra_call, reply_at. cbv zeta.
  destruct (infra_replies w) as [|[[]|] [|[[]|] [|[e3|] rest]]]; simpl;
    try destruct (bool_decide _); simpl;
    eexists;
    (split; [first [reflexivity | by rewrite <- !app_assoc]|]);
    by repeat split.
Qed.

(** X19. [create_bucket] of the homework script only asks, too.  It ends
    the run with [sys.exit(1)] exactly when [get_bucket] or [list_buckets]
    answers [Forbidden], or both succeed and the bucket is not among the
    buckets of the project.  It calls [create_bucket] of the client exactly
    when [get_bucket] or [list_buckets] answers [NotFound].  When both
    succeed and the bucket is of the project it returns after these two
    calls. *)
Theorem homework_create_bucket_outcomes bucket_name w :
  let r := (Homework.create_bucket bucket_name w).1 in
  let w' := (Homework.create_bucket bucket_name w).2 in
  let first := reply_at 0 (infra_replies w) in
  let second := reply_at 1 (infra_replies w) in
  blobs w' = blobs w ∧ files w' = files w ∧
  (blank_name bucket_name → raises_ValueError r ∧ w' = w) ∧
  (¬ blank_name bucket_name →
   (∀ code, r = Raise (SystemExit code) ↔
      code = 1 ∧
      (first = Some Forbidden ∨
       (first = None ∧ second = Some Forbidden) ∨
       (first = None ∧ second = None ∧
        bucket_name ∉ project_buckets w))) ∧
   (called "create_bucket" (events_since w w') ↔
      first = Some NotFound ∨ (first = None ∧ second = Some NotFound)) ∧
   (first = None → second = None → bucket_name ∈ project_buckets w →
    r = Ok tt ∧
    events_since w w'
      = [EvInfra "get_bucket" false; EvInfra "list_buckets" false])).
Proof.
  cbv zeta.
  destruct (decide (blank_name bucket_name)) as [Hblank|Hname].
  { unfold blank_name in Hblank. unfold Homework.create_bucket.
    rewrite Hblank. by repeat split. }
  destruct (homework_create_bucket_cases bucket_name w Hname)
    as (evs & Hlog & Hblobs & Hfiles & Hcases).
  split; [done|]. split; [done|]. split; [done|]. intros _.
  rewrite (events_since_app _ _ _ Hlog).
  assert (Hnever := called_nil "create_bucket").
  destruct (reply_at 0 (infra_replies w)) as [[]|];
    try destruct (reply_at 1 (infra_replies w)) as [[]|];
    try destruct (reply_at 2 (infra_replies w)) as [e3|];
    destruct Hcases as [-> ->]; rewrite !called_cons;
    try case_bool_decide; naive_solver.
Qed.
End homework_infra.

(** ** The homework script: what the tally counts *)

Section homework_staging.
Variable BUCKET_NAME : string.

Lemma stages_homework_download_file month :
  stages (Homework.download_file month).
Proof. unfold Homework.download_file. stages. Qed.

Lemma stages_homework_upload_to_gcs path max_retries :
  stages (Homework.upload_to_gcs BUCKET_NAME path max_retries).
Proof. unfold Homework.upload_to_gcs. stages. Qed.

Lemma homework_download_file_path month w fp w' :
  Homework.download_file month w = (Ok (Some fp), w') →
  fp = homework_path month.
Proof.
  unfold Homework.download_file. fold (homework_path month).
  unfold try_except, bind, ret, os_path_exists, os_path_getsize, urlretrieve,
    sleep.
  destruct (files w !! homework_path month) as [size|] eqn:Hf; simpl.
  - rewrite Hf. destruct (N.ltb 0 size); simpl; [by intros [= <- _]|].
    destruct (next_reply (Fetched 1) (fetch_replies w)) as [[?|? [?|]] ?];
      simpl; by intros [= <- _].
  - destruct (next_reply (Fetched 1) (fetch_replies w)) as [[?|? [?|]] ?];
      simpl; by intros [= <- _].
Qed.

Lemma homework_months_keys month :
  month ∈ Homework.MONTHS →
  basename (homework_path month)
    = "yellow_tripdata_2024-" +:+ month +:+ ".parquet".
Proof.
  intros Hin. vm_compute in Hin.
  repeat (apply elem_of_cons in Hin as [->|Hin]; [by vm_compute|]).
  by apply elem_of_nil in Hin.
Qed.

Lemma homework_create_bucket_blobs bucket_name w :
  blobs (Homework.create_bucket bucket_name w).2 = blobs w.
Proof.
  destruct (decide (blank_name bucket_name)) as [Hblank|Hname].
  - unfold blank_name in Hblank. unfold Homework.create_bucket.
    by rewrite Hblank.
  - by destruct (homework_create_bucket_cases bucket_name w Hname)
      as (evs & _ & Hblobs & _).
Qed.

Lemma tally_bounds (oks : list bool) : ∀ success total,
  Homework.tally (Ok <$> oks) success = Ok total →
  success ≤ total ≤ success + len oks ∧
  (success < total → true ∈ oks).
Proof.
  induction oks as [|ok oks IH]; intros success total; simpl.
  - intros [= <-]. unfold len. simpl. split; lia.
  - intros [Hbounds Htrue]%IH. unfold len in *. simpl length.
    destruct ok.
    + split; [lia|]. intros _. apply list_elem_of_here.
    + split; [lia|]. intros Hlt. apply list_elem_of_further, Htrue. lia.
Qed.

(** X20. [download_file] of the homework script never raises and never
    touches the bucket or another local file.  A file already on disk with
    a non-zero size is returned with the world unchanged.  Otherwise
    exactly one request is made, to the 2024 yellow-taxi parquet file of the
    month: when it succeeds the file is written, the pause follows and the
    path is returned; when it raises, [None] is returned at once, with no
    pause and no second request, and what the transfer wrote stays. *)
Theorem homework_download_file_outcomes month w :
  ∃ r w',
    Homework.download_file month w = (Ok r, w') ∧
    let path := homework_path month in
    let url := Homework.BASE_URL +:+ month +:+ ".parquet" in
    blobs w' = blobs w ∧
    (∀ p, p ≠ path → files w' !! p = files w !! p) ∧
    (on_disk path w → r = Some path ∧ w' = w) ∧
    (¬ on_disk path w →
     match (next_reply (Fetched 1) (fetch_replies w)).1 with
     | Fetched size =>
         r = Some path ∧ files w' !! path = Some size ∧
         events_since w w' =
           [EvFetch url path false; EvSleep DOWNLOAD_SLEEP_SECONDS]
     | FetchFails e partial =>
         r = None ∧ events_since w w' = [EvFetch url path true] ∧
         files w' !! path =
           match partial with
           | Some size => Some size
           | None => files w !! path
           end
     end).
Proof.
  unfold Homework.download_file. fold (homework_path month).
  unfold try_except, bind, ret, os_path_exists, os_path_getsize, urlretrieve,
    sleep, on_disk.
  destruct (files w !! homework_path month) as [size|] eqn:Hf; simpl.
  - rewrite Hf. destruct (N.ltb_spec 0 size) as [Hpos|Hzero]; simpl.
    + eexists _, _. split; [reflexivity|]. simpl.
      repeat split; try done.
      intros []. by exists size.
    + destruct (next_reply (Fetched 1) (fetch_replies w))
        as [[size'|e [size'|]] rest]; simpl;
        eexists _, _; (split; [reflexivity|]); simpl;
        (split; [done|]);
        (split; [intros p Hp; by rewrite ?lookup_insert_ne|]);
        (split; [intros (n & [= <-] & Hn); lia|]); intros _.
      * split; [done|]. split; [apply lookup_insert_eq|].
        apply events_since_app. simpl. by rewrite <- app_assoc.
      * split; [done|]. split; [by apply events_since_app|].
        apply lookup_insert_eq.
      * split; [done|]. split; [by apply events_since_app|done].
  - destruct (next_reply (Fetched 1) (fetch_replies w))
      as [[size'|e [size'|]] rest]; simpl;
      eexists _, _; (split; [reflexivity|]); simpl;
      (split; [done|]);
      (split; [intros p Hp; by rewrite ?lookup_insert_ne|]);
      (split; [by intros (n & [=] & _)|]); intros _.
    + split; [done|]. split; [apply lookup_insert_eq|].
      apply events_since_app. simpl. by rewrite <- app_assoc.
    + split; [done|]. split; [by apply events_since_app|].
      apply lookup_insert_eq.
    + split; [done|]. split; [by apply events_since_app|done].
Qed.

(** X21. [upload_to_gcs] of the homework script returns; when it returns
    [True] the object named after the file is in the bucket.  The bucket
    loses nothing and gains at most that object, no other local file is
    touched, and a file that is neither on disk nor in the bucket gives
    [False] with the bucket as it was. *)
Theorem homework_upload_to_gcs_frame path max_retries w :
  ∃ (ok : bool) w',
    Homework.upload_to_gcs BUCKET_NAME path max_retries w = (Ok ok, w') ∧
    let key := basename path in
    blobs w ⊆ blobs w' ∧
    blobs w' ⊆ {[ (BUCKET_NAME, key) ]} ∪ blobs w ∧
    (ok = true → (BUCKET_NAME, key) ∈ blobs w') ∧
    (files w !! path = None → (BUCKET_NAME, key) ∉ blobs w →
     ok = false ∧ blobs w' = blobs w) ∧
    (∀ p, p ≠ path → files w' !! p = files w !! p).
Proof.
  unfold Homework.upload_to_gcs.
  destruct (upload_attempts_frame true false path BUCKET_NAME (basename path)
              (range_items 0 max_retries 1) w)
    as (r & w' & returned & Hrun & Hr & Hframe).
  exists r, w'. split; [done|]. cbv zeta.
  assert (r = returned) as -> by (by destruct returned).
  exact Hframe.
Qed.

Lemma homework_upload_true path max_retries w w' :
  Homework.upload_to_gcs BUCKET_NAME path max_retries w = (Ok true, w') →
  (BUCKET_NAME, basename path) ∈ blobs w'.
Proof.
  unfold Homework.upload_to_gcs. intros Hrun.
  destruct (upload_attempts_frame true false path BUCKET_NAME (basename path)
              (range_items 0 max_retries 1) w)
    as (r & w2 & returned & Hrun2 & Hr & _ & _ & Hin & _).
  rewrite Hrun in Hrun2. injection Hrun2 as <- <-.
  apply Hin. by destruct returned.
Qed.

(** X22. What the last line of the homework script reports.  When the
    script runs to its end the count of successful uploads is between 0 and
    6, the bucket has lost no object, and a count above 0 is backed by an
    object in the bucket: the file of one of the six months is there under
    its own name. *)
Theorem homework_main_tally w success w' :
  Homework.main BUCKET_NAME w = (Ok success, w') →
  0 ≤ success ≤ 6 ∧
  blobs w ⊆ blobs w' ∧
  (0 < success →
   ∃ month,
     month ∈ Homework.MONTHS ∧
     (BUCKET_NAME, "yellow_tripdata_2024-" +:+ month +:+ ".parquet")
       ∈ blobs w').
Proof.
  unfold Homework.main. unfold bind at 1.
  assert (Hb0 := homework_create_bucket_blobs BUCKET_NAME w).
  destruct (Homework.create_bucket BUCKET_NAME w) as [[[]|e] w1]; [|done].
  simpl in Hb0. unfold bind at 1.
  destruct (pool_collect_rel Homework.download_file staging_step
              staging_step_schedule
              (fun m => stages_homework_download_file m)
              (fun m => homework_download_file_returns m)
              Homework.MONTHS [] w1)
    as (downloaded & w2 & Hdown & [Hb1 _] & Hlen1 & Hfrom1).
  rewrite app_nil_l in Hdown.
  change (Homework.download_all w1 = (Ok downloaded, w2)) in Hdown.
  rewrite Hdown. clear Hdown.
  destruct downloaded as [|fp0 fps]; [done|].
  set (downloaded := fp0 :: fps) in *.
  unfold Homework.upload_all, bind, lift.
  destruct (submit_all_rel
              (fun fp => Homework.upload_to_gcs BUCKET_NAME fp 3) staging_step
              (fun fp => stages_homework_upload_to_gcs fp 3)
              (fun fp => homework_upload_to_gcs_returns BUCKET_NAME fp 3)
              downloaded w2)
    as (oks & w3 & -> & [Hb2 _] & Hall).
  unfold as_completed.
  destruct (next_reply [] (schedule w3)) as [ks rest].
  rewrite shuffle_fmap.
  destruct (Homework.tally (Ok <$> shuffle ks oks) 0) as [total|] eqn:Htally;
    [|done].
  intros [= -> <-]. simpl.
  destruct (tally_bounds _ _ _ Htally) as [Hbounds Htrue].
  unfold len in Hbounds.
  rewrite (Permutation_length (shuffle_Permutation ks oks)),
    <- (Forall2_length _ _ _ Hall) in Hbounds.
  assert (Hsix : length Homework.MONTHS = 6%nat) by reflexivity.
  split; [lia|]. split; [set_solver|].
  intros Hpos. specialize (Htrue Hpos). rewrite shuffle_Permutation in Htrue.
  apply list_elem_of_lookup in Htrue as [i Hi].
  destruct (Forall2_lookup_r _ _ _ _ _ Hall Hi)
    as (fp & Hfp & wa & wb & _ & [Hb _] & Hrun).
  apply list_elem_of_lookup_2 in Hfp.
  destruct (Hfrom1 fp Hfp) as (month & w0 & w0' & Hmonth & _ & _ & Hfetch).
  apply homework_download_file_path in Hfetch as ->.
  exists month. split; [done|].
  rewrite <- (homework_months_keys month Hmonth).
  apply Hb. by eapply homework_upload_true.
Qed.

End homework_staging.

Lemma homework_main_tally_witness :
  ∃ month,
    month ∈ Homework.MONTHS ∧
    ("bucket", "yellow_tripdata_2024-" +:+ month +:+ ".parquet")
      ∈ blobs (Homework.main "bucket"
                 (set_project_buckets ["bucket"] quiet_world)).2.
Proof.
  destruct (homework_main_tally "bucket"
              (set_project_buckets ["bucket"] quiet_world) 6
              (Homework.main "bucket"
                 (set_project_buckets ["bucket"] quiet_world)).2)
    as (_ & _ & Hbacked).
  - rewrite (surjective_pairing
               (Homework.main "bucket"
                  (set_project_buckets ["bucket"] quiet_world))) at 1.
    apply (f_equal (fun r => (r, _))). vm_compute. reflexivity.
  - apply Hbacked. lia.
Defined.

(** ** The prefix of the object keys *)

Lemma basename_slash_free p : str_contains "/" (basename p) = false.
Proof.
  induction p as [|c p IH]; [done|]. cbn [basename].
  destruct (Ascii.eqb c "/") eqn:Hc; [done|].
  destruct (str_contains "/" p) eqn:Hp; [done|].
  cbn [str_contains]. by rewrite Hc, Hp.
Qed.

Lemma basename_under_prefix s f :
  str_contains "/" f = false → basename (s +:+ "/" +:+ f) = f.
Proof.
  intros Hf. induction s as [|c s IH].
  - change (basename (String "/" f) = f). cbn [basename].
    rewrite Ascii.eqb_refl. by apply basename_no_slash.
  - change (basename (String c (s +:+ "/" +:+ f)) = f). cbn [basename].
    destruct (Ascii.eqb c "/"); [done|].
    rewrite str_contains_app.
    replace (str_contains "/" ("/" +:+ f)) with true by done.
    by rewrite orb_true_r.
Qed.

Lemma rstrip_by_snoc p s c :
  p c = true → rstrip_by p (s +:+ String c EmptyString) = rstrip_by p s.
Proof.
  intros Hc. induction s as [|d s IH].
  - change (rstrip_by p (String c EmptyString) = EmptyString).
    cbn [rstrip_by]. by rewrite Hc.
  - change (rstrip_by p (String d (s +:+ String c EmptyString))
            = rstrip_by p (String d s)).
    cbn [rstrip_by]. by rewrite IH.
Qed.

Lemma strip_by_snoc p s c :
  p c = true → strip_by p (s +:+ String c EmptyString) = strip_by p s.
Proof.
  intros Hc. unfold strip_by. induction s as [|d s IH].
  - change (rstrip_by p (lstrip_by p (String c EmptyString)) = EmptyString).
    cbn [lstrip_by]. by rewrite Hc.
  - change (rstrip_by p (lstrip_by p (String d (s +:+ String c EmptyString)))
            = rstrip_by p (lstrip_by p (String d s))).
    cbn [lstrip_by]. destruct (p d); [done|].
    by apply (rstrip_by_snoc p (String d s) c).
Qed.

Section prefix.
Import Pipeline.

(** X23. The prefix counts up to the slashes around it: one more slash in
    front of it or behind it gives the same key, and a prefix made of
    slashes only is no prefix.  Whatever the prefix, the last component of
    the key is the name of the file. *)
Theorem blob_name_of_prefix file_path gcs_prefix :
  blob_name_of file_path (String "/" gcs_prefix)
    = blob_name_of file_path gcs_prefix ∧
  blob_name_of file_path (gcs_prefix +:+ "/")
    = blob_name_of file_path gcs_prefix ∧
  (str_forall (fun c => Ascii.eqb c "/") gcs_prefix = true →
   blob_name_of file_path gcs_prefix = basename file_path) ∧
  basename (blob_name_of file_path gcs_prefix) = basename file_path.
Proof.
  unfold blob_name_of, str_strip_chars.
  split; [|split; [|split]].
  - done.
  - by rewrite strip_by_snoc.
  - intros Hall.
    assert (Hstrip : lstrip_by (fun c => str_contains c "/") gcs_prefix
                     = EmptyString).
    { induction gcs_prefix as [|c s IH]; [done|]. simpl in Hall.
      apply andb_true_iff in Hall as [Hc Hs]. cbn [lstrip_by str_contains].
      rewrite Ascii.eqb_sym, Hc. simpl. by apply IH. }
    unfold strip_by. by rewrite Hstrip.
  - assert (Hfile := basename_slash_free file_path).
    destruct (str_is_empty _).
    + by apply basename_no_slash.
    + by apply basename_under_prefix.
Qed.

Lemma blob_name_of_prefix_witness :
  blob_name_of sample_path "/" = sample_key.
Proof.
  destruct (blob_name_of_prefix sample_path "/") as (_ & _ & Hnone & _).
  rewrite Hnone; reflexivity.
Defined.
End prefix.

(** ** The period expression is checked before anything is touched *)

Lemma py_int_error s e :
  py_int s = Raise e → ∃ msg, e = Exception (ValueError msg).
Proof. unfold py_int. repeat case_match; intros [= <-]; by eexists. Qed.

Lemma month_tokens_error parts : ∀ out e,
  month_tokens parts out = Raise e → ∃ msg, e = Exception (ValueError msg).
Proof.
  induction parts as [|p parts IH]; intros out e; simpl; [done|].
  destruct (py_int p) as [m|e0] eqn:Hp; simpl.
  - case_match; [intros [= <-]; by eexists | apply IH].
  - intros [= <-]. by eapply py_int_error.
Qed.

Lemma months_from_args_error s e :
  months_from_args s = Raise e → ∃ msg, e = Exception (ValueError msg).
Proof.
  unfold months_from_args. case_match; [|apply month_tokens_error].
  repeat case_match; try (intros [= <-]; by eexists).
  all: repeat match goal with
              | |- context [py_int ?s] =>
                  let Hs := fresh "Hint" in
                  destruct (py_int s) eqn:Hs; simpl
              end.
  all: try (intros [= <-]; first [by eexists | by eapply py_int_error]).
  all: repeat case_match; try done; intros [= <-]; by eexists.
Qed.

Section arguments.
Import Pipeline.

(** X24. The period expression is checked before anything is touched:
    for a kind that the command line accepts ([yellow] or [green]) and a
    [--months] value that [months_from_args] rejects, [main] raises
    [ValueError] and the world is as it was; no bucket or dataset is looked
    up or created, nothing is fetched. *)
Theorem main_rejects_bad_months args w :
  taxi_type args = "yellow" ∨ taxi_type args = "green" →
  raises (months_from_args (months args)) →
  raises_ValueError (main args w).1 ∧ (main args w).2 = w.
Proof.
  intros Hkind Hmonths.
  unfold main, bind at 1, configure, bind, lift, get_partition_field,
    get_bq_schema.
  destruct (months_from_args (months args)) as [ms|e] eqn:Hm; [done|].
  destruct (months_from_args_error _ _ Hm) as [msg ->].
  destruct Hkind as [-> | ->]; simpl;
    by destruct (truthy (bq_project args)).
Qed.

Lemma main_rejects_bad_months_witness :
  raises_ValueError
    (main (mkArgs "yellow" 2024 "0-6" "bucket" "" None "dataset" "US"
             "WRITE_APPEND") quiet_world).1.
Proof.
  apply (main_rejects_bad_months
           (mkArgs "yellow" 2024 "0-6" "bucket" "" None "dataset" "US"
              "WRITE_APPEND") quiet_world).
  - by left.
  - by vm_compute.
Defined.
End arguments.
